(** * Pharmacy management: the sale transaction, invoice numbering and the
      error-absorbing read layer

    A shallow embedding of the data layer of the pharmacy application and of
    what stands between it and a request:

    - [config/database.js]  ([executeQuery], [getOne], [beginTransaction],
      [commitTransaction], [rollbackTransaction]);
    - [models/Invoice.js]   ([generateInvoiceNumber], [getAll], [findById],
      [findByInvoiceNumber], [search], [create], [getSalesStats],
      [getTodaySales], [getSalesByDateRange]);
    - [models/Medicine.js]  ([getAll], [findById], [update], [updateStock],
      [deactivate], [getLowStock], [isLowStock]);
    - [models/User.js]      ([findById], [update]);
    - [middleware/auth.js]  ([requireAuth], [requireAdmin],
      [requirePharmacist], [redirectIfAuthenticated],
      [checkRoleAndRedirect], [setTemplateVars]);
    - [routes/pharmacist.js] (the handlers of [POST /sales/invoice],
      [GET /invoices], [GET /invoices/:id] and [POST /profile]);
    - the application file (the order of the middleware, the home route).

    The MySQL server is modelled as a set of tables with the constraints that
    [database_setup.sql] declares on the columns the sale touches (the UNIQUE
    key on [invoices.invoice_number], and the foreign keys to [users] and
    [medicines]).  Every other way a round trip can go wrong (lost connection,
    deadlock, lock timeout, an out-of-range value, ...) is an input of the
    model: the environment says, for each round trip of a call, whether it
    fails.  Asynchrony is sequentialised: each [await] is a function call.
    Two calls of [create] under way at once are followed round trip by
    round trip ([Parallel]); a call that makes its round trips alone is
    [create]. *)

From Stdlib Require Import ZArith List String Ascii Lia.
From Stdlib Require Import Decimal DecimalString DecimalPos DecimalZ.
From stdpp Require Import base option list gmap strings.

Open Scope Z_scope.

(* ===================================================================== *)
(** * JavaScript strings and numbers                                      *)
(* ===================================================================== *)

Module Js.

(** Strings hold the UTF-8 bytes of the JavaScript string.

    The numbers of the numbering code are [NaN] ([None]) or doubles of
    integer value ([Some z]; [-0] reads as [0]).  Every integer up to
    [2^53 - 1] in magnitude is a double; past it the results are rounded as
    IEEE 754 does.  [2^1024], which no double has, stands for [Infinity]. *)
Definition number : Type := option Z.

Definition MAX_SAFE_INTEGER : Z := 2 ^ 53 - 1.

Definition infinity : Z := Z.shiftl 1 1024.

(** The multiple of [2^e] nearest to [a >= 0]; of two, the even one. *)
Definition round_half_even (a e : Z) : Z :=
  let q := Z.shiftr a e in
  let r := a - Z.shiftl q e in
  let half := Z.shiftl 1 (e - 1) in
  let q' :=
    if r <? half then q
    else if half <? r then q + 1
    else if Z.even q then q else q + 1 in
  Z.shiftl q' e.

(** The double an integer result is rounded to: the nearest number with 53
    significant bits, ties to even; [Infinity] past the greatest double. *)
Definition to_double (z : Z) : Z :=
  let a := Z.abs z in
  if a <=? MAX_SAFE_INTEGER then z
  else
    let r := round_half_even a (Z.log2 a - 52) in
    Z.sgn z * (if infinity <=? r then infinity else r).

(** [n + k] on numbers: [NaN] is absorbing, the sum is rounded. *)
Definition plus (n : number) (k : Z) : number :=
  match n with
  | None => None
  | Some z => Some (to_double (z + k))
  end.

Fixpoint repeat_char (c : ascii) (n : nat) : string :=
  match n with
  | O => EmptyString
  | S n' => String c (repeat_char c n')
  end.

(** The decimal digits of a natural number. *)
Definition decimal (z : Z) : string := NilZero.string_of_int (Z.to_int z).

(** [s * 10^e] has [k] digits before the zeros and reads back as [a]. *)
Definition reads_back (a k : Z) (c : Z * Z) : bool :=
  ((10 ^ (k - 1) <=? fst c) && (fst c <? 10 ^ k)
   && (to_double (fst c * 10 ^ snd c) =? a))%bool.

(** The numbers of [k] digits next to [a], of the length of [a] or one
    digit longer, that read back as [a]. *)
Definition candidates (a k : Z) : list (Z * Z) :=
  let d := Z.of_nat (String.length (decimal a)) in
  List.filter (reads_back a k)
    (flat_map
       (fun n =>
          let e := n - k in
          if e <? 0 then []
          else [(a / 10 ^ e, e); (a / 10 ^ e + 1, e)])
       [d; d + 1]).

(** Of two candidates the one nearer to [a]; of two as near, the even. *)
Definition closer (a : Z) (x y : Z * Z) : Z * Z :=
  let dx := Z.abs (fst x * 10 ^ snd x - a) in
  let dy := Z.abs (fst y * 10 ^ snd y - a) in
  if dx <? dy then x
  else if dy <? dx then y
  else if Z.even (fst x) then x else y.

(** The shortest digits [s] and exponent [e] that read back as the double
    [a]: [k] digits are tried for [k = 1, 2, ...]; 17 always do. *)
Fixpoint shortest_from (fuel : nat) (a k : Z) : Z * Z :=
  match fuel with
  | O => (a, 0)
  | S fuel' =>
      match candidates a k with
      | x :: rest => fold_left (closer a) rest x
      | [] => shortest_from fuel' a (k + 1)
      end
  end.

Definition shortest (a : Z) : Z * Z := shortest_from 17 a 1.

(** [String(a)] for a double [a > 2^53 - 1]: the shortest digits that read
    back as [a], followed by zeros up to 21 digits in all, in exponent
    notation past that. *)
Definition large_String (a : Z) : string :=
  if infinity <=? a then "Infinity"
  else
    let '(s, e) := shortest a in
    let n := Z.of_nat (String.length (decimal s)) + e in
    if n <=? 21 then decimal s +:+ repeat_char "0" (Z.to_nat e)
    else
      match decimal s with
      | String c EmptyString => String c ("e+" +:+ decimal (n - 1))
      | String c rest => String c ("." +:+ rest +:+ "e+" +:+ decimal (n - 1))
      | EmptyString => EmptyString
      end.

(** [String(n)] *)
Definition String_ (n : number) : string :=
  match n with
  | None => "NaN"
  | Some z =>
      if Z.abs z <=? MAX_SAFE_INTEGER
      then NilZero.string_of_int (Z.to_int z)
      else (if z <? 0 then "-" else "") +:+ large_String (Z.abs z)
  end.

(** [s.padStart(targetLength, c)] for a one-character filler. *)
Definition padStart (s : string) (targetLength : nat) (c : ascii) : string :=
  repeat_char c (targetLength - String.length s) +:+ s.

(** [s.split(sep)] for a one-character separator: never the empty array. *)
Fixpoint split (sep : ascii) (s : string) : list string :=
  match s with
  | EmptyString => [EmptyString]
  | String c rest =>
      if Ascii.eqb c sep then EmptyString :: split sep rest
      else match split sep rest with
           | seg :: segs => String c seg :: segs
           | [] => [String c EmptyString]
           end
  end.

(** [a.pop()] as an expression: the last element ([undefined], here the empty
    string, on the empty array, which [split] never returns). *)
Definition pop (a : list string) : string := List.last a EmptyString.

(** White space of one byte: space, TAB, LF, VT, FF, CR. *)
Definition is_whitespace1 (c : ascii) : bool :=
  let n := nat_of_ascii c in
  (Nat.eqb n 32 || (Nat.leb 9 n && Nat.leb n 13))%bool.

(** White space of two bytes: U+00A0 (C2 A0). *)
Definition is_whitespace2 (c1 c2 : ascii) : bool :=
  (Nat.eqb (nat_of_ascii c1) 194 && Nat.eqb (nat_of_ascii c2) 160)%bool.

(** White space of three bytes: U+1680 (E1 9A 80), U+2000 to U+200A
    (E2 80 80 to E2 80 8A), the line and paragraph separators U+2028 and
    U+2029 (E2 80 A8, E2 80 A9), U+202F (E2 80 AF), U+205F (E2 81 9F),
    U+3000 (E3 80 80) and U+FEFF (EF BB BF). *)
Definition is_whitespace3 (c1 c2 c3 : ascii) : bool :=
  let n1 := nat_of_ascii c1 in
  let n2 := nat_of_ascii c2 in
  let n3 := nat_of_ascii c3 in
  ((Nat.eqb n1 225 && Nat.eqb n2 154 && Nat.eqb n3 128)
   || (Nat.eqb n1 226 && Nat.eqb n2 128
       && ((Nat.leb 128 n3 && Nat.leb n3 138)
           || Nat.eqb n3 168 || Nat.eqb n3 169 || Nat.eqb n3 175))
   || (Nat.eqb n1 226 && Nat.eqb n2 129 && Nat.eqb n3 159)
   || (Nat.eqb n1 227 && Nat.eqb n2 128 && Nat.eqb n3 128)
   || (Nat.eqb n1 239 && Nat.eqb n2 187 && Nat.eqb n3 191))%bool.

(** The string without its leading white space and line terminators, those
    of ECMAScript: TAB, VT, FF, SP, U+00A0, U+FEFF, the space separators of
    Unicode, LF, CR, U+2028 and U+2029. *)
Fixpoint skip_whitespace (s : string) : string :=
  match s with
  | String c1 rest1 =>
      if is_whitespace1 c1 then skip_whitespace rest1
      else
        match rest1 with
        | String c2 rest2 =>
            if is_whitespace2 c1 c2 then skip_whitespace rest2
            else
              match rest2 with
              | String c3 rest3 =>
                  if is_whitespace3 c1 c2 c3 then skip_whitespace rest3
                  else s
              | EmptyString => s
              end
        | EmptyString => s
        end
  | EmptyString => s
  end.

Definition digit_value (c : ascii) : option N :=
  let n := N_of_ascii c in
  if ((48 <=? n) && (n <=? 57))%N then Some (n - 48)%N else None.

Definition hex_digit_value (c : ascii) : option N :=
  let n := N_of_ascii c in
  if ((48 <=? n) && (n <=? 57))%N then Some (n - 48)%N
  else if ((65 <=? n) && (n <=? 70))%N then Some (n - 55)%N
  else if ((97 <=? n) && (n <=? 102))%N then Some (n - 87)%N
  else None.

(** The longest prefix of digits, most significant first; [acc] is [None]
    until a digit has been read. *)
Fixpoint parse_digits (radix : N) (value : ascii -> option N)
  (s : string) (acc : option N) : option N :=
  match s with
  | EmptyString => acc
  | String c rest =>
      match value c with
      | Some d =>
          parse_digits radix value rest
            (Some (radix * default 0%N acc + d)%N)
      | None => acc
      end
  end.

(** A leading sign: its value and the rest of the string. *)
Definition strip_sign (s : string) : Z * string :=
  match s with
  | String c r =>
      if Ascii.eqb c "-" then (-1, r)
      else if Ascii.eqb c "+" then (1, r)
      else (1, s)
  | EmptyString => (1, s)
  end.

(** The rest of the string after a leading [0x] or [0X]. *)
Definition strip_hex_prefix (s : string) : option string :=
  match s with
  | String c1 (String c2 r) =>
      if (Ascii.eqb c1 "0" && (Ascii.eqb c2 "x" || Ascii.eqb c2 "X"))%bool
      then Some r else None
  | _ => None
  end.

(** [parseInt(s)] without a radix: leading white space, a sign, a [0x]
    prefix, then digits; [NaN] when there is no digit, else the double
    nearest to the number read. *)
Definition parseInt (s : string) : number :=
  let '(sign, s1) := strip_sign (skip_whitespace s) in
  let digits :=
    match strip_hex_prefix s1 with
    | Some r => parse_digits 16 hex_digit_value r None
    | None => parse_digits 10 digit_value s1 None
    end in
  match digits with
  | Some n => Some (to_double (sign * Z.of_N n))
  | None => None
  end.

(** Every character of the string passes the test. *)
Fixpoint forall_chars (P : ascii -> bool) (s : string) : bool :=
  match s with
  | EmptyString => true
  | String c r => (P c && forall_chars P r)%bool
  end.

Definition is_digit (c : ascii) : bool :=
  match digit_value c with
  | Some _ => true
  | None => false
  end.

(** What the code reads from [new Date()] and [Date.now()]. *)
Record clock : Type := {
  getFullYear : Z;          (* local year *)
  getMonth : Z;             (* local month, 0..11 *)
  getDate : Z;              (* local day of the month *)
  Date_now : Z;             (* milliseconds since the epoch *)
  toISODate : string        (* [toISOString().split('T')[0]] *)
}.

(** ** Values of request fields and bound parameters *)

(** The scalar values a field of a request or a bound parameter holds. *)
Inductive value : Type :=
| Undefined
| Null
| Num (z : Z)
| Str (s : string).

(** [if (v)]: [undefined], [null], [0] and the empty string are falsy. *)
Definition truthy (v : value) : bool :=
  match v with
  | Undefined | Null => false
  | Num z => negb (z =? 0)
  | Str s => negb (String.eqb s "")
  end.

(** [v !== undefined] *)
Definition defined (v : value) : bool :=
  match v with
  | Undefined => false
  | _ => true
  end.

(** [a === b] *)
Definition strict_eq (a b : value) : bool :=
  match a, b with
  | Undefined, Undefined => true
  | Null, Null => true
  | Num x, Num y => x =? y
  | Str x, Str y => String.eqb x y
  | _, _ => false
  end.

(** An object with scalar fields, such as [req.body] or
    [req.session.user]. *)
Definition object : Type := gmap string value.

(** [o.k]: a field that is not there reads as [undefined]. *)
Definition get (o : object) (k : string) : value := default Undefined (o !! k).

(** [{ ...a, ...b }]: every field of [b], and the fields of [a] that [b]
    does not have. *)
Definition spread (a b : object) : object := union b a.

(** [a.join(sep)] *)
Fixpoint join (sep : string) (a : list string) : string :=
  match a with
  | [] => EmptyString
  | x :: rest =>
      match rest with
      | [] => x
      | _ :: _ => x +:+ sep +:+ join sep rest
      end
  end.

(** [if (test) { fields.push(text); values.push(v) }] on the two arrays of
    a statement under construction. *)
Definition push_if (test : bool) (text : string) (v : value)
  (acc : list string * list value) : list string * list value :=
  if test then (fst acc ++ [text], snd acc ++ [v]) else acc.

(** [s.startsWith(p)] *)
Definition startsWith (s p : string) : bool := String.prefix p s.

End Js.

(* ===================================================================== *)
(** * The database: schema, statements, constraints                       *)
(* ===================================================================== *)

Module Db.

(** Amounts are DECIMAL(10,2) columns: integers counting hundredths. *)
Definition money : Type := Z.

(** [medicines]: the columns the sale flow reads or writes.  The stock is
    a signed INT; the schema would allow NULL, which the application never
    writes. *)
Record medicine_row : Type := {
  medicine_name : string;
  generic_name : option string;
  company_id : option Z;
  quantity_in_stock : Z;
  min_stock_level : Z;
  is_active : bool
}.

(** [invoices], without the server-filled time stamps. *)
Record invoice_row : Type := {
  inv_id : Z;
  inv_invoice_number : string;
  inv_customer_name : option string;
  inv_customer_mobile : option string;
  inv_customer_address : option string;
  inv_pharmacist_id : Z;
  inv_total_amount : money;
  inv_discount_amount : money;
  inv_final_amount : money;
  inv_payment_method : string;
  inv_invoice_date : string
}.

Record invoice_item_row : Type := {
  item_id : Z;
  item_invoice_id : Z;
  item_medicine_id : Z;
  item_quantity : Z;
  item_unit_price : money;
  item_total_price : money
}.

Inductive movement_type : Type := In_ | Out | Adjustment.

Inductive reference_type : Type := Purchase | Sale | AdjustmentRef | Return.

Record stock_movement_row : Type := {
  mov_id : Z;
  mov_medicine_id : Z;
  mov_movement_type : movement_type;
  mov_quantity : Z;
  mov_reference_type : reference_type;
  mov_reference_id : option Z;
  mov_notes : option string;
  mov_created_by : Z
}.

(** The tables.  [users] and [companies] map an id to the one column that is
    joined in ([full_name], [company_name]); [medicines] is keyed by id; the
    three tables the sale inserts into are kept in insertion order. *)
Record tables : Type := {
  users : gmap Z string;
  companies : gmap Z string;
  medicines : gmap Z medicine_row;
  invoices : list invoice_row;
  invoice_items : list invoice_item_row;
  stock_movements : list stock_movement_row
}.

(** AUTO_INCREMENT counters.  They belong to the server, not to a
    transaction: a rollback does not give ids back. *)
Record counters : Type := {
  next_invoice_id : Z;
  next_item_id : Z;
  next_movement_id : Z
}.

(** The committed state of the server. *)
Record db : Type := {
  committed : tables;
  ids : counters
}.

(** The bound parameters of [INSERT INTO invoices (...)]. *)
Record invoice_values : Type := {
  v_invoice_number : string;
  v_customer_name : option string;
  v_customer_mobile : option string;
  v_customer_address : option string;
  v_pharmacist_id : Z;
  v_total_amount : money;
  v_discount_amount : money;
  v_final_amount : money;
  v_payment_method : string;
  v_invoice_date : string
}.

(** The statements the modelled code sends. *)
Inductive statement : Type :=
| START_TRANSACTION
| COMMIT
| ROLLBACK
| SelectLastInvoiceNumber (pattern : string)
    (* SELECT invoice_number FROM invoices WHERE invoice_number LIKE ?
       ORDER BY id DESC LIMIT 1 *)
| InsertInvoice (v : invoice_values)
| InsertInvoiceItem (invoice_id medicine_id quantity : Z)
    (unit_price total_price : money)
| UpdateMedicineStock (quantity medicine_id : Z)
    (* UPDATE medicines SET quantity_in_stock = quantity_in_stock - ?
       WHERE id = ? *)
| InsertStockMovement (medicine_id quantity reference_id : Z)
    (notes : string) (created_by : Z)
    (* ... VALUES (?, 'out', ?, 'sale', ?, ?, ?) *)
| SetMedicineStock (newQuantity medicine_id : Z)
    (* UPDATE medicines SET quantity_in_stock = ? WHERE id = ? *)
| SelectInvoiceById (id : Z)
| SelectInvoiceItems (invoice_id : Z).

(** Errors a statement raises. *)
Inductive exn : Type :=
| ER_DUP_ENTRY              (* UNIQUE key violated *)
| ER_NO_REFERENCED_ROW      (* foreign key violated *)
| StorageFailure.           (* any failure the environment injects *)

(** ** Data-changing statements *)

Definition set_quantity (q : Z) (m : medicine_row) : medicine_row :=
  {| medicine_name := medicine_name m;
     generic_name := generic_name m;
     company_id := company_id m;
     quantity_in_stock := q;
     min_stock_level := min_stock_level m;
     is_active := is_active m |}.

(** [SET quantity_in_stock = quantity_in_stock - ?]: the new value is
    computed by the server from the value it holds. *)
Definition decrement_stock (quantity : Z) (m : medicine_row) : medicine_row :=
  set_quantity (quantity_in_stock m - quantity) m.

Definition number_taken (n : string) (t : tables) : bool :=
  existsb (fun r => String.eqb (inv_invoice_number r) n) (invoices t).

Definition invoice_exists (id : Z) (t : tables) : bool :=
  existsb (fun r => inv_id r =? id) (invoices t).

Definition with_invoices (t : tables) (l : list invoice_row) : tables :=
  {| users := users t; companies := companies t; medicines := medicines t;
     invoices := l;
     invoice_items := invoice_items t;
     stock_movements := stock_movements t |}.

Definition with_invoice_items (t : tables) (l : list invoice_item_row)
  : tables :=
  {| users := users t; companies := companies t; medicines := medicines t;
     invoices := invoices t;
     invoice_items := l;
     stock_movements := stock_movements t |}.

Definition with_stock_movements (t : tables) (l : list stock_movement_row)
  : tables :=
  {| users := users t; companies := companies t; medicines := medicines t;
     invoices := invoices t;
     invoice_items := invoice_items t;
     stock_movements := l |}.

Definition with_medicines (t : tables) (m : gmap Z medicine_row) : tables :=
  {| users := users t; companies := companies t; medicines := m;
     invoices := invoices t;
     invoice_items := invoice_items t;
     stock_movements := stock_movements t |}.

Definition invoice_row_of (id : Z) (v : invoice_values) : invoice_row :=
  {| inv_id := id;
     inv_invoice_number := v_invoice_number v;
     inv_customer_name := v_customer_name v;
     inv_customer_mobile := v_customer_mobile v;
     inv_customer_address := v_customer_address v;
     inv_pharmacist_id := v_pharmacist_id v;
     inv_total_amount := v_total_amount v;
     inv_discount_amount := v_discount_amount v;
     inv_final_amount := v_final_amount v;
     inv_payment_method := v_payment_method v;
     inv_invoice_date := v_invoice_date v |}.

Definition bump_invoice (c : counters) : counters :=
  {| next_invoice_id := next_invoice_id c + 1;
     next_item_id := next_item_id c;
     next_movement_id := next_movement_id c |}.

Definition bump_item (c : counters) : counters :=
  {| next_invoice_id := next_invoice_id c;
     next_item_id := next_item_id c + 1;
     next_movement_id := next_movement_id c |}.

Definition bump_movement (c : counters) : counters :=
  {| next_invoice_id := next_invoice_id c;
     next_item_id := next_item_id c;
     next_movement_id := next_movement_id c + 1 |}.

(** What a data-changing statement does to the tables of the transaction it
    runs in; the [Z] is [insertId] (0 when nothing was inserted).  Reads and
    transaction control change no table. *)
Definition apply_statement (s : statement) (t : tables) (c : counters)
  : exn + (tables * counters * Z) :=
  match s with
  | InsertInvoice v =>
      if number_taken (v_invoice_number v) t then inl ER_DUP_ENTRY
      else if bool_decide (users t !! v_pharmacist_id v = None)
      then inl ER_NO_REFERENCED_ROW
      else
        let id := next_invoice_id c in
        inr (with_invoices t (invoices t ++ [invoice_row_of id v]),
             bump_invoice c, id)
  | InsertInvoiceItem invoice_id medicine_id quantity unit_price total_price =>
      if negb (invoice_exists invoice_id t) then inl ER_NO_REFERENCED_ROW
      else if bool_decide (medicines t !! medicine_id = None)
      then inl ER_NO_REFERENCED_ROW
      else
        let id := next_item_id c in
        inr (with_invoice_items t
               (invoice_items t ++
                  [{| item_id := id;
                      item_invoice_id := invoice_id;
                      item_medicine_id := medicine_id;
                      item_quantity := quantity;
                      item_unit_price := unit_price;
                      item_total_price := total_price |}]),
             bump_item c, id)
  | UpdateMedicineStock quantity medicine_id =>
      inr (with_medicines t
             (alter (decrement_stock quantity) medicine_id (medicines t)),
           c, 0)
  | SetMedicineStock newQuantity medicine_id =>
      inr (with_medicines t
             (alter (set_quantity newQuantity) medicine_id (medicines t)),
           c, 0)
  | InsertStockMovement medicine_id quantity reference_id notes created_by =>
      if bool_decide (medicines t !! medicine_id = None)
      then inl ER_NO_REFERENCED_ROW
      else if bool_decide (users t !! created_by = None)
      then inl ER_NO_REFERENCED_ROW
      else
        let id := next_movement_id c in
        inr (with_stock_movements t
               (stock_movements t ++
                  [{| mov_id := id;
                      mov_medicine_id := medicine_id;
                      mov_movement_type := Out;
                      mov_quantity := quantity;
                      mov_reference_type := Sale;
                      mov_reference_id := Some reference_id;
                      mov_notes := Some notes;
                      mov_created_by := created_by |}]),
             bump_movement c, id)
  | _ => inr (t, c, 0)
  end.

(** The server runs a list of statements; any error stops the run. *)
Fixpoint run (l : list statement) (t : tables) (c : counters)
  : exn + (tables * counters) :=
  match l with
  | [] => inr (t, c)
  | s :: rest =>
      match apply_statement s t c with
      | inl x => inl x
      | inr (t', c', _) => run rest t' c'
      end
  end.

(** A statement that writes a stock value computed outside the server. *)
Definition overwrites_stock (s : statement) : bool :=
  match s with
  | SetMedicineStock _ _ => true
  | _ => false
  end.

(** What a statement takes from the stock of medicine [m]. *)
Definition stock_delta (m : Z) (s : statement) : Z :=
  match s with
  | UpdateMedicineStock quantity medicine_id =>
      if medicine_id =? m then quantity else 0
  | _ => 0
  end.

Definition stock_of (m : Z) (t : tables) : option Z :=
  option_map quantity_in_stock (medicines t !! m).

(** ** Queries *)

(** [invoice_number LIKE 'p%'] for a pattern [p] without wild cards.
    Strings are compared byte by byte, here and in the UNIQUE key; on the
    numbers this code writes (upper-case [INV], digits, dashes) MySQL's
    collations agree with that. *)
Definition like_prefix (p : string) (s : string) : bool := String.prefix p s.

(** [ORDER BY id DESC LIMIT 1]: of two rows, the one with the greater id. *)
Definition later_invoice (best : option invoice_row) (r : invoice_row)
  : option invoice_row :=
  match best with
  | None => Some r
  | Some b => if inv_id b <? inv_id r then Some r else Some b
  end.

Definition last_invoice_like (p : string) (t : tables) : option invoice_row :=
  fold_left later_invoice
    (List.filter (fun r => like_prefix p (inv_invoice_number r)) (invoices t))
    None.

(** The rows of [SelectLastInvoiceNumber]: at most one [invoice_number]. *)
Definition select_last_invoice_number (p : string) (t : tables)
  : list string :=
  match last_invoice_like p t with
  | Some r => [inv_invoice_number r]
  | None => []
  end.

(** A row of [SELECT i.*, u.full_name as pharmacist_name FROM invoices i
    LEFT JOIN users u ON i.pharmacist_id = u.id]. *)
Record invoice_data : Type := {
  d_row : invoice_row;
  d_pharmacist_name : option string
}.

Definition join_pharmacist (t : tables) (r : invoice_row) : invoice_data :=
  {| d_row := r; d_pharmacist_name := users t !! inv_pharmacist_id r |}.

Definition select_invoice_by_id (id : Z) (t : tables) : list invoice_data :=
  map (join_pharmacist t)
    (List.filter (fun r => inv_id r =? id) (invoices t)).

(** A row of the items query of [findById]: [ii.*] with the joined names and
    [ii.unit_price as selling_price]. *)
Record item_data : Type := {
  it_row : invoice_item_row;
  it_medicine_name : option string;
  it_generic_name : option string;
  it_company_name : option string;
  it_selling_price : money
}.

Definition join_medicine (t : tables) (r : invoice_item_row) : item_data :=
  let m : option medicine_row := medicines t !! item_medicine_id r in
  {| it_row := r;
     it_medicine_name := option_map medicine_name m;
     it_generic_name :=
       match m with Some x => generic_name x | None => None end;
     it_company_name :=
       match m with
       | Some x =>
           match company_id x with
           | Some c => companies t !! c
           | None => None
           end
       | None => None
       end;
     it_selling_price := item_unit_price r |}.

(** [ORDER BY ii.id ASC]: insertion sort on the id. *)
Fixpoint insert_by_id (r : invoice_item_row) (l : list invoice_item_row)
  : list invoice_item_row :=
  match l with
  | [] => [r]
  | x :: rest =>
      if item_id r <? item_id x then r :: l else x :: insert_by_id r rest
  end.

Definition sort_by_id (l : list invoice_item_row) : list invoice_item_row :=
  fold_right insert_by_id [] l.

Definition select_invoice_items (invoice_id : Z) (t : tables)
  : list item_data :=
  map (join_medicine t)
    (sort_by_id
       (List.filter (fun r => item_invoice_id r =? invoice_id)
          (invoice_items t))).

End Db.

(* ===================================================================== *)
(** * config/database.js                                                  *)
(* ===================================================================== *)

Module Database.
Import Db.

(** The round trips of one call, named so that the environment can fail any
    of them.  [k] is the position of the line item in [items]. *)
Inductive step : Type :=
| GetConnection
| BeginTransaction
| LookupLastNumber
| InsertInvoiceRow
| InsertItemRow (k : nat)
| UpdateStock (k : nat)
| InsertMovementRow (k : nat)
| Commit
| Rollback
| FetchInvoice
| FetchItems.

(** The environment of one call: which round trips fail, the message the
    driver reports for a failed pool query, and the clock. *)
Record env : Type := {
  fails : step -> bool;
  error_message : string;
  now : Js.clock
}.

(** The state threaded through one call: the committed tables, the tables as
    the open transaction sees them, the AUTO_INCREMENT counters, and the
    statements sent so far (oldest first). *)
Record world : Type := {
  w_committed : tables;
  w_working : tables;
  w_ids : counters;
  w_issued : list statement
}.

Definition open_world (d : db) : world :=
  {| w_committed := committed d;
     w_working := committed d;
     w_ids := ids d;
     w_issued := [] |}.

Definition close_world (w : world) : db :=
  {| committed := w_committed w; ids := w_ids w |}.

Definition send (s : statement) (w : world) : world :=
  {| w_committed := w_committed w;
     w_working := w_working w;
     w_ids := w_ids w;
     w_issued := w_issued w ++ [s] |}.

(** Code that may throw: a thrown error ends the computation and leaves the
    state as it was when the error was raised. *)
Definition M (A : Type) : Type := world -> (exn + A) * world.

Definition ret {A : Type} (a : A) : M A := fun w => (inr a, w).

Definition bind {A B : Type} (m : M A) (k : A -> M B) : M B :=
  fun w =>
    match m w with
    | (inl x, w') => (inl x, w')
    | (inr a, w') => k a w'
    end.

Notation "x <- m ;; k" := (bind m (fun x => k))
  (at level 100, m at next level, right associativity).

(** What [{ success, data, error }] objects carry. *)
Record query_result (A : Type) : Type := {
  success : bool;
  data : option A;
  error : option string
}.
Arguments success {A} _.
Arguments data {A} _.
Arguments error {A} _.

(** [executeQuery], given what [promisePool.execute] did: it returned the
    rows, or it threw an error with the given message. *)
Definition executeQuery {R : Type} (outcome : string + list R)
  : query_result (list R) :=
  match outcome with
  | inr results => {| success := true; data := Some results; error := None |}
  | inl message => {| success := false; data := None; error := Some message |}
  end.

(** [getOne]: [results[0] || null]. *)
Definition getOne {R : Type} (outcome : string + list R) : query_result R :=
  match outcome with
  | inr results => {| success := true; data := head results; error := None |}
  | inl message => {| success := false; data := None; error := Some message |}
  end.

(** [promisePool.execute(query, params)] for a SELECT: a round trip on a
    connection of its own, which sees the committed tables. *)
Definition pool_execute {R : Type} (e : env) (st : step) (s : statement)
  (rows : tables -> list R) (w : world) : (string + list R) * world :=
  if fails e st then (inl (error_message e), send s w)
  else (inr (rows (w_committed w)), send s w).

(** [connection.execute(query, params)] inside the transaction; the result
    is [insertId]. *)
Definition connection_execute (e : env) (st : step) (s : statement) : M Z :=
  fun w =>
    let w1 := send s w in
    if fails e st then (inl StorageFailure, w1)
    else
      match apply_statement s (w_working w1) (w_ids w1) with
      | inl x => (inl x, w1)
      | inr (t, c, id) =>
          (inr id,
           {| w_committed := w_committed w1;
              w_working := t;
              w_ids := c;
              w_issued := w_issued w1 |})
      end.

(** [promisePool.getConnection()], then [connection.beginTransaction()]:
    the transaction starts from the committed tables. *)
Definition beginTransaction (e : env) : M unit :=
  fun w =>
    if fails e GetConnection then (inl StorageFailure, w)
    else
      let w1 := send START_TRANSACTION w in
      if fails e BeginTransaction then (inl StorageFailure, w1)
      else
        (inr tt,
         {| w_committed := w_committed w1;
            w_working := w_committed w1;
            w_ids := w_ids w1;
            w_issued := w_issued w1 |}).

(** [connection.commit()]: the tables of the transaction become the
    committed ones; when the round trip fails nothing is committed. *)
Definition commitTransaction (e : env) : M unit :=
  fun w =>
    let w1 := send COMMIT w in
    if fails e Commit then (inl StorageFailure, w1)
    else
      (inr tt,
       {| w_committed := w_working w1;
          w_working := w_working w1;
          w_ids := w_ids w1;
          w_issued := w_issued w1 |}).

(** [connection.rollback()]: the changes of the transaction are dropped.
    When the round trip fails the call throws; nothing was committed, so
    the committed tables stay as they are in that case too. *)
Definition rollbackTransaction (e : env) : M unit :=
  fun w =>
    let w1 := send ROLLBACK w in
    if fails e Rollback then (inl StorageFailure, w1)
    else
      (inr tt,
       {| w_committed := w_committed w1;
          w_working := w_committed w1;
          w_ids := w_ids w1;
          w_issued := w_issued w1 |}).

End Database.

(* ===================================================================== *)
(** * The sale request                                                    *)
(* ===================================================================== *)

Module Sale.
Import Db.

(** One element of [items], its fields as the server stores them. *)
Record item : Type := {
  medicine_id : Z;
  quantity : Z;
  unit_price : money;
  total_price : money
}.

(** [invoiceData]. *)
Record header : Type := {
  customer_name : option string;
  customer_mobile : option string;
  customer_address : option string;
  pharmacist_id : Z;
  total_amount : money;
  discount_amount : option money;
  final_amount : money;
  payment_method : option string;
  invoice_date : option string
}.

(** [s || other] on an optional string: the empty string is falsy. *)
Definition or_string (s : option string) (other : option string)
  : option string :=
  match s with
  | Some EmptyString => other
  | Some x => Some x
  | None => other
  end.

(** The units of medicine [m] a list of items sells. *)
Definition quantity_sold (m : Z) (items : list item) : Z :=
  fold_right Z.add 0
    (map quantity (List.filter (fun i => medicine_id i =? m) items)).

(** The number of line items that name medicine [m]. *)
Definition lines_of (m : Z) (items : list item) : nat :=
  List.length (List.filter (fun i => medicine_id i =? m) items).

End Sale.

(* ===================================================================== *)
(** * models/Invoice.js                                                   *)
(* ===================================================================== *)

Module Invoice.
Import Db Database.

(** An [Invoice] object. *)
Record t : Type := {
  id : Z;
  invoice_number : string;
  customer_name : option string;
  customer_mobile : option string;
  customer_address : option string;
  pharmacist_id : Z;
  total_amount : money;
  discount_amount : money;
  final_amount : money;
  payment_method : string;
  invoice_date : string;
  pharmacist_name : option string;     (* from the join *)
  items : list item_data
}.

(** [new Invoice(invoiceData)] on a row of the joined query: such a row has
    no [items], so [invoiceData.items || []] is the empty array. *)
Definition new (invoiceData : invoice_data) : t :=
  let r := d_row invoiceData in
  {| id := inv_id r;
     invoice_number := inv_invoice_number r;
     customer_name := inv_customer_name r;
     customer_mobile := inv_customer_mobile r;
     customer_address := inv_customer_address r;
     pharmacist_id := inv_pharmacist_id r;
     total_amount := inv_total_amount r;
     discount_amount := inv_discount_amount r;
     final_amount := inv_final_amount r;
     payment_method := inv_payment_method r;
     invoice_date := inv_invoice_date r;
     pharmacist_name := d_pharmacist_name invoiceData;
     items := [] |}.

(** [invoice.items = itemsResult.data] *)
Definition set_items (invoice : t) (l : list item_data) : t :=
  {| id := id invoice;
     invoice_number := invoice_number invoice;
     customer_name := customer_name invoice;
     customer_mobile := customer_mobile invoice;
     customer_address := customer_address invoice;
     pharmacist_id := pharmacist_id invoice;
     total_amount := total_amount invoice;
     discount_amount := discount_amount invoice;
     final_amount := final_amount invoice;
     payment_method := payment_method invoice;
     invoice_date := invoice_date invoice;
     pharmacist_name := pharmacist_name invoice;
     items := l |}.

(** ** generateInvoiceNumber *)

(** [`INV-${year}${month}${day}`] *)
Definition prefix (c : Js.clock) : string :=
  "INV-" +:+ Js.String_ (Some (Js.getFullYear c))
    +:+ Js.padStart (Js.String_ (Some (Js.getMonth c + 1))) 2 "0"
    +:+ Js.padStart (Js.String_ (Some (Js.getDate c))) 2 "0".

(** The statements of the [try] block after [getOne] has returned; the row
    of the query is its one column, [invoice_number]. *)
Definition next_number (prefix : string) (result : query_result string)
  : string :=
  let sequence : Js.number :=
    match success result, data result with
    | true, Some lastNumber =>
        let lastSequence := Js.parseInt (Js.pop (Js.split "-" lastNumber)) in
        Js.plus lastSequence 1
    | _, _ => Some 1
    end in
  prefix +:+ "-" +:+ Js.padStart (Js.String_ sequence) 3 "0".

(** [`INV-${Date.now()}`], the value of the [catch] block. *)
Definition fallback_number (c : Js.clock) : string :=
  "INV-" +:+ Js.String_ (Some (Js.Date_now c)).

(** The function body around the [await getOne(...)]: what it returns when
    the awaited call returns [result] ([inr]) or throws ([inl]). *)
Definition generateInvoiceNumber_with (c : Js.clock)
  (lookup : exn + query_result string) : string :=
  match lookup with
  | inr result => next_number (prefix c) result
  | inl _ => fallback_number c
  end.

(** [generateInvoiceNumber], with the [getOne] of [config/database.js]: the
    lookup goes through the pool, not through the connection of the open
    transaction. *)
Definition generateInvoiceNumber (e : env) (w : world) : string * world :=
  let p := prefix (now e) in
  let '(outcome, w1) :=
    pool_execute e LookupLastNumber (SelectLastInvoiceNumber (p +:+ "%"))
      (select_last_invoice_number p) w in
  (generateInvoiceNumber_with (now e) (inr (getOne outcome)), w1).

(** ** findById *)

Definition findById (e : env) (id : Z) (w : world) : option t * world :=
  let '(outcome, w1) :=
    pool_execute e FetchInvoice (SelectInvoiceById id)
      (select_invoice_by_id id) w in
  let invoiceResult := getOne outcome in
  match success invoiceResult, data invoiceResult with
  | true, Some invoiceData =>
      let '(outcome2, w2) :=
        pool_execute e FetchItems (SelectInvoiceItems id)
          (select_invoice_items id) w1 in
      let itemsResult := executeQuery outcome2 in
      let invoice := new invoiceData in
      match success itemsResult, data itemsResult with
      | true, Some rows => (Some (set_items invoice rows), w2)
      | _, _ => (Some invoice, w2)
      end
  | _, _ => (None, w1)
  end.

(** ** create *)

(** The three statements of one turn of the [for (const item of items)]
    loop, with their bound parameters. *)
Definition itemQuery (invoiceId : Z) (item : Sale.item) : statement :=
  InsertInvoiceItem invoiceId (Sale.medicine_id item) (Sale.quantity item)
    (Sale.unit_price item) (Sale.total_price item).

Definition stockQuery (item : Sale.item) : statement :=
  UpdateMedicineStock (Sale.quantity item) (Sale.medicine_id item).

Definition movementQuery (invoiceData : Sale.header)
  (invoiceNumber : string) (invoiceId : Z) (item : Sale.item) : statement :=
  InsertStockMovement (Sale.medicine_id item) (Sale.quantity item) invoiceId
    ("Sale via invoice " +:+ invoiceNumber) (Sale.pharmacist_id invoiceData).

(** The loop; [k] counts the items already handled. *)
Fixpoint insert_items (e : env) (invoiceData : Sale.header)
  (invoiceNumber : string) (invoiceId : Z) (k : nat)
  (items : list Sale.item) : M unit :=
  match items with
  | [] => ret tt
  | item :: rest =>
      _ <- connection_execute e (InsertItemRow k) (itemQuery invoiceId item) ;;
      _ <- connection_execute e (UpdateStock k) (stockQuery item) ;;
      _ <- connection_execute e (InsertMovementRow k)
             (movementQuery invoiceData invoiceNumber invoiceId item) ;;
      insert_items e invoiceData invoiceNumber invoiceId (S k) rest
  end.

(** The bound parameters of the invoice INSERT. *)
Definition invoice_values_of (e : env) (invoiceData : Sale.header)
  (invoiceNumber : string) : invoice_values :=
  {| v_invoice_number := invoiceNumber;
     v_customer_name := Sale.or_string (Sale.customer_name invoiceData) None;
     v_customer_mobile :=
       Sale.or_string (Sale.customer_mobile invoiceData) None;
     v_customer_address :=
       Sale.or_string (Sale.customer_address invoiceData) None;
     v_pharmacist_id := Sale.pharmacist_id invoiceData;
     v_total_amount := Sale.total_amount invoiceData;
     v_discount_amount := default 0 (Sale.discount_amount invoiceData);
     v_final_amount := Sale.final_amount invoiceData;
     v_payment_method :=
       default "cash"
         (Sale.or_string (Sale.payment_method invoiceData) None);
     v_invoice_date :=
       default (Js.toISODate (now e))
         (Sale.or_string (Sale.invoice_date invoiceData) None) |}.

(** The data-changing statements of one sale, in the order [create] sends
    them. *)
Definition sale_statements (e : env) (invoiceData : Sale.header)
  (invoiceNumber : string) (invoiceId : Z) (items : list Sale.item)
  : list statement :=
  InsertInvoice (invoice_values_of e invoiceData invoiceNumber)
  :: flat_map
       (fun item =>
          [ itemQuery invoiceId item;
            stockQuery item;
            movementQuery invoiceData invoiceNumber invoiceId item ])
       items.

(** The [try] block up to and including the commit; its value is
    [invoiceId]. *)
Definition create_transaction (e : env) (invoiceData : Sale.header)
  (items : list Sale.item) : M Z :=
  invoiceNumber <- (fun w =>
                      let '(n, w1) := generateInvoiceNumber e w in
                      (inr n, w1)) ;;
  invoiceId <- connection_execute e InsertInvoiceRow
                 (InsertInvoice
                    (invoice_values_of e invoiceData invoiceNumber)) ;;
  _ <- insert_items e invoiceData invoiceNumber invoiceId 0 items ;;
  _ <- commitTransaction e ;;
  ret invoiceId.

(** How an [async] call ends: it returns a value or its promise rejects. *)
Inductive outcome (A : Type) : Type :=
| Returned (a : A)
| Rejected (x : exn).
Arguments Returned {A} a.
Arguments Rejected {A} x.

(** A finished call: its outcome, the server state it leaves, and the
    statements it sent. *)
Record call (A : Type) : Type := {
  result : outcome A;
  final : db;
  issued : list statement
}.
Arguments result {A} _.
Arguments final {A} _.
Arguments issued {A} _.

Definition finish {A : Type} (o : outcome A) (w : world) : call A :=
  {| result := o; final := close_world w; issued := w_issued w |}.

(** [Invoice.create(invoiceData, items)].  [beginTransaction] is awaited
    before the [try]; the [catch] block awaits [rollbackTransaction].  The
    final [findById] stands in the [try] block, but it throws nothing: its
    own [catch] turns every failure into [null]. *)
Definition create (e : env) (d : db) (invoiceData : Sale.header)
  (items : list Sale.item) : call (option t) :=
  match beginTransaction e (open_world d) with
  | (inl x, w) => finish (Rejected x) w
  | (inr _, w) =>
      match create_transaction e invoiceData items w with
      | (inr invoiceId, w1) =>
          let '(invoice, w2) := findById e invoiceId w1 in
          finish (Returned invoice) w2
      | (inl _, w1) =>
          match rollbackTransaction e w1 with
          | (inl x, w2) => finish (Rejected x) w2
          | (inr _, w2) => finish (Returned None) w2
          end
      end
  end.

(** ** Read operations, given what the pool query did *)

(** [getAll]: the [try] block around [await executeQuery(...)], whose
    result is [awaited] ([inl] when the awaited call throws). *)
Definition getAll_with (awaited : exn + query_result (list invoice_data))
  : list t :=
  match awaited with
  | inr result =>
      match success result, data result with
      | true, Some rows => map new rows
      | _, _ => []
      end
  | inl _ => []
  end.

Definition getAll (outcome : string + list invoice_data) : list t :=
  getAll_with (inr (executeQuery outcome)).

(** [search] differs from [getAll] in its query only. *)
Definition search_with (awaited : exn + query_result (list invoice_data))
  : list t :=
  match awaited with
  | inr result =>
      match success result, data result with
      | true, Some rows => map new rows
      | _, _ => []
      end
  | inl _ => []
  end.

Definition search (outcome : string + list invoice_data) : list t :=
  search_with (inr (executeQuery outcome)).

(** The row of the statistics query: COUNT is a number, SUM and AVG are
    NULL over no rows.  Sums count hundredths, averages millionths. *)
Record stats_row : Type := {
  row_total_invoices : Z;
  row_total_sales : option Z;
  row_average_sale : option Z
}.

Record sales_stats : Type := {
  total_invoices : Z;
  total_sales : Z;
  average_sale : Z
}.

Definition no_sales : sales_stats :=
  {| total_invoices := 0; total_sales := 0; average_sale := 0 |}.

(** [parseFloat(x) || 0] on a decimal column: NULL parses to [NaN]. *)
Definition parseFloat_or_0 (x : option Z) : Z := default 0 x.

Definition getSalesStats_with (awaited : exn + query_result stats_row)
  : sales_stats :=
  match awaited with
  | inr result =>
      match success result, data result with
      | true, Some row =>
          {| total_invoices := row_total_invoices row;
             total_sales := parseFloat_or_0 (row_total_sales row);
             average_sale := parseFloat_or_0 (row_average_sale row) |}
      | _, _ => no_sales
      end
  | inl _ => no_sales
  end.

Definition getSalesStats (outcome : string + list stats_row) : sales_stats :=
  getSalesStats_with (inr (getOne outcome)).

(** ** findByInvoiceNumber *)

(** The rows of [SELECT i.*, u.full_name as pharmacist_name FROM invoices i
    LEFT JOIN users u ON i.pharmacist_id = u.id WHERE i.invoice_number = ?]. *)
Definition select_invoice_by_number (invoiceNumber : string) (t : tables)
  : list invoice_data :=
  map (join_pharmacist t)
    (List.filter (fun r => String.eqb (inv_invoice_number r) invoiceNumber)
       (invoices t)).

(** [findByInvoiceNumber], given what the pool did with its own query; the
    invoice is then fetched by [findById] from the id of the row. *)
Definition findByInvoiceNumber (e : env)
  (outcome : string + list invoice_data) (w : world) : option t * world :=
  let result := getOne outcome in
  match success result, data result with
  | true, Some row => findById e (inv_id (d_row row)) w
  | _, _ => (None, w)
  end.

(** ** The statistics queries *)

(** [query += text; params.push(v)] when [v] is truthy. *)
Definition and_if (v : Js.value) (text : string)
  (q : string * list Js.value) : string * list Js.value :=
  if Js.truthy v then (fst q +:+ text, snd q ++ [v]) else q.

(** The query text and the parameters that [getSalesStats] builds. *)
Definition getSalesStats_query (pharmacistId dateFrom dateTo : Js.value)
  : string * list Js.value :=
  let query := "
                SELECT 
                    COUNT(*) as total_invoices,
                    SUM(final_amount) as total_sales,
                    AVG(final_amount) as average_sale
                FROM invoices 
                WHERE 1=1
            " in
  and_if dateTo " AND invoice_date <= ?"
    (and_if dateFrom " AND invoice_date >= ?"
       (and_if pharmacistId " AND pharmacist_id = ?" (query, []))).

(** [getTodaySales]: both bounds are [toISOString().split('T')[0]]. *)
Definition getTodaySales_query (c : Js.clock) (pharmacistId : Js.value)
  : string * list Js.value :=
  let today := Js.Str (Js.toISODate c) in
  getSalesStats_query pharmacistId today today.

(** The query text and the parameters that [getSalesByDateRange] builds. *)
Definition getSalesByDateRange_query (dateFrom dateTo pharmacistId : Js.value)
  : string * list Js.value :=
  let query := "
                SELECT 
                    DATE(invoice_date) as sale_date,
                    COUNT(*) as total_invoices,
                    SUM(final_amount) as total_sales
                FROM invoices 
                WHERE invoice_date BETWEEN ? AND ?
            " in
  let '(query, params) :=
    and_if pharmacistId " AND pharmacist_id = ?" (query, [dateFrom; dateTo]) in
  (query +:+ " GROUP BY DATE(invoice_date) ORDER BY sale_date DESC", params).

End Invoice.

(* ===================================================================== *)
(** * models/Medicine.js                                                  *)
(* ===================================================================== *)

Module Medicine.
Import Db Database.

(** A row of [SELECT m.*, c.company_name FROM medicines m LEFT JOIN
    companies c ...]. *)
Record medicine_data : Type := {
  d_id : Z;
  d_row : medicine_row;
  d_company_name : option string
}.

(** A [Medicine] object. *)
Record t : Type := {
  id : Z;
  row : medicine_row;
  company_name : option string
}.

Definition new (medicineData : medicine_data) : t :=
  {| id := d_id medicineData;
     row := d_row medicineData;
     company_name := d_company_name medicineData |}.

Definition getAll_with (awaited : exn + query_result (list medicine_data))
  : list t :=
  match awaited with
  | inr result =>
      match success result, data result with
      | true, Some rows => map new rows
      | _, _ => []
      end
  | inl _ => []
  end.

Definition getAll (outcome : string + list medicine_data) : list t :=
  getAll_with (inr (executeQuery outcome)).

(** [updateStock(newQuantity)]: the one statement of the application that
    overwrites the stock with a value computed by the caller.  It runs on the
    pool, outside any transaction; the method returns [result.success]. *)
Definition updateStock (e_fails : bool) (m : t) (newQuantity : Z) (d : db)
  : bool * db * list statement :=
  let s := SetMedicineStock newQuantity (id m) in
  if e_fails then (false, d, [s])
  else
    match apply_statement s (committed d) (ids d) with
    | inr (tb, c, _) => (true, {| committed := tb; ids := c |}, [s])
    | inl _ => (false, d, [s])
    end.

Definition isLowStock (m : t) : bool :=
  quantity_in_stock (row m) <=? min_stock_level (row m).

(** ** The medicine queries on the tables *)

(** [LEFT JOIN companies c ON m.company_id = c.id] on one row. *)
Definition join_company (t : tables) (id : Z) (r : medicine_row)
  : medicine_data :=
  {| d_id := id;
     d_row := r;
     d_company_name :=
       match company_id r with
       | Some c => companies t !! c
       | None => None
       end |}.

(** [ORDER BY key ASC]: insertion sort, [le] comparing the keys.  Rows with
    equal keys come in an order the server is free to choose. *)
Fixpoint insert_sorted (le : medicine_data -> medicine_data -> bool)
  (r : medicine_data) (l : list medicine_data) : list medicine_data :=
  match l with
  | [] => [r]
  | x :: rest => if le r x then r :: l else x :: insert_sorted le r rest
  end.

Definition order_by (le : medicine_data -> medicine_data -> bool)
  (l : list medicine_data) : list medicine_data :=
  fold_right (insert_sorted le) [] l.

(** The joined rows of the table. *)
Definition joined (t : tables) : list medicine_data :=
  map (fun p => join_company t (fst p) (snd p)) (map_to_list (medicines t)).

(** The rows of the query of [getAll]: [WHERE m.is_active = 1 ORDER BY
    m.medicine_name ASC]; [name_le] is the order of the column's
    collation. *)
Definition select_all (name_le : string -> string -> bool) (t : tables)
  : list medicine_data :=
  order_by
    (fun a b => name_le (medicine_name (d_row a)) (medicine_name (d_row b)))
    (List.filter (fun r => is_active (d_row r)) (joined t)).

(** The rows of the query of [getLowStock]: [WHERE m.is_active = 1 AND
    m.quantity_in_stock <= m.min_stock_level ORDER BY m.quantity_in_stock
    ASC]. *)
Definition select_low_stock (t : tables) : list medicine_data :=
  order_by
    (fun a b => quantity_in_stock (d_row a) <=? quantity_in_stock (d_row b))
    (List.filter
       (fun r =>
          (is_active (d_row r)
           && (quantity_in_stock (d_row r) <=? min_stock_level (d_row r)))%bool)
       (joined t)).

(** The rows of the query of [findById]: [WHERE m.id = ? AND m.is_active =
    1]. *)
Definition select_by_id (id : Z) (t : tables) : list medicine_data :=
  match medicines t !! id with
  | Some r => if is_active r then [join_company t id r] else []
  | None => []
  end.

(** ** findById, getLowStock *)

Definition findById_with (awaited : exn + query_result medicine_data)
  : option t :=
  match awaited with
  | inr result =>
      match success result, data result with
      | true, Some medicineData => Some (new medicineData)
      | _, _ => None
      end
  | inl _ => None
  end.

Definition findById (outcome : string + list medicine_data) : option t :=
  findById_with (inr (getOne outcome)).

Definition getLowStock_with (awaited : exn + query_result (list medicine_data))
  : list t :=
  match awaited with
  | inr result =>
      match success result, data result with
      | true, Some rows => map new rows
      | _, _ => []
      end
  | inl _ => []
  end.

Definition getLowStock (outcome : string + list medicine_data) : list t :=
  getLowStock_with (inr (executeQuery outcome)).

(** ** deactivate *)

Definition set_active (b : bool) (m : medicine_row) : medicine_row :=
  {| medicine_name := medicine_name m;
     generic_name := generic_name m;
     company_id := company_id m;
     quantity_in_stock := quantity_in_stock m;
     min_stock_level := min_stock_level m;
     is_active := b |}.

(** What [UPDATE medicines SET is_active = 0 WHERE id = ?] does to the
    tables. *)
Definition deactivated (id : Z) (t : tables) : tables :=
  with_medicines t (alter (set_active false) id (medicines t)).

(** [deactivate()]: the soft delete.  The statement runs on the pool; the
    method returns [result.success]. *)
Definition deactivate (e_fails : bool) (m : t) (d : db) : bool * db :=
  if e_fails then (false, d)
  else (true, {| committed := deactivated (id m) (committed d);
                 ids := ids d |}).

(** ** update *)

(** The fields of [updateData] that [update] looks at. *)
Record update_data : Type := {
  u_medicine_name : Js.value;
  u_generic_name : Js.value;
  u_company_id : Js.value;
  u_medicine_type : Js.value;
  u_buying_price : Js.value;
  u_selling_price : Js.value;
  u_quantity_in_stock : Js.value;
  u_min_stock_level : Js.value;
  u_expiry_date : Js.value;
  u_batch_number : Js.value;
  u_description : Js.value
}.

(** [fields] and [values] after the eleven tests. *)
Definition update_fields (u : update_data)
  : list string * list Js.value :=
  let acc := ([], []) in
  let acc :=
    Js.push_if (Js.truthy (u_medicine_name u)) "medicine_name = ?"
      (u_medicine_name u) acc in
  let acc :=
    Js.push_if (Js.defined (u_generic_name u)) "generic_name = ?"
      (u_generic_name u) acc in
  let acc :=
    Js.push_if (Js.defined (u_company_id u)) "company_id = ?"
      (u_company_id u) acc in
  let acc :=
    Js.push_if (Js.truthy (u_medicine_type u)) "medicine_type = ?"
      (u_medicine_type u) acc in
  let acc :=
    Js.push_if (Js.defined (u_buying_price u)) "buying_price = ?"
      (u_buying_price u) acc in
  let acc :=
    Js.push_if (Js.defined (u_selling_price u)) "selling_price = ?"
      (u_selling_price u) acc in
  let acc :=
    Js.push_if (Js.defined (u_quantity_in_stock u)) "quantity_in_stock = ?"
      (u_quantity_in_stock u) acc in
  let acc :=
    Js.push_if (Js.defined (u_min_stock_level u)) "min_stock_level = ?"
      (u_min_stock_level u) acc in
  let acc :=
    Js.push_if (Js.defined (u_expiry_date u)) "expiry_date = ?"
      (u_expiry_date u) acc in
  let acc :=
    Js.push_if (Js.defined (u_batch_number u)) "batch_number = ?"
      (u_batch_number u) acc in
  Js.push_if (Js.defined (u_description u)) "description = ?"
    (u_description u) acc.

(** [update(updateData)], given what the pool does with the statement if one
    is sent: the returned value, and the statement sent with its
    parameters. *)
Definition update (m : t) (updateData : update_data)
  (outcome : string + list unit)
  : bool * option (string * list Js.value) :=
  let '(fields, values) := update_fields updateData in
  if Nat.eqb (List.length fields) 0 then (false, None)
  else
    let values := values ++ [Js.Num (id m)] in
    let query :=
      "UPDATE medicines SET " +:+ Js.join ", " fields +:+ " WHERE id = ?" in
    let result := executeQuery outcome in
    (success result, Some (query, values)).

End Medicine.

(* ===================================================================== *)
(** * models/User.js                                                      *)
(* ===================================================================== *)

Module User.
Import Db Database.

(** A [User] object, without the time stamps; a row of [SELECT * FROM
    users] has the same fields. *)
Record t : Type := {
  id : Z;
  full_name : string;
  email : string;
  mobile : string;
  role : string;
  address : option string;
  is_active : bool;
  password : string
}.

Definition new (userData : t) : t :=
  {| id := id userData;
     full_name := full_name userData;
     email := email userData;
     mobile := mobile userData;
     role := role userData;
     address := address userData;
     is_active := is_active userData;
     password := password userData |}.

(** [findById], given what the pool did with [SELECT * FROM users WHERE id
    = ? AND is_active = 1]. *)
Definition findById (outcome : string + list t) : option t :=
  let result := getOne outcome in
  match success result, data result with
  | true, Some row => Some (new row)
  | _, _ => None
  end.

(** [fields] and [values] after the four tests that come before the
    password. *)
Definition update_fields (updateData : Js.object)
  : list string * list Js.value :=
  let acc := ([], []) in
  let acc :=
    Js.push_if (Js.truthy (Js.get updateData "full_name")) "full_name = ?"
      (Js.get updateData "full_name") acc in
  let acc :=
    Js.push_if (Js.truthy (Js.get updateData "email")) "email = ?"
      (Js.get updateData "email") acc in
  let acc :=
    Js.push_if (Js.truthy (Js.get updateData "mobile")) "mobile = ?"
      (Js.get updateData "mobile") acc in
  Js.push_if (Js.truthy (Js.get updateData "address")) "address = ?"
    (Js.get updateData "address") acc.

(** [update(updateData)]: the returned value, and the statement sent with
    its parameters.  [hash] is [hashPassword] ([None] when bcrypt throws, in
    which case the [catch] block returns [false]); [outcome] is what the
    pool does with the statement. *)
Definition update (hash : Js.value -> option string) (user : t)
  (updateData : Js.object) (outcome : string + list unit)
  : bool * option (string * list Js.value) :=
  let acc := update_fields updateData in
  let hashed :=
    if Js.truthy (Js.get updateData "password") then
      match hash (Js.get updateData "password") with
      | Some hashedPassword =>
          Some (Js.push_if true "password = ?" (Js.Str hashedPassword) acc)
      | None => None
      end
    else Some acc in
  match hashed with
  | None => (false, None)
  | Some (fields, values) =>
      if Nat.eqb (List.length fields) 0 then (false, None)
      else
        let values := values ++ [Js.Num (id user)] in
        let query :=
          "UPDATE users SET " +:+ Js.join ", " fields +:+ " WHERE id = ?" in
        let result := executeQuery outcome in
        (success result, Some (query, values))
  end.

End User.

(* ===================================================================== *)
(** * middleware/auth.js                                                  *)
(* ===================================================================== *)

Module Auth.

(** [req.session]: the user object the login stored, if any. *)
Record session : Type := {
  user : option Js.object
}.

(** What a middleware does with the request: it calls [next()], or it
    redirects, after flashing [error_msg] or not. *)
Inductive action : Type :=
| Next
| Redirect (error_msg : option string) (location : string).

(** [req.session.user.role === r], false without a user. *)
Definition has_role (s : session) (r : string) : bool :=
  match user s with
  | Some u => Js.strict_eq (Js.get u "role") (Js.Str r)
  | None => false
  end.

Definition requireAuth (s : session) : action :=
  match user s with
  | Some _ => Next
  | None => Redirect (Some "Please log in to access this page") "/auth/login"
  end.

Definition requireAdmin (s : session) : action :=
  if has_role s "admin" then Next
  else
    Redirect (Some "Access denied. Admin privileges required.") "/auth/login".

Definition requirePharmacist (s : session) : action :=
  if has_role s "pharmacist" then Next
  else
    Redirect (Some "Access denied. Pharmacist privileges required.")
      "/auth/login".

Definition redirectIfAuthenticated (s : session) : action :=
  match user s with
  | Some u =>
      if Js.strict_eq (Js.get u "role") (Js.Str "admin")
      then Redirect None "/admin/dashboard"
      else if Js.strict_eq (Js.get u "role") (Js.Str "pharmacist")
      then Redirect None "/pharmacist/dashboard"
      else Next
  | None => Next
  end.

(** [currentPath] is [req.path]. *)
Definition checkRoleAndRedirect (s : session) (currentPath : string)
  : action :=
  match user s with
  | Some u =>
      let userRole := Js.get u "role" in
      if (Js.strict_eq userRole (Js.Str "admin")
          && Js.startsWith currentPath "/pharmacist")%bool
      then Redirect None "/admin/dashboard"
      else if (Js.strict_eq userRole (Js.Str "pharmacist")
               && Js.startsWith currentPath "/admin")%bool
      then Redirect None "/pharmacist/dashboard"
      else Next
  | None => Next
  end.

(** [res.locals] after [setTemplateVars]; the two flags as a template tests
    them. *)
Record locals : Type := {
  currentUser : option Js.object;
  isAdmin : bool;
  isPharmacist : bool;
  currentPath : string
}.

Definition setTemplateVars (s : session) (path : string) : locals :=
  {| currentUser := user s;
     isAdmin := has_role s "admin";
     isPharmacist := has_role s "pharmacist";
     currentPath := path |}.

End Auth.

(* ===================================================================== *)
(** * The application: what stands before a page                          *)
(* ===================================================================== *)

Module App.

(** The three pages the middleware redirects to. *)
Inductive page : Type := Login | AdminDashboard | PharmacistDashboard.

Definition path (p : page) : string :=
  match p with
  | Login => "/auth/login"
  | AdminDashboard => "/admin/dashboard"
  | PharmacistDashboard => "/pharmacist/dashboard"
  end.

(** The middleware of the router that serves the page: [GET /login] names
    [redirectIfAuthenticated]; the admin router starts with
    [router.use(requireAdmin)], the pharmacist router with
    [router.use(requirePharmacist)]. *)
Definition guard (p : page) : Auth.session -> Auth.action :=
  match p with
  | Login => Auth.redirectIfAuthenticated
  | AdminDashboard => Auth.requireAdmin
  | PharmacistDashboard => Auth.requirePharmacist
  end.

(** A GET of the page: [app.use(checkRoleAndRedirect)] comes before the
    routers. *)
Definition enter (p : page) (s : Auth.session) : Auth.action :=
  match Auth.checkRoleAndRedirect s (path p) with
  | Auth.Next => guard p s
  | Auth.Redirect error_msg location => Auth.Redirect error_msg location
  end.

(** [GET /]: the location it redirects to. *)
Definition home (s : Auth.session) : string :=
  match Auth.user s with
  | None => "/auth/login"
  | Some u =>
      if Js.strict_eq (Js.get u "role") (Js.Str "admin")
      then "/admin/dashboard"
      else if Js.strict_eq (Js.get u "role") (Js.Str "pharmacist")
      then "/pharmacist/dashboard"
      else "/auth/login"
  end.

End App.

(* ===================================================================== *)
(** * routes/pharmacist.js: POST /sales/invoice                           *)
(* ===================================================================== *)

Module Pharmacist.
Import Db Database.

(** [req.body] as the validators see it: [items] is [None] when the field is
    not an array, an amount is [None] when the field is not a float. *)
Record body : Type := {
  items : option (list Sale.item);
  total_amount : option money;
  final_amount : option money;
  customer_name : option string;
  customer_mobile : option string;
  customer_address : option string;
  discount_amount : option money;
  payment_method : option string;
  invoice_date : option string
}.

(** [res.status(..).json({...})] *)
Record response : Type := {
  status : Z;
  success : bool;
  message : string;
  invoice_id : option Z;
  invoice_number : option string
}.

(** [body("items").isArray({ min: 1 })] *)
Definition items_valid (b : body) : bool :=
  match items b with
  | Some l => Nat.leb 1 (List.length l)
  | None => false
  end.

(** [isFloat({ min: 0 })] *)
Definition amount_valid (a : option money) : bool :=
  match a with
  | Some x => 0 <=? x
  | None => false
  end.

(** The messages of [validationResult(req)], in the order of the chain. *)
Definition validationResult (b : body) : list string :=
  (if items_valid b then [] else ["At least one item is required"])
  ++ (if amount_valid (total_amount b) then []
      else ["Total amount must be a positive number"])
  ++ (if amount_valid (final_amount b) then []
      else ["Final amount must be a positive number"]).

(** [{ ...req.body, pharmacist_id: req.session.user.id }]; the defaults are
    never used, they stand for fields the validators have checked. *)
Definition invoiceData_of (b : body) (session_user_id : Z) : Sale.header :=
  {| Sale.customer_name := customer_name b;
     Sale.customer_mobile := customer_mobile b;
     Sale.customer_address := customer_address b;
     Sale.pharmacist_id := session_user_id;
     Sale.total_amount := default 0 (total_amount b);
     Sale.discount_amount := discount_amount b;
     Sale.final_amount := default 0 (final_amount b);
     Sale.payment_method := payment_method b;
     Sale.invoice_date := invoice_date b |}.

Definition reply (code : Z) (ok : bool) (msg : string) : response :=
  {| status := code; success := ok; message := msg;
     invoice_id := None; invoice_number := None |}.

(** The handler: the response, the server state it leaves and the
    statements it sent. *)
Definition post_sales_invoice (e : env) (d : db) (session_user_id : Z)
  (b : body) : response * db * list statement :=
  match validationResult b with
  | msg :: _ => (reply 400 false msg, d, [])
  | [] =>
      let c :=
        Invoice.create e d (invoiceData_of b session_user_id)
          (default [] (items b)) in
      match Invoice.result c with
      | Invoice.Returned (Some invoice) =>
          ({| status := 200; success := true;
              message := "Invoice created successfully";
              invoice_id := Some (Invoice.id invoice);
              invoice_number := Some (Invoice.invoice_number invoice) |},
           Invoice.final c, Invoice.issued c)
      | Invoice.Returned None =>
          (reply 500 false "Failed to create invoice",
           Invoice.final c, Invoice.issued c)
      | Invoice.Rejected _ =>
          (reply 500 false "Error creating invoice",
           Invoice.final c, Invoice.issued c)
      end
  end.

(** ** GET /invoices *)

(** [inv.pharmacist_id === pharmacistId] *)
Definition own (pharmacistId : Js.value) (inv : Invoice.t) : bool :=
  Js.strict_eq (Js.Num (Invoice.pharmacist_id inv)) pharmacistId.

(** The invoices the page lists.  [search] is [req.query.search]; [outcome]
    is what the pool did with the one query of the handler (that of
    [Invoice.search], or that of [Invoice.getAll(20)]). *)
Definition get_invoices (session_user : Js.object) (search : Js.value)
  (outcome : string + list invoice_data) : list Invoice.t :=
  let pharmacistId := Js.get session_user "id" in
  if Js.truthy search then
    let invoices := Invoice.search outcome in
    if negb (Js.strict_eq (Js.get session_user "role") (Js.Str "admin"))
    then List.filter (own pharmacistId) invoices
    else invoices
  else
    let allInvoices := Invoice.getAll outcome in
    List.filter (own pharmacistId) allInvoices.

(** ** GET /invoices/:id *)

(** The handler renders the invoice, or flashes [error_msg] and redirects. *)
Inductive shown : Type :=
| Rendered (invoice : Invoice.t)
| Refused (error_msg : string) (location : string).

(** [id] is the number the server reads from [req.params.id].  The amounts
    that the handler derives for the view are not part of the model. *)
Definition get_invoice (e : env) (session_user : Js.object) (id : Z)
  (w : world) : shown * world :=
  let '(invoice, w1) := Invoice.findById e id w in
  match invoice with
  | None => (Refused "Invoice not found" "/pharmacist/invoices", w1)
  | Some invoice =>
      if (negb (Js.strict_eq (Js.get session_user "role") (Js.Str "admin"))
          && negb (own (Js.get session_user "id") invoice))%bool
      then (Refused "Access denied" "/pharmacist/invoices", w1)
      else (Rendered invoice, w1)
  end.

(** ** POST /profile *)

(** [req.flash(key, msg)] *)
Record flash : Type := {
  flash_key : string;
  flash_msg : string
}.

(** The flash message and [req.session.user] after the handler; every path
    redirects to [/pharmacist/profile].  [errors] are the messages of
    [validationResult(req)], [found] is what the pool did with the query of
    [User.findById], [outcome] what it does with the UPDATE. *)
Definition post_profile (hash : Js.value -> option string)
  (session_user : Js.object) (b : Js.object) (errors : list string)
  (found : string + list User.t) (outcome : string + list unit)
  : flash * Js.object :=
  match errors with
  | msg :: _ =>
      ({| flash_key := "error_msg"; flash_msg := msg |}, session_user)
  | [] =>
      match User.findById found with
      | None =>
          ({| flash_key := "error_msg"; flash_msg := "User not found" |},
           session_user)
      | Some user =>
          let updated := fst (User.update hash user b outcome) in
          if updated then
            ({| flash_key := "success_msg";
                flash_msg := "Profile updated successfully" |},
             Js.spread session_user b)
          else
            ({| flash_key := "error_msg";
                flash_msg := "Failed to update profile" |},
             session_user)
      end
  end.

End Pharmacist.

(* ===================================================================== *)
(** * Several sales at once                                               *)
(* ===================================================================== *)

Module Concurrent.
Import Db Database.

(** The request handlers share nothing but the server.  The server runs the
    statements it receives one at a time, each on the rows as they are at
    that moment (InnoDB changes rows in place and keeps an undo log), so a
    run of two sales that both commit is a run of some merge of their
    statements that keeps the order within each sale. *)
Inductive interleaving {A : Type} : list A -> list A -> list A -> Prop :=
| interleaving_nil : interleaving [] [] []
| interleaving_left x l1 l2 l :
    interleaving l1 l2 l -> interleaving (x :: l1) l2 (x :: l)
| interleaving_right x l1 l2 l :
    interleaving l1 l2 l -> interleaving l1 (x :: l2) (x :: l).

End Concurrent.

(* ===================================================================== *)
(** * The numbering algorithm in the words of the specification           *)
(* ===================================================================== *)

Module Spec.
Import Db Database.

(** The greatest string of a list in the lexicographic order. *)
Definition lexicographic_max (l : list string) : option string :=
  fold_left
    (fun best s =>
       match best with
       | None => Some s
       | Some b => if String.ltb b s then Some s else Some b
       end)
    l None.

(** "Look up the highest existing invoice number matching today's date
    prefix (lexicographic max ...); parse its numeric suffix; increment; on
    absence of any match, start at 1", printed as [INV-YYYYMMDD-NNN]. *)
Definition generateInvoiceNumber (c : Js.clock) (t : tables) : string :=
  let p := Invoice.prefix c in
  let matching :=
    List.filter (like_prefix p) (map inv_invoice_number (invoices t)) in
  let sequence : Js.number :=
    match lexicographic_max matching with
    | Some highest => Js.plus (Js.parseInt (Js.pop (Js.split "-" highest))) 1
    | None => Some 1
    end in
  p +:+ "-" +:+ Js.padStart (Js.String_ sequence) 3 "0".

End Spec.

(* ===================================================================== *)
(** * Notions used to state the properties                                *)
(* ===================================================================== *)

Module Props.
Import Db Database.

(** The server hands out fresh ids: every stored id, and every invoice id a
    line item or a sale movement refers to, is below the AUTO_INCREMENT
    counter of its table. *)
Record wf (d : db) : Prop := {
  wf_invoices :
    Forall (fun r => inv_id r < next_invoice_id (ids d))
      (invoices (committed d));
  wf_items :
    Forall (fun r => item_invoice_id r < next_invoice_id (ids d))
      (invoice_items (committed d));
  wf_movements :
    Forall
      (fun r =>
         forall ref, mov_reference_id r = Some ref ->
                     ref < next_invoice_id (ids d))
      (stock_movements (committed d))
}.

(** The transaction opens: a connection is obtained and START TRANSACTION
    succeeds. *)
Definition opens (e : env) : bool :=
  (negb (fails e GetConnection) && negb (fails e BeginTransaction))%bool.

(** The round trips of the transaction of a sale of [n] line items, from the
    invoice insert to the commit. *)
Definition item_steps (k n : nat) : list step :=
  flat_map (fun j => [InsertItemRow j; UpdateStock j; InsertMovementRow j])
    (seq k n).

Definition transaction_steps (n : nat) : list step :=
  InsertInvoiceRow :: item_steps 0 n ++ [Commit].

(** The environment fails none of the given round trips. *)
Definition spares (e : env) (l : list step) : bool :=
  forallb (fun st => negb (fails e st)) l.

(** The invoice number a call of [create] generates on server state [d]. *)
Definition generated_number (e : env) (d : db) : string :=
  fst (Invoice.generateInvoiceNumber e (open_world d)).

(** The statements of the transaction of [create] on server state [d]. *)
Definition transaction_statements (e : env) (d : db)
  (invoiceData : Sale.header) (items : list Sale.item) : list statement :=
  Invoice.sale_statements e invoiceData (generated_number e d)
    (next_invoice_id (ids d)) items.

(** A stock movement of type [out], reference type [sale], for medicine [m]
    and invoice [invoice]. *)
Definition sale_movement_of (m invoice : Z) (r : stock_movement_row) : bool :=
  match mov_movement_type r, mov_reference_type r, mov_reference_id r with
  | Out, Sale, Some ref => ((mov_medicine_id r =? m) && (ref =? invoice))%bool
  | _, _, _ => false
  end.

(** A stored line item holds what the request's item says. *)
Definition line_of (invoice : Z) (r : invoice_item_row) (i : Sale.item)
  : Prop :=
  item_invoice_id r = invoice
  /\ item_medicine_id r = Sale.medicine_id i
  /\ item_quantity r = Sale.quantity i
  /\ item_unit_price r = Sale.unit_price i
  /\ item_total_price r = Sale.total_price i.

(** The rows the statements of a list insert, given the counter values at
    its start. *)
Fixpoint inserted_invoices (l : list statement) (next : Z)
  : list invoice_row :=
  match l with
  | [] => []
  | InsertInvoice v :: rest =>
      invoice_row_of next v :: inserted_invoices rest (next + 1)
  | _ :: rest => inserted_invoices rest next
  end.

Fixpoint inserted_items (l : list statement) (next : Z)
  : list invoice_item_row :=
  match l with
  | [] => []
  | InsertInvoiceItem invoice_id medicine_id quantity unit_price total_price
    :: rest =>
      {| item_id := next;
         item_invoice_id := invoice_id;
         item_medicine_id := medicine_id;
         item_quantity := quantity;
         item_unit_price := unit_price;
         item_total_price := total_price |}
      :: inserted_items rest (next + 1)
  | _ :: rest => inserted_items rest next
  end.

Fixpoint inserted_movements (l : list statement) (next : Z)
  : list stock_movement_row :=
  match l with
  | [] => []
  | InsertStockMovement medicine_id quantity reference_id notes created_by
    :: rest =>
      {| mov_id := next;
         mov_medicine_id := medicine_id;
         mov_movement_type := Out;
         mov_quantity := quantity;
         mov_reference_type := Sale;
         mov_reference_id := Some reference_id;
         mov_notes := Some notes;
         mov_created_by := created_by |}
      :: inserted_movements rest (next + 1)
  | _ :: rest => inserted_movements rest next
  end.

(** The effect of a statement list on everything but the stock. *)
Definition frame (l : list statement) (t : tables) (c : counters)
  (t' : tables) (c' : counters) : Prop :=
  users t' = users t
  /\ companies t' = companies t
  /\ invoices t' = invoices t ++ inserted_invoices l (next_invoice_id c)
  /\ invoice_items t' = invoice_items t ++ inserted_items l (next_item_id c)
  /\ stock_movements t'
     = stock_movements t ++ inserted_movements l (next_movement_id c)
  /\ next_invoice_id c'
     = next_invoice_id c + Z.of_nat (length (inserted_invoices l 0))
  /\ next_item_id c'
     = next_item_id c + Z.of_nat (length (inserted_items l 0))
  /\ next_movement_id c'
     = next_movement_id c + Z.of_nat (length (inserted_movements l 0)).

(** What [findById] returns when the committed tables are [t]. *)
Definition refetch (e : env) (id : Z) (t : tables) : option Invoice.t :=
  fst (Invoice.findById e id
         {| w_committed := t; w_working := t;
            w_ids := {| next_invoice_id := 0; next_item_id := 0;
                        next_movement_id := 0 |};
            w_issued := [] |}).

(** Nothing stops the call: the transaction opens, no round trip up to the
    first read of the final [findById] fails, and no statement of the
    transaction violates a constraint. *)
Definition goes_through (e : env) (d : db) (invoiceData : Sale.header)
  (items : list Sale.item) : Prop :=
  opens e = true
  /\ spares e (transaction_steps (length items)) = true
  /\ fails e FetchInvoice = false
  /\ exists t' c',
      run (transaction_statements e d invoiceData items)
        (committed d) (ids d) = inr (t', c').

(** No statement sent so far overwrites a stock value. *)
Definition relative_only (w : world) : Prop :=
  Forall (fun s => overwrites_stock s = false) (w_issued w).

(** The AUTO_INCREMENT counters only grow. *)
Definition ids_le (c c' : counters) : Prop :=
  next_invoice_id c <= next_invoice_id c'
  /\ next_item_id c <= next_item_id c'
  /\ next_movement_id c <= next_movement_id c'.

(** From [w] to [w'] the counters have not gone back and no statement
    overwriting a stock value has been sent. *)
Definition steady (w w' : world) : Prop :=
  ids_le (w_ids w) (w_ids w') /\ (relative_only w -> relative_only w').

(** A computation that keeps the world steady, however it ends. *)
Definition keeps_steady {A : Type} (m : M A) : Prop :=
  forall w r w', m w = (r, w') -> steady w w'.

(** [connection.execute] on each statement of a list in turn. *)
Fixpoint execute_all (e : env) (l : list (step * statement)) : M unit :=
  match l with
  | [] => ret tt
  | (st, s) :: rest =>
      _ <- connection_execute e st s ;; execute_all e rest
  end.

(** The statements of the item loop of [create]. *)
Definition loop_statements (invoiceData : Sale.header)
  (invoiceNumber : string) (invoiceId : Z) (items : list Sale.item)
  : list statement :=
  flat_map
    (fun item =>
       [ Invoice.itemQuery invoiceId item;
         Invoice.stockQuery item;
         Invoice.movementQuery invoiceData invoiceNumber invoiceId item ])
    items.

(** What a list of statements takes from the stock of medicine [m]. *)
Definition stock_taken (m : Z) (l : list statement) : Z :=
  fold_right Z.add 0 (map (stock_delta m) l).

(** ** The stock ledger *)

(** A movement of type [out] for medicine [m]. *)
Definition out_of (m : Z) (r : stock_movement_row) : bool :=
  match mov_movement_type r with
  | Out => mov_medicine_id r =? m
  | _ => false
  end.

(** The units of medicine [m] that the movements of type [out] record. *)
Definition moved_out (m : Z) (t : tables) : Z :=
  fold_right Z.add 0
    (map mov_quantity (List.filter (out_of m) (stock_movements t))).

(** The stock on the shelf plus the stock recorded as gone out. *)
Definition balance (m : Z) (t : tables) : option Z :=
  (fun q => q + moved_out m t) <$> stock_of m t.

(** A call of [create]: its environment and its arguments. *)
Record sale_call : Type := {
  call_env : env;
  call_data : Sale.header;
  call_items : list Sale.item
}.

(** The server state after a list of calls, one after the other. *)
Definition after_calls (l : list sale_call) (d : db) : db :=
  fold_left
    (fun d c =>
       Invoice.final
         (Invoice.create (call_env c) d (call_data c) (call_items c)))
    l d.

(** ** Notions for the other properties *)

(** The occurrences of a character in a string. *)
Fixpoint count_char (c : ascii) (s : string) : nat :=
  match s with
  | EmptyString => O
  | String x r => ((if Ascii.eqb x c then 1 else 0) + count_char c r)%nat
  end.

(** A call of [create] with its final server state changed by [f]. *)
Definition map_final {A : Type} (f : db -> db) (c : Invoice.call A)
  : Invoice.call A :=
  {| Invoice.result := Invoice.result c;
     Invoice.final := f (Invoice.final c);
     Invoice.issued := Invoice.issued c |}.

(** The server state with medicine [m] deactivated. *)
Definition deactivated_db (m : Z) (d : db) : db :=
  {| committed := Medicine.deactivated m (committed d); ids := ids d |}.

(** What a read through the pool yields on server state [d]. *)
Definition read {A : Type} (f : world -> A * world) (d : db) : A :=
  fst (f (open_world d)).

(** Medicine [m] deactivated in the committed tables and in those of the
    open transaction. *)
Definition deactivated_world (m : Z) (w : world) : world :=
  {| w_committed := Medicine.deactivated m (w_committed w);
     w_working := Medicine.deactivated m (w_working w);
     w_ids := w_ids w;
     w_issued := w_issued w |}.

(** A computation that does not tell whether medicine [m] is active: run
    with [m] deactivated, it yields the same value and the same state with
    [m] deactivated. *)
Definition blind (m : Z) {A : Type} (f : world -> A * world) : Prop :=
  forall w,
    f (deactivated_world m w) = (fst (f w), deactivated_world m (snd (f w))).

(** The two arrays of a statement under construction go together: every
    text pushed holds one placeholder, and as many values as texts have been
    pushed. *)
Definition paired (acc : list string * list Js.value) : Prop :=
  Forall (fun text => count_char "?" text = 1%nat) (fst acc)
  /\ length (fst acc) = length (snd acc).

(** The assignments that [User.update] can put into its statement. *)
Definition updatable : list string :=
  [ "full_name = ?"; "email = ?"; "mobile = ?"; "address = ?";
    "password = ?" ].

(** What a call of [create] may do to the row of a medicine: change its
    stock by [k]. *)
Definition restocked (k : Z) (r : medicine_row) : medicine_row :=
  set_quantity (quantity_in_stock r - k) r.

(** What a middleware does is harmless for session [s]: it calls [next()],
    or it redirects to the login page or to a dashboard, and a GET of that
    page is served at once or after one more redirect of the same kind. *)
Definition settles (s : Auth.session) (a : Auth.action) : Prop :=
  a = Auth.Next
  \/ exists error_msg q,
      a = Auth.Redirect error_msg (App.path q)
      /\ (App.enter q s = Auth.Next
          \/ exists error_msg' q',
              App.enter q s = Auth.Redirect error_msg' (App.path q')
              /\ App.enter q' s = Auth.Next).

End Props.

(* ===================================================================== *)
(** * Two calls of [create] under way at once                             *)
(* ===================================================================== *)

Module Parallel.
Import Db Database Props.

(** The two calls. *)
Inductive session : Type := First | Second.

Definition same (a b : session) : bool :=
  match a, b with
  | First, First | Second, Second => true
  | _, _ => false
  end.

(** What a statement of an open transaction has done to the rows. *)
Inductive change : Type :=
| NewInvoice (r : invoice_row)
| NewItem (r : invoice_item_row)
| NewMovement (r : stock_movement_row)
| LessStock (quantity medicine_id : Z)
| StockSet (newQuantity medicine_id : Z).

Definition redo (t : tables) (x : change) : tables :=
  match x with
  | NewInvoice r => with_invoices t (invoices t ++ [r])
  | NewItem r => with_invoice_items t (invoice_items t ++ [r])
  | NewMovement r => with_stock_movements t (stock_movements t ++ [r])
  | LessStock quantity medicine_id =>
      with_medicines t
        (alter (decrement_stock quantity) medicine_id (medicines t))
  | StockSet newQuantity medicine_id =>
      with_medicines t
        (alter (set_quantity newQuantity) medicine_id (medicines t))
  end.

(** The changes of a statement that the server accepts when its counters
    are [c]: what [apply_statement] does to the tables. *)
Definition changes_of (s : statement) (c : counters) : list change :=
  match s with
  | InsertInvoice v => [NewInvoice (invoice_row_of (next_invoice_id c) v)]
  | InsertInvoiceItem invoice_id medicine_id quantity unit_price total_price =>
      [NewItem {| item_id := next_item_id c;
                  item_invoice_id := invoice_id;
                  item_medicine_id := medicine_id;
                  item_quantity := quantity;
                  item_unit_price := unit_price;
                  item_total_price := total_price |}]
  | UpdateMedicineStock quantity medicine_id => [LessStock quantity medicine_id]
  | SetMedicineStock newQuantity medicine_id =>
      [StockSet newQuantity medicine_id]
  | InsertStockMovement medicine_id quantity reference_id notes created_by =>
      [NewMovement {| mov_id := next_movement_id c;
                      mov_medicine_id := medicine_id;
                      mov_movement_type := Out;
                      mov_quantity := quantity;
                      mov_reference_type := Sale;
                      mov_reference_id := Some reference_id;
                      mov_notes := Some notes;
                      mov_created_by := created_by |}]
  | _ => []
  end.

(** The server between two round trips: the committed rows, the counters,
    and the changes of the open transactions in the order they were made. *)
Record server : Type := {
  stored : tables;
  next_ids : counters;
  pending : list (session * change)
}.

Definition server_of (d : db) : server :=
  {| stored := committed d; next_ids := ids d; pending := [] |}.

Definition db_of (sv : server) : db :=
  {| committed := stored sv; ids := next_ids sv |}.

(** The changes of the open transaction of one call. *)
Definition changes_by (who : session) (sv : server) : list change :=
  map snd (List.filter (fun p => same (fst p) who) (pending sv)).

Definition without (who : session) (sv : server) : list (session * change) :=
  List.filter (fun p => negb (same (fst p) who)) (pending sv).

(** InnoDB changes rows in place: a statement of a transaction runs on the
    rows with the changes of every open transaction, and its constraints
    are checked there.  (Where the server would let the statement wait for
    a lock, the statement takes its turn here when the lock is granted.) *)
Definition in_place (sv : server) : tables :=
  fold_left redo (map snd (pending sv)) (stored sv).

(** [connection.execute(query, params)] by call [who].  A failure that
    the environment injects stands for whatever is no constraint of the
    schema: a lost connection, a deadlock, a lock wait that times out. *)
Definition execute (e : env) (st : step) (who : session) (s : statement)
  (sv : server) : exn + (server * Z) :=
  if fails e st then inl StorageFailure
  else
    match apply_statement s (in_place sv) (next_ids sv) with
    | inl x => inl x
    | inr (_, c, id) =>
        inr ({| stored := stored sv;
                next_ids := c;
                pending :=
                  pending sv ++ map (pair who) (changes_of s (next_ids sv)) |},
             id)
    end.

(** COMMIT: the changes of the transaction become committed rows. *)
Definition commit (who : session) (sv : server) : server :=
  {| stored := fold_left redo (changes_by who sv) (stored sv);
     next_ids := next_ids sv;
     pending := without who sv |}.

(** ROLLBACK: the changes of the transaction are dropped. *)
Definition rollback (who : session) (sv : server) : server :=
  {| stored := stored sv;
     next_ids := next_ids sv;
     pending := without who sv |}.

(** A query through the pool: it sees the committed rows. *)
Definition pool_read {R : Type} (e : env) (st : step)
  (rows : tables -> list R) (sv : server) : string + list R :=
  if fails e st then inl (error_message e) else inr (rows (stored sv)).

(** Where a call of [create] stands: the [await] it is at, with the local
    variables that are set. *)
Inductive stage : Type :=
| Opening                       (* await beginTransaction() *)
| Numbering                     (* await this.generateInvoiceNumber() *)
| Heading (invoiceNumber : string)
                                (* await connection.execute(invoiceQuery) *)
| InTransaction (invoiceId : Z) (todo : list (step * statement))
                                (* the statements of the loop that are
                                   left, then await commitTransaction() *)
| Fetching (invoiceId : Z)      (* findById: await getOne(...) *)
| FetchingItems (invoiceId : Z) (invoiceData : invoice_data)
                                (* findById: await executeQuery(...) *)
| Recovering                    (* catch: await rollbackTransaction() *)
| Over (o : Invoice.outcome (option Invoice.t)).

(** A call under way: its stage and the statements it has sent. *)
Record thread : Type := {
  at_stage : stage;
  sent : list statement
}.

Definition start : thread := {| at_stage := Opening; sent := [] |}.

(** The call has sent [s] and stands at [next]. *)
Definition moved (next : stage) (s : statement) (th : thread) : thread :=
  {| at_stage := next; sent := sent th ++ [s] |}.

(** The round trips of the loop [for (const item of items)], in order;
    [k] counts the items before. *)
Fixpoint loop_round_trips (invoiceData : Sale.header)
  (invoiceNumber : string) (invoiceId : Z) (k : nat)
  (items : list Sale.item) : list (step * statement) :=
  match items with
  | [] => []
  | item :: rest =>
      (InsertItemRow k, Invoice.itemQuery invoiceId item)
      :: (UpdateStock k, Invoice.stockQuery item)
      :: (InsertMovementRow k,
          Invoice.movementQuery invoiceData invoiceNumber invoiceId item)
      :: loop_round_trips invoiceData invoiceNumber invoiceId (S k) rest
  end.

(** One round trip of [Invoice.create(invoiceData, items)], from one
    [await] to the next. *)
Definition step (e : env) (invoiceData : Sale.header)
  (items : list Sale.item) (who : session) (th : thread) (sv : server)
  : thread * server :=
  match at_stage th with
  | Opening =>
      if fails e GetConnection
      then ({| at_stage := Over (Invoice.Rejected StorageFailure);
               sent := sent th |}, sv)
      else if fails e BeginTransaction
      then (moved (Over (Invoice.Rejected StorageFailure))
              START_TRANSACTION th, sv)
      else (moved Numbering START_TRANSACTION th, sv)
  | Numbering =>
      let p := Invoice.prefix (now e) in
      let outcome :=
        pool_read e LookupLastNumber (select_last_invoice_number p) sv in
      (moved
         (Heading
            (Invoice.generateInvoiceNumber_with (now e)
               (inr (getOne outcome))))
         (SelectLastInvoiceNumber (p +:+ "%")) th, sv)
  | Heading invoiceNumber =>
      let s :=
        InsertInvoice (Invoice.invoice_values_of e invoiceData invoiceNumber)
      in
      match execute e InsertInvoiceRow who s sv with
      | inl _ => (moved Recovering s th, sv)
      | inr (sv', invoiceId) =>
          (moved
             (InTransaction invoiceId
                (loop_round_trips invoiceData invoiceNumber invoiceId 0
                   items))
             s th, sv')
      end
  | InTransaction invoiceId ((st, s) :: rest) =>
      match execute e st who s sv with
      | inl _ => (moved Recovering s th, sv)
      | inr (sv', _) => (moved (InTransaction invoiceId rest) s th, sv')
      end
  | InTransaction invoiceId [] =>
      if fails e Commit then (moved Recovering COMMIT th, sv)
      else (moved (Fetching invoiceId) COMMIT th, commit who sv)
  | Fetching id =>
      let invoiceResult :=
        getOne (pool_read e FetchInvoice (select_invoice_by_id id) sv) in
      match success invoiceResult, data invoiceResult with
      | true, Some invoiceData =>
          (moved (FetchingItems id invoiceData) (SelectInvoiceById id) th, sv)
      | _, _ =>
          (moved (Over (Invoice.Returned None)) (SelectInvoiceById id) th, sv)
      end
  | FetchingItems id invoiceData =>
      let itemsResult :=
        executeQuery (pool_read e FetchItems (select_invoice_items id) sv) in
      let invoice := Invoice.new invoiceData in
      match success itemsResult, data itemsResult with
      | true, Some rows =>
          (moved (Over (Invoice.Returned
                          (Some (Invoice.set_items invoice rows))))
             (SelectInvoiceItems id) th, sv)
      | _, _ =>
          (moved (Over (Invoice.Returned (Some invoice)))
             (SelectInvoiceItems id) th, sv)
      end
  | Recovering =>
      if fails e Rollback
      then (moved (Over (Invoice.Rejected StorageFailure)) ROLLBACK th, sv)
      else (moved (Over (Invoice.Returned None)) ROLLBACK th,
            rollback who sv)
  | Over _ => (th, sv)
  end.

(** A call that runs alone for [n] round trips. *)
Fixpoint alone (n : nat) (e : env) (invoiceData : Sale.header)
  (items : list Sale.item) (th : thread) (sv : server) : thread * server :=
  match n with
  | O => (th, sv)
  | S n' =>
      let '(th', sv') := step e invoiceData items First th sv in
      alone n' e invoiceData items th' sv'
  end.

(** The round trips of a call that nothing stops. *)
Definition round_trips (items : list Sale.item) : nat :=
  (3 * length items + 6)%nat.

(** Two calls and the server. *)
Record system : Type := {
  first : thread;
  second : thread;
  shared : server
}.

Definition begin (d : db) : system :=
  {| first := start; second := start; shared := server_of d |}.

(** The call whose turn it is makes one round trip. *)
Definition turn (a b : sale_call) (x : system) (who : session) : system :=
  match who with
  | First =>
      let '(th, sv) :=
        step (call_env a) (call_data a) (call_items a) First
          (first x) (shared x) in
      {| first := th; second := second x; shared := sv |}
  | Second =>
      let '(th, sv) :=
        step (call_env b) (call_data b) (call_items b) Second
          (second x) (shared x) in
      {| first := first x; second := th; shared := sv |}
  end.

(** The two calls under a schedule: who makes the next round trip. *)
Definition run_both (a b : sale_call) (schedule : list session) (d : db)
  : system :=
  fold_left (turn a b) schedule (begin d).

(** The round trips the schedule gives to a call. *)
Definition turns_of (who : session) (schedule : list session) : nat :=
  length (List.filter (same who) schedule).

Definition is_commit (s : statement) : bool :=
  match s with
  | COMMIT => true
  | _ => false
  end.

(** The transaction of the call is committed: COMMIT was sent and the round
    trip did not fail. *)
Definition has_committed (c : sale_call) (th : thread) : bool :=
  (existsb is_commit (sent th) && negb (fails (call_env c) Commit))%bool.

(** What the changes take from the stock of medicine [m]. *)
Definition taken (m : Z) (l : list change) : Z :=
  fold_right Z.add 0
    (map (fun x =>
            match x with
            | LessStock quantity medicine_id =>
                if medicine_id =? m then quantity else 0
            | _ => 0
            end) l).

Definition sets_stock (x : change) : bool :=
  match x with
  | StockSet _ _ => true
  | _ => false
  end.

(** Every open change is of the first call. *)
Definition alone_only (sv : server) : Prop :=
  Forall (fun p => same (fst p) First = true) (pending sv).

(** The state of a call alone on the server, as [create] threads it. *)
Definition sim (w : world) (th : thread) (sv : server) : Prop :=
  w_committed w = stored sv
  /\ w_working w = in_place sv
  /\ w_ids w = next_ids sv
  /\ w_issued w = sent th
  /\ alone_only sv.

(** The units of medicine [m] that the call sells. *)
Definition sold (m : Z) (c : sale_call) : Z :=
  Sale.quantity_sold m (call_items c).

(** The stock that a call has taken so far is accounted for.  Before its
    transaction has changed a row, the call has sent no COMMIT and holds no
    change.  In the loop, what its changes have taken and what the
    statements left will take make up what it sells, no change or
    statement overwrites a stock value, and no statement left is COMMIT.
    Once it fetches the invoice, and when it has returned one, its
    transaction is committed. *)
Definition accounted (m : Z) (c : sale_call) (th : thread)
  (mine : list change) : Prop :=
  match at_stage th with
  | Opening | Numbering | Heading _ =>
      existsb is_commit (sent th) = false /\ mine = []
  | InTransaction _ todo =>
      existsb is_commit (sent th) = false
      /\ forallb (fun x => negb (sets_stock x)) mine = true
      /\ Forall (fun s => overwrites_stock s = false /\ is_commit s = false)
           (map snd todo)
      /\ taken m mine + stock_taken m (map snd todo) = sold m c
  | Fetching _ | FetchingItems _ _ => has_committed c th = true
  | Over (Invoice.Returned (Some _)) => has_committed c th = true
  | _ => True
  end.

(** What the committed sales have taken from the stock [q] of [m]. *)
Definition stock_after (a b : sale_call) (m q : Z) (x : system) : Z :=
  q - (if has_committed a (first x) then sold m a else 0)
    - (if has_committed b (second x) then sold m b else 0).

(** No statement of the list overwrites a stock value. *)
Definition relative (l : list statement) : Prop :=
  Forall (fun s => overwrites_stock s = false) l.

(** The books of the two calls balance. *)
Definition balanced (a b : sale_call) (m q : Z) (x : system) : Prop :=
  accounted m a (first x) (changes_by First (shared x))
  /\ accounted m b (second x) (changes_by Second (shared x))
  /\ stock_of m (stored (shared x)) = Some (stock_after a b m q x)
  /\ relative (sent (first x))
  /\ relative (sent (second x)).

(** The call has inserted its invoice row, or it has given up. *)
Definition inserted (st : stage) : bool :=
  match st with
  | Opening | Numbering | Heading _ => false
  | _ => true
  end.

(** A statement of the loop that the server accepts whenever the invoice
    [id] is there: its medicine and its user are rows of server state
    [d]. *)
Definition passable (d : db) (id : Z) (s : statement) : Prop :=
  match s with
  | InsertInvoiceItem invoice_id medicine_id _ _ _ =>
      invoice_id = id /\ medicines (committed d) !! medicine_id <> None
  | UpdateMedicineStock _ _ => True
  | InsertStockMovement medicine_id _ _ _ created_by =>
      medicines (committed d) !! medicine_id <> None
      /\ users (committed d) !! created_by <> None
  | _ => False
  end.

(** The invoice rows among a list of changes. *)
Definition new_invoices (l : list change) : list invoice_row :=
  flat_map (fun x => match x with NewInvoice r => [r] | _ => [] end) l.

(** The server since state [d], when [number who] is the invoice number
    of call [who] and [ins who] tells whether the call has inserted its
    invoice: the users and the medicines are those of [d]; the invoices
    committed since, and those of the open transactions, carry the numbers
    of the calls that have inserted theirs. *)
Definition served (d : db) (number : session -> string)
  (ins : session -> bool) (sv : server) : Prop :=
  users (stored sv) = users (committed d)
  /\ (forall k, medicines (stored sv) !! k = None
                <-> medicines (committed d) !! k = None)
  /\ (exists extra,
         invoices (stored sv) = invoices (committed d) ++ extra
         /\ Forall (fun r => exists who,
                        inv_invoice_number r = number who
                        /\ ins who = true) extra)
  /\ Forall (fun p => forall r,
                 snd p = NewInvoice r ->
                 inv_invoice_number r = number (fst p)
                 /\ ins (fst p) = true)
       (pending sv).

(** Nothing has stopped the call: it holds the number [number]; in the
    loop its invoice is among the changes of its transaction and the
    statements left are passable; when it fetches the invoice, the invoice
    is committed; it has not been sent to the [catch] block, and when it is
    over it has returned an invoice. *)
Definition on_course (d : db) (number : string) (who : session)
  (th : thread) (sv : server) : Prop :=
  match at_stage th with
  | Opening | Numbering | FetchingItems _ _ => True
  | Heading invoiceNumber => invoiceNumber = number
  | InTransaction id todo =>
      (exists r, In (who, NewInvoice r) (pending sv) /\ inv_id r = id)
      /\ Forall (passable d id) (map snd todo)
  | Fetching id => exists r, In r (invoices (stored sv)) /\ inv_id r = id
  | Recovering => False
  | Over o => exists invoice, o = Invoice.Returned (Some invoice)
  end.

(** The round trips a call on course has before it. *)
Definition round_trips_left (items : list Sale.item) (st : stage) : nat :=
  match st with
  | Opening => 3 * length items + 6
  | Numbering => 3 * length items + 5
  | Heading _ => 3 * length items + 4
  | InTransaction _ todo => length todo + 3
  | Fetching _ => 2
  | FetchingItems _ _ => 1
  | Recovering => 1
  | Over _ => 0
  end.

(** Nothing on the side of the environment or of server state [d] stops
    the call: no round trip fails, the pharmacist and the medicines of the
    items are rows of [d], and the number generated on [d] is free. *)
Definition unhindered (c : sale_call) (d : db) : Prop :=
  (forall st, fails (call_env c) st = false)
  /\ users (committed d) !! Sale.pharmacist_id (call_data c) <> None
  /\ Forall (fun i => medicines (committed d) !! Sale.medicine_id i <> None)
       (call_items c)
  /\ number_taken (generated_number (call_env c) d) (committed d) = false.

(** The invoice number of call [c'] does not fall under the day of call
    [c]. *)
Definition other_day (c c' : sale_call) (d : db) : Prop :=
  like_prefix (Invoice.prefix (now (call_env c)))
    (generated_number (call_env c') d) = false.

(** The invoice numbers of the two calls on server state [d]. *)
Definition number_of (a b : sale_call) (d : db) (who : session) : string :=
  match who with
  | First => generated_number (call_env a) d
  | Second => generated_number (call_env b) d
  end.

(** Which of the two calls have inserted their invoice. *)
Definition inserted_by (x : system) (who : session) : bool :=
  match who with
  | First => inserted (at_stage (first x))
  | Second => inserted (at_stage (second x))
  end.

(** Both calls are on course. *)
Definition both_on_course (a b : sale_call) (d : db) (x : system) : Prop :=
  served d (number_of a b d) (inserted_by x) (shared x)
  /\ on_course d (number_of a b d First) First (first x) (shared x)
  /\ on_course d (number_of a b d Second) Second (second x) (shared x).

End Parallel.

(* ===================================================================== *)
(** * Sample data                                                         *)
(* ===================================================================== *)

Module Sample.
Import Db Database.

(** 15 January 2024, local time and UTC alike. *)
Definition clock : Js.clock :=
  {| Js.getFullYear := 2024;
     Js.getMonth := 0;
     Js.getDate := 15;
     Js.Date_now := 1705312800000;
     Js.toISODate := "2024-01-15" |}.

(** No round trip fails. *)
Definition calm : env :=
  {| fails := fun _ => false; error_message := "ECONNRESET"; now := clock |}.

(** Only the given round trip fails. *)
Definition failing (bad : step -> bool) : env :=
  {| fails := bad; error_message := "ECONNRESET"; now := clock |}.

Definition lookup_fails : env :=
  failing (fun s => match s with LookupLastNumber => true | _ => false end).

Definition refetch_fails : env :=
  failing (fun s => match s with FetchInvoice => true | _ => false end).

Definition second_item_fails : env :=
  failing (fun s => match s with InsertItemRow 1 => true | _ => false end).

Definition paracetamol : medicine_row :=
  {| medicine_name := "Paracetamol 500mg";
     generic_name := Some "Acetaminophen";
     company_id := Some 1;
     quantity_in_stock := 100;
     min_stock_level := 20;
     is_active := true |}.

Definition amoxicillin : medicine_row :=
  {| medicine_name := "Amoxicillin 250mg";
     generic_name := None;
     company_id := None;
     quantity_in_stock := 10;
     min_stock_level := 5;
     is_active := true |}.

Definition shelf : tables :=
  {| users := {[ 2 := "Asha Rao" ]};
     companies := {[ 1 := "Sun Pharma" ]};
     medicines := {[ 1 := paracetamol; 4 := amoxicillin ]};
     invoices := [];
     invoice_items := [];
     stock_movements := [] |}.

(** A server with the shelf and no invoice yet. *)
Definition fresh : db :=
  {| committed := shelf;
     ids := {| next_invoice_id := 1; next_item_id := 1;
               next_movement_id := 1 |} |}.

Definition earlier_invoice (id : Z) (number : string) : invoice_row :=
  {| inv_id := id;
     inv_invoice_number := number;
     inv_customer_name := None;
     inv_customer_mobile := None;
     inv_customer_address := None;
     inv_pharmacist_id := 2;
     inv_total_amount := 1000;
     inv_discount_amount := 0;
     inv_final_amount := 1000;
     inv_payment_method := "cash";
     inv_invoice_date := "2024-01-15" |}.

Definition with_earlier (l : list invoice_row) (next : Z) : db :=
  {| committed := with_invoices shelf l;
     ids := {| next_invoice_id := next; next_item_id := 1;
               next_movement_id := 1 |} |}.

(** The day's first invoice exists. *)
Definition one_sold : db :=
  with_earlier [earlier_invoice 1 "INV-20240115-001"] 2.

(** A busy day: the 999th and the 1000th invoice. *)
Definition busy : db :=
  with_earlier
    [earlier_invoice 999 "INV-20240115-999";
     earlier_invoice 1000 "INV-20240115-1000"] 1001.

Definition header : Sale.header :=
  {| Sale.customer_name := Some "R. Iyer";
     Sale.customer_mobile := None;
     Sale.customer_address := Some "";
     Sale.pharmacist_id := 2;
     Sale.total_amount := 1500;
     Sale.discount_amount := None;
     Sale.final_amount := 1500;
     Sale.payment_method := None;
     Sale.invoice_date := None |}.

Definition sell (m q : Z) : Sale.item :=
  {| Sale.medicine_id := m; Sale.quantity := q;
     Sale.unit_price := 500; Sale.total_price := 500 * q |}.

Definition request (l : option (list Sale.item)) : Pharmacist.body :=
  {| Pharmacist.items := l;
     Pharmacist.total_amount := Some 1500;
     Pharmacist.final_amount := Some 1500;
     Pharmacist.customer_name := Some "R. Iyer";
     Pharmacist.customer_mobile := None;
     Pharmacist.customer_address := None;
     Pharmacist.discount_amount := None;
     Pharmacist.payment_method := None;
     Pharmacist.invoice_date := None |}.

(** No connection can be had from the pool. *)
Definition no_connection : env :=
  failing (fun s => match s with GetConnection => true | _ => false end).

(** The first line item cannot be inserted, and the rollback fails too. *)
Definition rollback_fails : env :=
  failing (fun s =>
             match s with
             | InsertItemRow 0 | Rollback => true
             | _ => false
             end).

(** The session user of the pharmacist with id 2, and of an administrator. *)
Definition pharmacist_user : Js.object :=
  {[ "id" := Js.Num 2; "full_name" := Js.Str "Asha Rao";
     "role" := Js.Str "pharmacist" ]}.

Definition admin_user : Js.object :=
  {[ "id" := Js.Num 1; "full_name" := Js.Str "Admin";
     "role" := Js.Str "admin" ]}.

Definition signed_in (u : Js.object) : Auth.session :=
  {| Auth.user := Some u |}.

Definition signed_out : Auth.session := {| Auth.user := None |}.

(** A request whose total is negative. *)
Definition negative_total : Pharmacist.body :=
  {| Pharmacist.items := Some [sell 1 3];
     Pharmacist.total_amount := Some (-1);
     Pharmacist.final_amount := Some 1500;
     Pharmacist.customer_name := None;
     Pharmacist.customer_mobile := None;
     Pharmacist.customer_address := None;
     Pharmacist.discount_amount := None;
     Pharmacist.payment_method := None;
     Pharmacist.invoice_date := None |}.

(** The latest invoice of the day carries a number without a sequence. *)
Definition malformed : db :=
  with_earlier [earlier_invoice 7 "INV-20240115-abc"] 8.

(** Three calls in a row: a sale of three units of medicine 1, a sale that
    is rolled back, a sale of two units of medicine 1. *)
Definition three_calls : list Props.sale_call :=
  [ {| Props.call_env := calm; Props.call_data := header;
       Props.call_items := [sell 1 3] |};
    {| Props.call_env := second_item_fails; Props.call_data := header;
       Props.call_items := [sell 1 3; sell 4 2] |};
    {| Props.call_env := calm; Props.call_data := header;
       Props.call_items := [sell 1 2] |} ].

(** The row of the pharmacist in [users]. *)
Definition asha : User.t :=
  {| User.id := 2;
     User.full_name := "Asha Rao";
     User.email := "asha@pharmacy.com";
     User.mobile := "9876543210";
     User.role := "pharmacist";
     User.address := None;
     User.is_active := true;
     User.password := "$2a$10$hash" |}.

(** A profile form with one field more than the form has. *)
Definition profile_form : Js.object :=
  {[ "full_name" := Js.Str "Asha Rao";
     "email" := Js.Str "asha@pharmacy.com";
     "mobile" := Js.Str "9876543210";
     "role" := Js.Str "admin" ]}.

(** The last and the first tenth of a second around the midnight that
    follows: 15 and 16 January 2024. *)
Definition late_clock : Js.clock :=
  {| Js.getFullYear := 2024;
     Js.getMonth := 0;
     Js.getDate := 15;
     Js.Date_now := 1705363199900;
     Js.toISODate := "2024-01-15" |}.

Definition early_clock : Js.clock :=
  {| Js.getFullYear := 2024;
     Js.getMonth := 0;
     Js.getDate := 16;
     Js.Date_now := 1705363200100;
     Js.toISODate := "2024-01-16" |}.

(** Two sales of five units of medicine 4, one on either side of
    midnight; no round trip fails. *)
Definition before_midnight : Props.sale_call :=
  {| Props.call_env :=
       {| fails := fun _ => false; error_message := "ECONNRESET";
          now := late_clock |};
     Props.call_data := header;
     Props.call_items := [sell 4 5] |}.

Definition after_midnight : Props.sale_call :=
  {| Props.call_env :=
       {| fails := fun _ => false; error_message := "ECONNRESET";
          now := early_clock |};
     Props.call_data := header;
     Props.call_items := [sell 4 5] |}.

(** Two sales of five units of medicine 4 on the same day. *)
Definition same_day : Props.sale_call :=
  {| Props.call_env := calm;
     Props.call_data := header;
     Props.call_items := [sell 4 5] |}.

(** Both transactions are open when the first call makes its round trips;
    the second call looks up the last number after the first has
    committed. *)
Definition second_waits : list Parallel.session :=
  [ Parallel.First; Parallel.Second ]
  ++ repeat Parallel.First 8 ++ repeat Parallel.Second 8.

(** The two calls overlap: both have inserted their invoice before either
    commits.  The first call then goes on to its commit and the second
    follows, as the row lock on the medicine has it. *)
Definition overlapping : list Parallel.session :=
  [ Parallel.First; Parallel.Second; Parallel.First; Parallel.Second;
    Parallel.First; Parallel.Second; Parallel.First; Parallel.First;
    Parallel.First; Parallel.First; Parallel.Second; Parallel.First;
    Parallel.Second; Parallel.First; Parallel.Second; Parallel.Second;
    Parallel.Second; Parallel.Second ].

End Sample.

(* ===================================================================== *)
(** * Facts about the string helpers                                      *)
(* ===================================================================== *)

Section JsFacts.

Lemma split_nonempty sep s : Js.split sep s <> [].
Proof.
  destruct s as [|c r]; simpl; [discriminate|].
  destruct (Ascii.eqb c sep); [discriminate|].
  destruct (Js.split sep r); discriminate.
Qed.

(** Splitting commutes with cutting the string at a separator. *)
Lemma split_app sep p d :
  Js.split sep (p +:+ String sep d) = Js.split sep p ++ Js.split sep d.
Proof.
  induction p as [|c p IH]; simpl.
  - rewrite Ascii.eqb_refl. reflexivity.
  - destruct (Ascii.eqb c sep); [now rewrite IH|].
    rewrite IH.
    destruct (Js.split sep p) as [|seg segs] eqn:E;
      [now apply split_nonempty in E|].
    reflexivity.
Qed.

Lemma split_no_separator sep d :
  Js.forall_chars (fun c => negb (Ascii.eqb c sep)) d = true ->
  Js.split sep d = [d].
Proof.
  induction d as [|c d IH]; simpl; [reflexivity|].
  intros H. apply andb_prop in H as [Hc Hd].
  apply negb_true_iff in Hc. rewrite Hc, (IH Hd). reflexivity.
Qed.

(** [split('-').pop()] yields what follows the last dash. *)
Lemma pop_split_suffix sep p d :
  Js.forall_chars (fun c => negb (Ascii.eqb c sep)) d = true ->
  Js.pop (Js.split sep (p +:+ String sep d)) = d.
Proof.
  intros H. unfold Js.pop.
  rewrite split_app, (split_no_separator _ _ H).
  apply last_last.
Qed.

Lemma forall_chars_app P s1 s2 :
  Js.forall_chars P (s1 +:+ s2)
  = (Js.forall_chars P s1 && Js.forall_chars P s2)%bool.
Proof.
  induction s1 as [|c s1 IH]; simpl; [reflexivity|].
  now rewrite IH, andb_assoc.
Qed.

Lemma forall_chars_impl (P Q : ascii -> bool) s :
  (forall c, P c = true -> Q c = true) ->
  Js.forall_chars P s = true -> Js.forall_chars Q s = true.
Proof.
  intros HPQ. induction s as [|c s IH]; simpl; [reflexivity|].
  intros H. apply andb_prop in H as [Hc Hs].
  now rewrite (HPQ _ Hc), (IH Hs).
Qed.

Lemma forall_chars_repeat P c n :
  P c = true -> Js.forall_chars P (Js.repeat_char c n) = true.
Proof.
  intros Hc. induction n as [|n IH]; simpl; [reflexivity|].
  now rewrite Hc, IH.
Qed.

(** A digit is the character with code [48 + d]. *)
Lemma digit_value_code c d :
  Js.digit_value c = Some d -> N_of_ascii c = (48 + d)%N /\ (d <= 9)%N.
Proof.
  unfold Js.digit_value.
  destruct (_ && _)%bool eqn:E; [|discriminate].
  intros [= <-]. apply andb_prop in E as [E1 E2].
  apply N.leb_le in E1, E2. lia.
Qed.

Lemma is_digit_code c :
  Js.is_digit c = true -> (48 <= N_of_ascii c <= 57)%N.
Proof.
  unfold Js.is_digit. destruct (Js.digit_value c) as [d|] eqn:E;
    [|discriminate].
  intros _. apply digit_value_code in E. lia.
Qed.

Lemma code_neq_eqb c (k : ascii) :
  N_of_ascii c <> N_of_ascii k -> Ascii.eqb c k = false.
Proof.
  intros H. apply Ascii.eqb_neq. intros ->. now apply H.
Qed.

Lemma digit_not_whitespace c :
  Js.is_digit c = true -> Js.is_whitespace1 c = false.
Proof.
  intros H. apply is_digit_code in H. unfold Js.is_whitespace1.
  assert (Hn : nat_of_ascii c = N.to_nat (N_of_ascii c)) by reflexivity.
  rewrite Hn.
  apply orb_false_iff. split.
  - apply Nat.eqb_neq. lia.
  - apply andb_false_iff. right. apply Nat.leb_gt. lia.
Qed.

Lemma digit_not_char c (k : ascii) :
  Js.is_digit c = true ->
  (N_of_ascii k < 48 \/ 57 < N_of_ascii k)%N ->
  Ascii.eqb c k = false.
Proof.
  intros H Hk. apply is_digit_code in H. apply code_neq_eqb. lia.
Qed.

(** A digit starts no white space, of one byte or of several. *)
Lemma skip_whitespace_digit c r :
  Js.is_digit c = true -> Js.skip_whitespace (String c r) = String c r.
Proof.
  intros Hc. cbn [Js.skip_whitespace].
  rewrite (digit_not_whitespace _ Hc).
  apply is_digit_code in Hc.
  assert (Hn : nat_of_ascii c = N.to_nat (N_of_ascii c)) by reflexivity.
  assert (H2 : forall c2, Js.is_whitespace2 c c2 = false).
  { intros c2. unfold Js.is_whitespace2. rewrite Hn.
    apply andb_false_iff. left. apply Nat.eqb_neq. lia. }
  assert (H3 : forall c2 c3, Js.is_whitespace3 c c2 c3 = false).
  { intros c2 c3. unfold Js.is_whitespace3. cbv zeta. rewrite Hn.
    assert (E : forall k, (128 <= k)%nat ->
                          Nat.eqb (N.to_nat (N_of_ascii c)) k = false)
      by (intros k Hk; apply Nat.eqb_neq; lia).
    rewrite !E by lia. reflexivity. }
  destruct r as [|c2 [|c3 r]]; [reflexivity| |].
  - now rewrite H2.
  - now rewrite H2, H3.
Qed.

(** On a string of digits [parseInt] reads in base ten from the start. *)
Lemma parseInt_digits c r :
  Js.is_digit c = true -> Js.forall_chars Js.is_digit r = true ->
  Js.parseInt (String c r)
  = option_map (fun n => Js.to_double (Z.of_N n))
      (Js.parse_digits 10 Js.digit_value (String c r) None).
Proof.
  intros Hc Hr. unfold Js.parseInt.
  rewrite (skip_whitespace_digit c r Hc). unfold Js.strip_sign.
  rewrite (digit_not_char c "-" Hc), (digit_not_char c "+" Hc)
    by (vm_compute; left; reflexivity).
  assert (Hx : Js.strip_hex_prefix (String c r) = None).
  { destruct r as [|c2 r2]; [reflexivity|]. simpl in Hr.
    apply andb_prop in Hr as [Hc2 _]. unfold Js.strip_hex_prefix.
    rewrite (digit_not_char c2 "x" Hc2), (digit_not_char c2 "X" Hc2)
      by (vm_compute; right; reflexivity).
    now rewrite andb_false_r. }
  rewrite Hx.
  destruct (Js.parse_digits _ _ _ _) as [n|]; simpl; [|reflexivity].
  f_equal. now destruct n.
Qed.

Lemma parse_digits_uint_pos d p :
  Js.parse_digits 10 Js.digit_value (NilEmpty.string_of_uint d)
    (Some (N.pos p))
  = Some (N.pos (Pos.of_uint_acc d p)).
Proof.
  revert p. induction d; intros p; simpl; try reflexivity;
    rewrite <- IHd; do 2 f_equal; lia.
Qed.

Lemma parse_digits_uint d :
  Js.parse_digits 10 Js.digit_value (NilEmpty.string_of_uint d) (Some 0%N)
  = Some (Pos.of_uint d).
Proof.
  induction d; simpl; try reflexivity; try exact IHd;
    apply parse_digits_uint_pos.
Qed.

Lemma parse_digits_zeros n s :
  Js.parse_digits 10 Js.digit_value (Js.repeat_char "0" n +:+ s) (Some 0%N)
  = Js.parse_digits 10 Js.digit_value s (Some 0%N).
Proof.
  induction n as [|n IH]; simpl; [reflexivity|exact IH].
Qed.

Lemma parse_digits_start s :
  Js.parse_digits 10 Js.digit_value s None
  = match s with
    | String c _ =>
        if Js.is_digit c
        then Js.parse_digits 10 Js.digit_value s (Some 0%N) else None
    | EmptyString => None
    end.
Proof.
  destruct s as [|c r]; [reflexivity|]. unfold Js.is_digit. simpl.
  destruct (Js.digit_value c); reflexivity.
Qed.

Lemma string_of_uint_digits d :
  Js.forall_chars Js.is_digit (NilEmpty.string_of_uint d) = true.
Proof. induction d; simpl; auto. Qed.

(** An integer up to [2^53 - 1] in magnitude is a double. *)
Lemma to_double_safe z :
  Z.abs z <= Js.MAX_SAFE_INTEGER -> Js.to_double z = z.
Proof.
  intros Hz. unfold Js.to_double. cbv zeta.
  apply Z.leb_le in Hz. now rewrite Hz.
Qed.

(** [String(n)] of a natural number up to [2^53 - 1]: its decimal digits,
    at least one. *)
Lemma String_nonneg z :
  0 <= z <= Js.MAX_SAFE_INTEGER ->
  exists d, d <> Nil /\ Js.String_ (Some z) = NilEmpty.string_of_uint d
            /\ Pos.of_uint d = Z.to_N z.
Proof.
  intros Hz. unfold Js.String_.
  assert (Hs : (Z.abs z <=? Js.MAX_SAFE_INTEGER) = true)
    by (apply Z.leb_le; lia).
  rewrite Hs. clear Hs.
  destruct z as [|p|p]; [| |lia].
  - exists (D0 Nil). repeat split. discriminate.
  - exists (Pos.to_uint p). split; [apply DecimalPos.Unsigned.to_uint_nonnil|].
    split.
    + simpl. unfold NilZero.string_of_uint.
      destruct (Pos.to_uint p) eqn:E; try reflexivity.
      now apply DecimalPos.Unsigned.to_uint_nonnil in E.
    + apply (DecimalPos.Unsigned.of_to p).
Qed.

Lemma String_nonneg_digits z :
  0 <= z <= Js.MAX_SAFE_INTEGER ->
  Js.forall_chars Js.is_digit (Js.String_ (Some z)) = true.
Proof.
  intros Hz. destruct (String_nonneg z Hz) as (d & _ & -> & _).
  apply string_of_uint_digits.
Qed.

Lemma padStart_digits z n :
  0 <= z <= Js.MAX_SAFE_INTEGER ->
  Js.forall_chars Js.is_digit (Js.padStart (Js.String_ (Some z)) n "0") = true.
Proof.
  intros Hz. unfold Js.padStart.
  rewrite forall_chars_app, forall_chars_repeat by reflexivity.
  now rewrite String_nonneg_digits.
Qed.

Lemma append_empty_r s1 s2 : s1 +:+ s2 = EmptyString -> s2 = EmptyString.
Proof. destruct s1; simpl; [auto|discriminate]. Qed.

(** Reading back a zero-padded natural number. *)
Lemma parseInt_padStart z n :
  0 <= z <= Js.MAX_SAFE_INTEGER ->
  Js.parseInt (Js.padStart (Js.String_ (Some z)) n "0") = Some z.
Proof.
  intros Hz.
  pose proof (padStart_digits z n Hz) as Hdig.
  destruct (String_nonneg z Hz) as (d & Hd & HS & Hv).
  unfold Js.padStart in *. rewrite HS in *.
  set (s := Js.repeat_char "0" _ +:+ _) in *.
  assert (Hval : Js.parse_digits 10 Js.digit_value s (Some 0%N)
                 = Some (Z.to_N z)).
  { subst s. now rewrite parse_digits_zeros, parse_digits_uint, Hv. }
  destruct s as [|c r] eqn:Es.
  - exfalso. subst s. apply append_empty_r in Es.
    destruct d; simpl in Es; congruence.
  - simpl in Hdig. apply andb_prop in Hdig as [Hc Hr].
    rewrite (parseInt_digits c r Hc Hr), parse_digits_start, Hc, Hval.
    simpl. f_equal. rewrite Z2N.id by lia. apply to_double_safe. lia.
Qed.

Lemma append_inj_l p s1 s2 : p +:+ s1 = p +:+ s2 -> s1 = s2.
Proof.
  induction p as [|c p IH]; simpl; [auto|]. intros [= H]. auto.
Qed.

Lemma prefix_append p s : String.prefix p (p +:+ s) = true.
Proof.
  induction p as [|c p IH]; simpl; [now destruct s|].
  destruct (ascii_dec c c); [exact IH|congruence].
Qed.

End JsFacts.

(* ===================================================================== *)
(** * What a run of statements does to the tables                         *)
(* ===================================================================== *)

Section RunFacts.
Import Db Database Props.

Lemma set_quantity_same r d :
  d = 0 -> set_quantity (quantity_in_stock r - d) r = r.
Proof. intros ->. destruct r; unfold set_quantity; simpl. f_equal. lia. Qed.

Lemma inserted_invoices_cons s rest n :
  inserted_invoices (s :: rest) n
  = inserted_invoices [s] n
    ++ inserted_invoices rest
         (n + Z.of_nat (length (inserted_invoices [s] 0))).
Proof. destruct s; simpl; rewrite ?Z.add_0_r; reflexivity. Qed.

Lemma inserted_items_cons s rest n :
  inserted_items (s :: rest) n
  = inserted_items [s] n
    ++ inserted_items rest (n + Z.of_nat (length (inserted_items [s] 0))).
Proof. destruct s; simpl; rewrite ?Z.add_0_r; reflexivity. Qed.

Lemma inserted_movements_cons s rest n :
  inserted_movements (s :: rest) n
  = inserted_movements [s] n
    ++ inserted_movements rest
         (n + Z.of_nat (length (inserted_movements [s] 0))).
Proof. destruct s; simpl; rewrite ?Z.add_0_r; reflexivity. Qed.

Lemma inserted_invoices_length l n m :
  length (inserted_invoices l n) = length (inserted_invoices l m).
Proof.
  revert n m. induction l as [|s l IH]; intros n m; [reflexivity|].
  destruct s; simpl; auto.
Qed.

Lemma inserted_items_length l n m :
  length (inserted_items l n) = length (inserted_items l m).
Proof.
  revert n m. induction l as [|s l IH]; intros n m; [reflexivity|].
  destruct s; simpl; auto.
Qed.

Lemma inserted_movements_length l n m :
  length (inserted_movements l n) = length (inserted_movements l m).
Proof.
  revert n m. induction l as [|s l IH]; intros n m; [reflexivity|].
  destruct s; simpl; auto.
Qed.

Lemma apply_statement_frame s t c t1 c1 id :
  apply_statement s t c = inr (t1, c1, id) -> frame [s] t c t1 c1.
Proof.
  unfold frame.
  destruct s; simpl;
    repeat match goal with
           | |- context [if ?b then _ else _] => destruct b
           end;
    intros [= <- <- <-]; simpl; rewrite ?app_nil_r;
    repeat split; lia.
Qed.

Lemma run_frame l : forall t c t' c',
  run l t c = inr (t', c') -> frame l t c t' c'.
Proof.
  induction l as [|s l IH]; intros t c t' c' H.
  - injection H as <- <-. unfold frame; simpl.
    rewrite !app_nil_r. repeat split; lia.
  - simpl in H.
    destruct (apply_statement s t c) as [x|[[t1 c1] id1]] eqn:Hs;
      [discriminate|].
    apply apply_statement_frame in Hs. apply IH in H.
    destruct Hs as (U1 & C1 & I1 & T1 & M1 & NI1 & NT1 & NM1).
    destruct H as (U & C & I & T & M & NI & NT & NM).
    unfold frame.
    rewrite !(inserted_invoices_cons s l), !(inserted_items_cons s l),
      !(inserted_movements_cons s l), !length_app, !app_assoc.
    rewrite (inserted_invoices_length l _ 0),
      (inserted_items_length l _ 0), (inserted_movements_length l _ 0).
    rewrite U, C, I, T, M, NI, NT, NM, U1, C1, I1, T1, M1, NI1, NT1, NM1.
    repeat split; lia.
Qed.

(** The effect of a statement list on the stock, when no statement
    overwrites it: each medicine loses what the relative updates take. *)
Lemma apply_statement_medicines s t c t1 c1 id m :
  apply_statement s t c = inr (t1, c1, id) ->
  overwrites_stock s = false ->
  medicines t1 !! m
  = (fun r =>
       set_quantity (quantity_in_stock r - stock_delta m s) r)
    <$> medicines t !! m.
Proof.
  assert (Hid : forall o : option medicine_row,
             o = (fun r => set_quantity (quantity_in_stock r - 0) r) <$> o).
  { intros [r|]; simpl; [|reflexivity].
    now rewrite set_quantity_same. }
  destruct s; simpl;
    lazymatch goal with
    | |- context [alter (decrement_stock _)] => idtac
    | |- _ =>
        repeat match goal with
               | |- context [if ?b then _ else _] => destruct b
               end;
        try discriminate; intros [= <- <- <-] Ho; try discriminate Ho;
        simpl; apply Hid
    end.
  intros [= <- <- <-] _; simpl.
  rewrite lookup_alter. destruct (decide (medicine_id = m)) as [->|Hne].
  - rewrite Z.eqb_refl. reflexivity.
  - apply Z.eqb_neq in Hne. rewrite Hne. apply Hid.
Qed.

Lemma run_medicines l m : forall t c t' c',
  run l t c = inr (t', c') ->
  Forall (fun s => overwrites_stock s = false) l ->
  medicines t' !! m
  = (fun r => set_quantity (quantity_in_stock r - stock_taken m l) r)
    <$> medicines t !! m.
Proof.
  induction l as [|s l IH]; intros t c t' c' H Hrel.
  - injection H as <- <-. unfold stock_taken; simpl.
    destruct (medicines t !! m) as [r|]; simpl; [|reflexivity].
    now rewrite set_quantity_same.
  - simpl in H.
    destruct (apply_statement s t c) as [x|[[t1 c1] id1]] eqn:Hs;
      [discriminate|].
    inversion Hrel as [|? ? Hs_rel Hl_rel]; subst.
    rewrite (IH _ _ _ _ H Hl_rel),
      (apply_statement_medicines _ _ _ _ _ _ m Hs Hs_rel).
    destruct (medicines t !! m) as [r|]; simpl; [|reflexivity].
    f_equal. unfold set_quantity, stock_taken; simpl. f_equal. lia.
Qed.

Lemma run_stock l m t c t' c' :
  run l t c = inr (t', c') ->
  Forall (fun s => overwrites_stock s = false) l ->
  stock_of m t'
  = (fun q => q - stock_taken m l) <$> stock_of m t.
Proof.
  intros H Hrel. unfold stock_of.
  rewrite (run_medicines l m _ _ _ _ H Hrel).
  destruct (medicines t !! m); reflexivity.
Qed.

End RunFacts.

(* ===================================================================== *)
(** * The statements of one sale                                          *)
(* ===================================================================== *)

Section SaleFacts.
Import Db Database Props.

Variables (e : env) (invoiceData : Sale.header) (invoiceNumber : string)
  (invoiceId : Z).

Lemma sale_statements_unfold items :
  Invoice.sale_statements e invoiceData invoiceNumber invoiceId items
  = InsertInvoice (Invoice.invoice_values_of e invoiceData invoiceNumber)
    :: loop_statements invoiceData invoiceNumber invoiceId items.
Proof. reflexivity. Qed.

Lemma sale_never_overwrites items :
  Forall (fun s => overwrites_stock s = false)
    (Invoice.sale_statements e invoiceData invoiceNumber invoiceId items).
Proof.
  rewrite sale_statements_unfold. constructor; [reflexivity|].
  induction items as [|i items IH]; simpl; repeat constructor. exact IH.
Qed.

Lemma sale_stock_taken m items :
  stock_taken m
    (Invoice.sale_statements e invoiceData invoiceNumber invoiceId items)
  = Sale.quantity_sold m items.
Proof.
  unfold stock_taken, Sale.quantity_sold. simpl.
  induction items as [|i items IH]; simpl; [reflexivity|].
  rewrite IH. destruct (Sale.medicine_id i =? m); simpl; lia.
Qed.

Lemma sale_inserted_invoices items next :
  inserted_invoices
    (Invoice.sale_statements e invoiceData invoiceNumber invoiceId items)
    next
  = [invoice_row_of next
       (Invoice.invoice_values_of e invoiceData invoiceNumber)].
Proof.
  simpl. f_equal. generalize (next + 1).
  induction items as [|i items IH]; intros n; simpl; auto.
Qed.

Lemma sale_inserted_items items next :
  Forall2 (line_of invoiceId)
    (inserted_items
       (Invoice.sale_statements e invoiceData invoiceNumber invoiceId
          items) next)
    items.
Proof.
  simpl. revert next.
  induction items as [|i items IH]; intros n; simpl; constructor.
  - repeat split.
  - apply IH.
Qed.

Lemma sale_inserted_items_length items next :
  length
    (inserted_items
       (Invoice.sale_statements e invoiceData invoiceNumber invoiceId
          items) next)
  = length items.
Proof. symmetry. eapply Forall2_length, Forall2_flip, sale_inserted_items. Qed.

Lemma sale_inserted_movements_count m items next :
  length
    (List.filter (sale_movement_of m invoiceId)
       (inserted_movements
          (Invoice.sale_statements e invoiceData invoiceNumber invoiceId
             items) next))
  = Sale.lines_of m items.
Proof.
  unfold Sale.lines_of. simpl. revert next.
  induction items as [|i items IH]; intros n; simpl; [reflexivity|].
  unfold sale_movement_of at 1. simpl.
  rewrite Z.eqb_refl, andb_true_r.
  destruct (Sale.medicine_id i =? m); simpl; now rewrite IH.
Qed.

End SaleFacts.

Section InsertedFacts.
Import Db Database Props.

Lemma inserted_items_lower l : forall next,
  Forall (fun r => next <= item_id r) (inserted_items l next).
Proof.
  induction l as [|s l IH]; intros next; [constructor|].
  destruct s; simpl; auto.
  constructor; simpl; [lia|].
  eapply List.Forall_impl; [|apply IH]. simpl. intros; lia.
Qed.

Lemma insert_by_id_least r l :
  Forall (fun x => item_id r < item_id x) l -> insert_by_id r l = r :: l.
Proof.
  destruct 1 as [|x l Hx _]; simpl; [reflexivity|].
  apply Z.ltb_lt in Hx. now rewrite Hx.
Qed.

(** The rows a run inserts are in the order of their ids. *)
Lemma sort_inserted_items l : forall next,
  sort_by_id (inserted_items l next) = inserted_items l next.
Proof.
  induction l as [|s l IH]; intros next; [reflexivity|].
  destruct s; simpl; auto.
  unfold sort_by_id in *. simpl. rewrite IH.
  apply insert_by_id_least.
  eapply List.Forall_impl; [|apply inserted_items_lower]. simpl. intros; lia.
Qed.

Lemma lines_invoice_id id rows (items : list Sale.item) :
  Forall2 (line_of id) rows items ->
  Forall (fun r => (item_invoice_id r =? id) = true) rows.
Proof.
  induction 1 as [|r i rs others Hl _ IH]; constructor; [|exact IH].
  destruct Hl as [-> _]. apply Z.eqb_refl.
Qed.

End InsertedFacts.

(* ===================================================================== *)
(** * The transaction of [create], step by step                           *)
(* ===================================================================== *)

Section TransactionFacts.
Import Db Database Props.

Variable e : env.

Lemma map_fst_combine {A B : Type} (l : list A) : forall k : list B,
  length l = length k -> map fst (combine l k) = l.
Proof.
  induction l as [|a l IH]; intros [|b k] H; simpl in *;
    try discriminate; [reflexivity|].
  f_equal. apply IH. lia.
Qed.

Lemma map_snd_combine {A B : Type} (l : list A) : forall k : list B,
  length l = length k -> map snd (combine l k) = k.
Proof.
  induction l as [|a l IH]; intros [|b k] H; simpl in *;
    try discriminate; [reflexivity|].
  f_equal. apply IH. lia.
Qed.

Lemma connection_execute_spec st s w :
  exists r w',
    connection_execute e st s w = (r, w')
    /\ w_committed w' = w_committed w
    /\ w_issued w' = w_issued w ++ [s]
    /\ match r with
       | inr id =>
           fails e st = false
           /\ apply_statement s (w_working w) (w_ids w)
              = inr (w_working w', w_ids w', id)
       | inl _ =>
           fails e st = true
           \/ exists x, apply_statement s (w_working w) (w_ids w) = inl x
       end.
Proof.
  unfold connection_execute. simpl.
  destruct (fails e st) eqn:Hf.
  - eexists _, _. repeat split. now left.
  - destruct (apply_statement s (w_working w) (w_ids w))
      as [x|[[t c] id]] eqn:Ha.
    + eexists _, _. repeat split. right. now exists x.
    + eexists _, _. repeat split.
Qed.

Lemma execute_all_spec l : forall w,
  exists r w',
    execute_all e l w = (r, w')
    /\ w_committed w' = w_committed w
    /\ match r with
       | inr _ =>
           spares e (map fst l) = true
           /\ run (map snd l) (w_working w) (w_ids w)
              = inr (w_working w', w_ids w')
           /\ w_issued w' = w_issued w ++ map snd l
       | inl _ =>
           spares e (map fst l) = false
           \/ exists x,
               run (map snd l) (w_working w) (w_ids w) = inl x
       end.
Proof.
  induction l as [|[st s] l IH]; intros w.
  - exists (inr tt), w. simpl. rewrite app_nil_r. repeat split.
  - simpl. unfold bind.
    destruct (connection_execute_spec st s w)
      as (r1 & w1 & E1 & C1 & I1 & R1).
    rewrite E1. destruct r1 as [x|id].
    + exists (inl x), w1. repeat split; [exact C1|].
      destruct R1 as [Hf|[y Hy]].
      * left. now rewrite Hf.
      * right. exists y. now rewrite Hy.
    + destruct R1 as [Hf Ha].
      destruct (IH w1) as (r & w' & E & C & R).
      exists r, w'. rewrite E, Hf, Ha. simpl.
      split; [reflexivity|]. split; [congruence|].
      destruct r as [x|u].
      * exact R.
      * destruct R as (Hs & Hr & Hi). repeat split; auto.
        rewrite Hi, I1, <- app_assoc. reflexivity.
Qed.

Variables (invoiceData : Sale.header) (invoiceNumber : string)
  (invoiceId : Z).

(** The item loop is [execute_all] on its steps and statements. *)
Lemma insert_items_execute_all items : forall k w,
  Invoice.insert_items e invoiceData invoiceNumber invoiceId k items w
  = execute_all e
      (combine (item_steps k (length items))
         (loop_statements invoiceData invoiceNumber invoiceId items)) w.
Proof.
  induction items as [|i items IH]; intros k w; [reflexivity|].
  simpl. unfold bind.
  destruct (connection_execute e (InsertItemRow k) _ w) as [[x|?] w1];
    [reflexivity|].
  destruct (connection_execute e (UpdateStock k) _ w1) as [[x|?] w2];
    [reflexivity|].
  destruct (connection_execute e (InsertMovementRow k) _ w2) as [[x|?] w3];
    [reflexivity|].
  apply IH.
Qed.

Lemma item_steps_length k n : length (item_steps k n) = (3 * n)%nat.
Proof.
  unfold item_steps. revert k.
  induction n as [|n IH]; intros k; simpl; [reflexivity|].
  rewrite IH. lia.
Qed.

Lemma loop_statements_length items :
  length (loop_statements invoiceData invoiceNumber invoiceId items)
  = (3 * length items)%nat.
Proof.
  unfold loop_statements.
  induction items as [|i items IH]; simpl; [reflexivity|].
  rewrite IH. lia.
Qed.

Lemma insert_items_spec items k w :
  exists r w',
    Invoice.insert_items e invoiceData invoiceNumber invoiceId k items w
    = (r, w')
    /\ w_committed w' = w_committed w
    /\ match r with
       | inr _ =>
           spares e (item_steps k (length items)) = true
           /\ run
                (loop_statements invoiceData invoiceNumber invoiceId items)
                (w_working w) (w_ids w)
              = inr (w_working w', w_ids w')
           /\ w_issued w'
              = w_issued w
                ++ loop_statements invoiceData invoiceNumber invoiceId items
       | inl _ =>
           spares e (item_steps k (length items)) = false
           \/ exists x,
               run
                 (loop_statements invoiceData invoiceNumber invoiceId items)
                 (w_working w) (w_ids w) = inl x
       end.
Proof.
  rewrite insert_items_execute_all.
  pose proof (execute_all_spec
                (combine (item_steps k (length items))
                   (loop_statements invoiceData invoiceNumber invoiceId
                      items)) w) as H.
  rewrite map_fst_combine, map_snd_combine in H
    by (rewrite item_steps_length, loop_statements_length; lia).
  exact H.
Qed.

Lemma spares_app l1 l2 :
  spares e (l1 ++ l2) = (spares e l1 && spares e l2)%bool.
Proof. apply forallb_app. Qed.

Lemma generateInvoiceNumber_world w :
  Invoice.generateInvoiceNumber e w
  = (generated_number e (close_world w),
     send (SelectLastInvoiceNumber (Invoice.prefix (now e) +:+ "%")) w).
Proof.
  unfold generated_number, Invoice.generateInvoiceNumber, pool_execute.
  destruct (fails e LookupLastNumber); reflexivity.
Qed.

Lemma apply_insert_invoice_id v t c t' c' id :
  apply_statement (InsertInvoice v) t c = inr (t', c', id) ->
  id = next_invoice_id c.
Proof.
  simpl. destruct (number_taken _ _); [discriminate|].
  destruct (bool_decide _); [discriminate|]. now intros [= _ _ <-].
Qed.

End TransactionFacts.

Section CreateTransaction.
Import Db Database Props.

Variables (e : env) (invoiceData : Sale.header) (items : list Sale.item).

(** How the [try] block of [create] ends, up to the commit. *)
Lemma create_transaction_spec w :
  w_working w = w_committed w ->
  exists r w',
    Invoice.create_transaction e invoiceData items w = (r, w')
    /\ match r with
       | inr id =>
           id = next_invoice_id (w_ids w)
           /\ spares e (transaction_steps (length items)) = true
           /\ run
                (transaction_statements e (close_world w) invoiceData items)
                (w_committed w) (w_ids w)
              = inr (w_committed w', w_ids w')
           /\ w_working w' = w_committed w'
           /\ w_issued w'
              = w_issued w
                ++ SelectLastInvoiceNumber (Invoice.prefix (now e) +:+ "%")
                   :: transaction_statements e (close_world w) invoiceData
                        items
                ++ [COMMIT]
       | inl _ =>
           w_committed w' = w_committed w
           /\ (spares e (transaction_steps (length items)) = false
               \/ exists x,
                   run
                     (transaction_statements e (close_world w) invoiceData
                        items)
                     (w_committed w) (w_ids w) = inl x)
       end.
Proof.
  intros Hw. unfold Invoice.create_transaction, bind.
  rewrite generateInvoiceNumber_world.
  set (n := generated_number e (close_world w)).
  set (q := SelectLastInvoiceNumber _).
  set (v := Invoice.invoice_values_of e invoiceData n).
  unfold transaction_statements, transaction_steps. fold n.
  rewrite sale_statements_unfold. fold v.
  destruct (connection_execute_spec e InsertInvoiceRow (InsertInvoice v)
              (send q w)) as (r1 & w1 & E1 & C1 & I1 & R1).
  rewrite E1. simpl w_working in R1. simpl w_ids in R1. rewrite Hw in R1.
  simpl in C1, I1.
  destruct r1 as [x|id].
  { exists (inl x), w1. split; [reflexivity|]. split; [exact C1|].
    destruct R1 as [Hf|[y Hy]].
    - left. simpl. now rewrite Hf.
    - right. exists y. cbn [run close_world committed ids].
      now rewrite Hy. }
  destruct R1 as [Hf Ha].
  pose proof (apply_insert_invoice_id _ _ _ _ _ _ Ha) as Hid. subst id.
  cbn [run close_world committed ids]. rewrite Ha.
  destruct (insert_items_spec e invoiceData n (next_invoice_id (w_ids w))
              items 0 w1) as (r2 & w2 & E2 & C2 & R2).
  rewrite E2.
  destruct r2 as [x|u].
  { exists (inl x), w2. split; [reflexivity|]. split; [congruence|].
    destruct R2 as [Hs|[y Hy]].
    - left. simpl. now rewrite spares_app, Hs, andb_false_r.
    - right. now exists y. }
  destruct R2 as (Hs & Hr & Hi).
  assert (Hsp : spares e (InsertInvoiceRow :: item_steps 0 (length items)
                            ++ [Commit])
                = negb (fails e Commit)).
  { cbn [spares forallb]. fold (spares e (item_steps 0 (length items)
                                            ++ [Commit])).
    rewrite Hf, spares_app, Hs. simpl. now rewrite andb_true_r. }
  rewrite Hsp. unfold commitTransaction, ret. simpl.
  destruct (fails e Commit) eqn:Hc.
  { eexists _, _. split; [reflexivity|]. simpl. split; [congruence|].
    now left. }
  eexists _, _. split; [reflexivity|]. simpl.
  rewrite Hr, Hi, I1. repeat split. now rewrite <- !app_assoc.
Qed.

End CreateTransaction.

(* ===================================================================== *)
(** * How a call of [create] ends                                         *)
(* ===================================================================== *)

Section CreateFacts.
Import Db Database Props.

Variables (e : env) (d : db) (invoiceData : Sale.header)
  (items : list Sale.item).

Lemma findById_world id w :
  exists w' reads,
    Invoice.findById e id w = (refetch e id (w_committed w), w')
    /\ w_committed w' = w_committed w
    /\ w_ids w' = w_ids w
    /\ w_issued w' = w_issued w ++ SelectInvoiceById id :: reads.
Proof.
  unfold refetch, Invoice.findById, pool_execute. simpl.
  destruct (fails e FetchInvoice); simpl; [eexists _, []; repeat split|].
  destruct (select_invoice_by_id id (w_committed w)) as [|r rs]; simpl;
    [eexists _, []; repeat split|].
  destruct (fails e FetchItems); simpl;
    eexists _, [SelectInvoiceItems id]; repeat split;
    simpl; now rewrite <- app_assoc.
Qed.

(** The three ways a call ends: the transaction does not open; it is rolled
    back; it is committed and the invoice is fetched again. *)
Lemma create_cases :
  let c := Invoice.create e d invoiceData items in
  let statements := transaction_statements e d invoiceData items in
  (opens e = false
   /\ Invoice.result c = Invoice.Rejected StorageFailure
   /\ Invoice.final c = d)
  \/ (opens e = true
      /\ (spares e (transaction_steps (length items)) = false
          \/ exists x,
              run statements (committed d) (ids d) = inl x)
      /\ committed (Invoice.final c) = committed d
      /\ Invoice.result c
         = if fails e Rollback then Invoice.Rejected StorageFailure
           else Invoice.Returned None)
  \/ (opens e = true
      /\ spares e (transaction_steps (length items)) = true
      /\ exists t' c',
          run statements (committed d) (ids d) = inr (t', c')
          /\ Invoice.final c = {| committed := t'; ids := c' |}
          /\ Invoice.result c
             = Invoice.Returned (refetch e (next_invoice_id (ids d)) t')
          /\ exists reads,
              Invoice.issued c
              = START_TRANSACTION
                :: SelectLastInvoiceNumber (Invoice.prefix (now e) +:+ "%")
                :: statements
                ++ COMMIT :: SelectInvoiceById (next_invoice_id (ids d))
                   :: reads).
Proof.
  intros c statements. subst c statements.
  unfold Invoice.create, beginTransaction, opens. simpl.
  destruct (fails e GetConnection); simpl;
    [left; repeat split; now destruct d|].
  destruct (fails e BeginTransaction); simpl;
    [left; repeat split; now destruct d|].
  right.
  set (w0 := {| w_committed := committed d; w_working := committed d;
                w_ids := ids d; w_issued := [START_TRANSACTION] |}).
  destruct (create_transaction_spec e invoiceData items w0 eq_refl)
    as (r & w1 & E & R).
  assert (Hd : close_world w0 = d) by now destruct d.
  rewrite Hd in R. simpl w_committed in R. simpl w_ids in R.
  rewrite E. destruct r as [x|id].
  - left. destruct R as [HC HR]. split; [reflexivity|]. split; [exact HR|].
    unfold rollbackTransaction. simpl.
    destruct (fails e Rollback); simpl; auto.
  - right. destruct R as (-> & Hs & Hr & _ & Hi).
    destruct (findById_world (next_invoice_id (ids d)) w1)
      as (w2 & reads & E2 & C2 & I2 & S2).
    rewrite E2. split; [reflexivity|]. split; [exact Hs|].
    exists (w_committed w1), (w_ids w1). split; [exact Hr|].
    unfold Invoice.finish, close_world. simpl. rewrite C2, I2.
    repeat split. exists reads. rewrite S2, Hi. simpl.
    now rewrite <- app_assoc.
Qed.

End CreateFacts.

(* ===================================================================== *)
(** * Fetching the new invoice again                                      *)
(* ===================================================================== *)

Section RefetchFacts.
Import Db Database Props.

Lemma filter_none {A : Type} (f : A -> bool) l :
  Forall (fun x => f x = false) l -> List.filter f l = [].
Proof.
  induction 1 as [|x l Hx _ IH]; simpl; [reflexivity|]. now rewrite Hx.
Qed.

Lemma filter_all {A : Type} (f : A -> bool) l :
  Forall (fun x => f x = true) l -> List.filter f l = l.
Proof.
  induction 1 as [|x l Hx _ IH]; simpl; [reflexivity|].
  now rewrite Hx, IH.
Qed.

Lemma apply_insert_invoice_ok v t c t1 c1 id :
  apply_statement (InsertInvoice v) t c = inr (t1, c1, id) ->
  number_taken (v_invoice_number v) t = false
  /\ exists name, users t !! v_pharmacist_id v = Some name.
Proof.
  simpl. destruct (number_taken _ _); [discriminate|].
  destruct (bool_decide_reflect (users t !! v_pharmacist_id v = None))
    as [|Hu]; [discriminate|].
  intros _. split; [reflexivity|].
  destruct (users t !! v_pharmacist_id v) as [name|]; [|congruence].
  now exists name.
Qed.

Variables (e : env) (d : db) (invoiceData : Sale.header)
  (items : list Sale.item).

Let invoiceId : Z := next_invoice_id (ids d).
Let statements : list statement :=
  transaction_statements e d invoiceData items.
Let new_row : invoice_row :=
  invoice_row_of invoiceId
    (Invoice.invoice_values_of e invoiceData (generated_number e d)).

Variables (t' : tables) (c' : counters).
Hypothesis Hwf : wf d.
Hypothesis Hrun :
  run statements (committed d) (ids d) = inr (t', c').

Lemma committed_invoices :
  invoices t' = invoices (committed d) ++ [new_row].
Proof.
  destruct (run_frame _ _ _ _ _ Hrun) as (_ & _ & HI & _).
  rewrite HI. unfold statements, transaction_statements.
  now rewrite sale_inserted_invoices.
Qed.

Lemma committed_items :
  invoice_items t'
  = invoice_items (committed d)
    ++ inserted_items statements (next_item_id (ids d)).
Proof. now destruct (run_frame _ _ _ _ _ Hrun) as (_ & _ & _ & HT & _). Qed.

Lemma committed_movements :
  stock_movements t'
  = stock_movements (committed d)
    ++ inserted_movements statements (next_movement_id (ids d)).
Proof.
  now destruct (run_frame _ _ _ _ _ Hrun) as (_ & _ & _ & _ & HM & _).
Qed.

Lemma committed_counters :
  next_invoice_id c' = invoiceId + 1
  /\ next_item_id c' = next_item_id (ids d) + Z.of_nat (length items)
  /\ next_item_id (ids d) <= next_item_id c'
  /\ next_movement_id (ids d) <= next_movement_id c'.
Proof.
  destruct (run_frame _ _ _ _ _ Hrun)
    as (_ & _ & _ & _ & _ & NI & NT & NM).
  unfold statements, transaction_statements in *.
  rewrite sale_inserted_invoices in NI.
  rewrite sale_inserted_items_length in NT. simpl in NI.
  repeat split; lia.
Qed.

Lemma pharmacist_known :
  exists name,
    users (committed d) !! Sale.pharmacist_id invoiceData = Some name.
Proof.
  unfold statements, transaction_statements in Hrun.
  rewrite sale_statements_unfold in Hrun. cbn [run] in Hrun.
  destruct (apply_statement (InsertInvoice _) _ _)
    as [x|[[t1 c1] id1]] eqn:Ha; [discriminate|].
  apply apply_insert_invoice_ok in Ha as [_ Hu]. exact Hu.
Qed.

Lemma number_was_free :
  number_taken (generated_number e d) (committed d) = false.
Proof.
  unfold statements, transaction_statements in Hrun.
  rewrite sale_statements_unfold in Hrun. cbn [run] in Hrun.
  destruct (apply_statement (InsertInvoice _) _ _)
    as [x|[[t1 c1] id1]] eqn:Ha; [discriminate|].
  apply apply_insert_invoice_ok in Ha as [Hn _]. exact Hn.
Qed.

(** The id query finds the new row and nothing else. *)
Lemma select_new_invoice :
  select_invoice_by_id invoiceId t' = [join_pharmacist t' new_row].
Proof.
  unfold select_invoice_by_id. rewrite committed_invoices, List.filter_app.
  rewrite filter_none.
  - simpl. unfold invoiceId. now rewrite Z.eqb_refl.
  - eapply List.Forall_impl; [|apply (wf_invoices _ Hwf)].
    simpl. intros r Hr. apply Z.eqb_neq. unfold invoiceId. lia.
Qed.

(** The items query finds the rows of this sale, in the order of [items]. *)
Lemma select_new_items :
  select_invoice_items invoiceId t'
  = map (join_medicine t')
      (inserted_items statements (next_item_id (ids d))).
Proof.
  unfold select_invoice_items. f_equal.
  rewrite committed_items, List.filter_app, filter_none, filter_all.
  - apply sort_inserted_items.
  - pose proof (sale_inserted_items e invoiceData (generated_number e d)
                  invoiceId items (next_item_id (ids d))) as H.
    exact (lines_invoice_id _ _ _ H).
  - eapply List.Forall_impl; [|apply (wf_items _ Hwf)].
    simpl. intros r Hr. apply Z.eqb_neq. unfold invoiceId. lia.
Qed.

(** What the final [findById] yields, according to which of its two reads
    fail. *)
Lemma refetch_new :
  refetch e invoiceId t'
  = if fails e FetchInvoice then None
    else if fails e FetchItems
    then Some (Invoice.new (join_pharmacist t' new_row))
    else Some (Invoice.set_items (Invoice.new (join_pharmacist t' new_row))
                 (map (join_medicine t')
                    (inserted_items statements (next_item_id (ids d))))).
Proof.
  unfold refetch, Invoice.findById, pool_execute. simpl.
  destruct (fails e FetchInvoice); [reflexivity|]. simpl.
  rewrite select_new_invoice. simpl.
  destruct (fails e FetchItems); [reflexivity|]. simpl.
  now rewrite select_new_items.
Qed.

End RefetchFacts.

(* ===================================================================== *)
(** * The sale transaction is all-or-nothing                              *)
(* ===================================================================== *)

Section Atomicity.
Import Db Database Props.

Lemma joined_lines (t : tables) (P : invoice_item_row -> Prop) id rows :
  forall items : list Sale.item,
  Forall2 (line_of id) rows items ->
  (forall r, In r rows -> P r) ->
  Forall2 (fun i item => line_of id (it_row i) item /\ P (it_row i))
    (map (join_medicine t) rows) items.
Proof.
  induction 1 as [|r i rs others Hl _ IH]; intros HP; simpl; constructor.
  - split; [exact Hl|]. apply HP. now left.
  - apply IH. intros r' Hr'. apply HP. now right.
Qed.

Lemma wf_fresh : wf Sample.fresh.
Proof. split; simpl; constructor. Qed.

Lemma wf_one_sold : wf Sample.one_sold.
Proof. split; simpl; repeat constructor. Qed.

(** C1, as amended.  Once the transaction is open, a call of [create] ends
    in one of two ways.  If a round trip from the invoice insert to the
    commit fails, or a statement violates a constraint, the committed tables
    are what they were before the call, and the call returns [null] (the
    rollback itself completing).  Otherwise every row of the sale is
    committed and the call returns what [findById] yields on the committed
    tables: when both reads of [findById] succeed, the invoice with the id
    and number of the inserted row, the pharmacist's name, and one stored
    line item per element of [items], in order. *)
Theorem create_all_or_nothing (e : env) (d : db) (invoiceData : Sale.header)
  (items : list Sale.item) :
  wf d -> opens e = true ->
  let c := Invoice.create e d invoiceData items in
  let invoiceId := next_invoice_id (ids d) in
  let statements := transaction_statements e d invoiceData items in
  ((spares e (transaction_steps (length items)) = false
    \/ (exists x, run statements (committed d) (ids d) = inl x)) ->
   committed (Invoice.final c) = committed d
   /\ (fails e Rollback = false ->
       Invoice.result c = Invoice.Returned None))
  /\ (forall t' c',
        spares e (transaction_steps (length items)) = true ->
        run statements (committed d) (ids d) = inr (t', c') ->
        Invoice.final c = {| committed := t'; ids := c' |}
        /\ Invoice.result c = Invoice.Returned (refetch e invoiceId t')
        /\ (fails e FetchInvoice = false -> fails e FetchItems = false ->
            exists invoice name,
              refetch e invoiceId t' = Some invoice
              /\ Invoice.id invoice = invoiceId
              /\ Invoice.invoice_number invoice = generated_number e d
              /\ users (committed d) !! Sale.pharmacist_id invoiceData
                 = Some name
              /\ Invoice.pharmacist_name invoice = Some name
              /\ In (invoice_row_of invoiceId
                       (Invoice.invoice_values_of e invoiceData
                          (generated_number e d)))
                    (invoices t')
              /\ Forall2
                   (fun i item =>
                      line_of invoiceId (it_row i) item
                      /\ In (it_row i) (invoice_items t'))
                   (Invoice.items invoice) items)).
Proof.
  intros Hwf Hopen c invoiceId statements. subst c invoiceId statements.
  pose proof (create_cases e d invoiceData items) as Hcases.
  cbv zeta in Hcases.
  destruct Hcases as [(Hno & _)|[(_ & Hfail & Hsame & Hres)
                                |(_ & Hs & t1 & c1 & Hrun & Hfin & Hres & _)]];
    [congruence| |].
  - split.
    + intros _. split; [exact Hsame|]. intros Hrb. now rewrite Hrb in Hres.
    + intros t' c' Hs Hrun. exfalso.
      destruct Hfail as [Hf|[x Hx]]; congruence.
  - split.
    + intros [Hf|[x Hx]]; congruence.
    + intros t' c' _ Hrun'. rewrite Hrun in Hrun'.
      injection Hrun' as <- <-.
      split; [exact Hfin|]. split; [exact Hres|].
      intros Hf1 Hf2.
      rewrite (refetch_new e d invoiceData items t1 c1 Hwf Hrun), Hf1, Hf2.
      destruct (pharmacist_known e d invoiceData items t1 c1 Hrun)
        as [name Hname].
      destruct (run_frame _ _ _ _ _ Hrun) as (HU & _).
      eexists _, name. split; [reflexivity|]. simpl.
      repeat split; auto.
      * unfold join_pharmacist. simpl. now rewrite HU.
      * rewrite (committed_invoices e d invoiceData items t1 c1 Hrun).
        apply in_or_app. right. now left.
      * apply (joined_lines t1 (fun r => In r (invoice_items t1))).
        -- apply (sale_inserted_items e invoiceData (generated_number e d)).
        -- intros r Hr.
           rewrite (committed_items e d invoiceData items t1 c1 Hrun).
           apply in_or_app. now right.
Qed.

End Atomicity.

Section AtomicityExamples.
Import Db Database Props.

(** C1 as stated fails: every round trip from the invoice insert to the
    commit succeeds, the sale is committed (an invoice row, a line item, the
    stock at 97 instead of 100), and the call still returns [null], because
    the first read of the final [findById] fails. *)
Lemma create_null_after_commit :
  let e := Sample.refetch_fails in
  let c := Invoice.create e Sample.fresh Sample.header [Sample.sell 1 3] in
  opens e = true
  /\ spares e (transaction_steps 1) = true
  /\ Invoice.result c = Invoice.Returned None
  /\ map inv_invoice_number (invoices (committed (Invoice.final c)))
     = ["INV-20240115-001"]
  /\ length (invoice_items (committed (Invoice.final c))) = 1%nat
  /\ stock_of 1 (committed Sample.fresh) = Some 100
  /\ stock_of 1 (committed (Invoice.final c)) = Some 97.
Proof. vm_compute. repeat split. Qed.

(** The insert of the second line item fails: the invoice row, the first
    line item, its stock update and its movement are rolled back. *)
Example rollback_after_first_item :
  let c :=
    Invoice.create Sample.second_item_fails Sample.fresh Sample.header
      [Sample.sell 1 3; Sample.sell 4 2] in
  Invoice.result c = Invoice.Returned None
  /\ committed (Invoice.final c) = committed Sample.fresh
  /\ length (Invoice.issued c) = 8%nat
  /\ List.last (Invoice.issued c) COMMIT = ROLLBACK.
Proof. vm_compute. repeat split. Qed.

Lemma create_all_or_nothing_witness :
  wf Sample.fresh
  /\ opens Sample.calm = true
  /\ exists t' c',
      run
        (transaction_statements Sample.calm Sample.fresh Sample.header
           [Sample.sell 1 3])
        (committed Sample.fresh) (ids Sample.fresh) = inr (t', c')
      /\ Invoice.final
           (Invoice.create Sample.calm Sample.fresh Sample.header
              [Sample.sell 1 3])
         = {| committed := t'; ids := c' |}.
Proof.
  split; [exact wf_fresh|]. split; [reflexivity|].
  eexists _, _. split; [vm_compute; reflexivity|].
  apply (proj2 (create_all_or_nothing Sample.calm Sample.fresh Sample.header
                  [Sample.sell 1 3] wf_fresh eq_refl));
    vm_compute; reflexivity.
Defined.

End AtomicityExamples.

(* ===================================================================== *)
(** * Stock and stock movements of a committed sale                       *)
(* ===================================================================== *)

Section CommittedSale.
Import Db Database Props.

Variables (e : env) (d : db) (invoiceData : Sale.header)
  (items : list Sale.item).

(** A call that returns an invoice has committed its transaction. *)
Lemma create_committed invoice :
  Invoice.result (Invoice.create e d invoiceData items)
  = Invoice.Returned (Some invoice) ->
  exists t' c',
    run (transaction_statements e d invoiceData items)
      (committed d) (ids d) = inr (t', c')
    /\ Invoice.final (Invoice.create e d invoiceData items)
       = {| committed := t'; ids := c' |}
    /\ refetch e (next_invoice_id (ids d)) t' = Some invoice.
Proof.
  intros Hres.
  destruct (create_cases e d invoiceData items)
    as [(_ & H & _)|[(_ & _ & _ & H)
                    |(_ & _ & t' & c' & Hrun & Hfin & H & _)]];
    rewrite Hres in H.
  - discriminate.
  - destruct (fails e Rollback); discriminate.
  - exists t', c'. repeat split; auto. now injection H.
Qed.

(** The invoice a call returns is the inserted row. *)
Lemma create_returned_row invoice t' c' :
  wf d ->
  run (transaction_statements e d invoiceData items)
    (committed d) (ids d) = inr (t', c') ->
  refetch e (next_invoice_id (ids d)) t' = Some invoice ->
  Invoice.id invoice = next_invoice_id (ids d)
  /\ Invoice.invoice_number invoice = generated_number e d.
Proof.
  intros Hwf Hrun. rewrite (refetch_new e d invoiceData items t' c' Hwf Hrun).
  destruct (fails e FetchInvoice); [discriminate|].
  destruct (fails e FetchItems); intros [= <-]; split; reflexivity.
Qed.

(** A medicine that a line item of a committed sale names is in the
    table. *)
Lemma run_medicine_known l m : forall t c t' c',
  run l t c = inr (t', c') ->
  Forall (fun s => overwrites_stock s = false) l ->
  (exists invoice_id quantity unit_price total_price,
      In (InsertInvoiceItem invoice_id m quantity unit_price total_price) l) ->
  exists r, medicines t !! m = Some r.
Proof.
  induction l as [|s l IH]; intros t c t' c' H Hrel (i & q & u & p & Hin);
    [destruct Hin|].
  simpl in H.
  destruct (apply_statement s t c) as [x|[[t1 c1] id1]] eqn:Hs;
    [discriminate|].
  inversion Hrel as [|? ? Hs_rel Hl_rel]; subst.
  destruct Hin as [->|Hin].
  - simpl in Hs. destruct (negb _); [discriminate|].
    destruct (bool_decide_reflect (medicines t !! m = None)) as [|Hm];
      [discriminate|].
    destruct (medicines t !! m) as [r|]; [now exists r|congruence].
  - destruct (IH _ _ _ _ H Hl_rel) as [r Hr]; [now exists i, q, u, p|].
    rewrite (apply_statement_medicines _ _ _ _ _ _ m Hs Hs_rel) in Hr.
    destruct (medicines t !! m) as [r0|]; [now exists r0|discriminate].
Qed.

Lemma sale_names_medicine invoiceNumber invoiceId m :
  In m (map Sale.medicine_id items) ->
  exists invoice_id quantity unit_price total_price,
    In (InsertInvoiceItem invoice_id m quantity unit_price total_price)
      (Invoice.sale_statements e invoiceData invoiceNumber invoiceId
         items).
Proof.
  intros Hin. apply in_map_iff in Hin as (i & <- & Hi).
  exists invoiceId, (Sale.quantity i), (Sale.unit_price i),
    (Sale.total_price i).
  right. apply in_flat_map. exists i. split; [exact Hi|]. now left.
Qed.

Variables (t' : tables) (c' : counters).
Hypothesis Hrun :
  run (transaction_statements e d invoiceData items)
    (committed d) (ids d) = inr (t', c').

(** The stock after the commit. *)
Lemma committed_stock m :
  stock_of m t'
  = (fun q => q - Sale.quantity_sold m items)
    <$> stock_of m (committed d).
Proof.
  rewrite (run_stock _ m _ _ _ _ Hrun) by apply sale_never_overwrites.
  unfold transaction_statements. now rewrite sale_stock_taken.
Qed.

Lemma committed_medicine_known m :
  In m (map Sale.medicine_id items) ->
  exists q, stock_of m (committed d) = Some q.
Proof.
  intros Hin.
  destruct (run_medicine_known _ m _ _ _ _ Hrun) as [r Hr].
  - apply sale_never_overwrites.
  - now apply sale_names_medicine.
  - exists (quantity_in_stock r). unfold stock_of.
    now rewrite Hr.
Qed.

(** The sale movements of the new invoice after the commit: one per line
    item. *)
Lemma committed_sale_movements m :
  wf d ->
  length
    (List.filter (sale_movement_of m (next_invoice_id (ids d)))
       (stock_movements t'))
  = Sale.lines_of m items.
Proof.
  intros Hwf.
  rewrite (committed_movements e d invoiceData items t' c' Hrun).
  rewrite List.filter_app, length_app, filter_none.
  - unfold transaction_statements.
    now rewrite sale_inserted_movements_count.
  - eapply List.Forall_impl; [|apply (wf_movements _ Hwf)].
    simpl. intros r Hr. unfold sale_movement_of.
    destruct (mov_movement_type r), (mov_reference_type r),
      (mov_reference_id r) as [ref|]; try reflexivity.
    specialize (Hr ref eq_refl).
    apply andb_false_iff. right. apply Z.eqb_neq. lia.
Qed.

End CommittedSale.

Section StockClaims.
Import Db Database Props.

(** C2, as amended.  After a call of [create] that returns an invoice, every
    medicine named in [items] has its earlier stock less the units sold of
    it, and the [out]/[sale] movements that refer to the new invoice and to
    that medicine are as many as the line items naming it: one per line
    item, hence exactly one when a single line names the medicine. *)
Theorem sale_stock_and_movements (e : env) (d : db)
  (invoiceData : Sale.header) (items : list Sale.item) (invoice : Invoice.t)
  (m : Z) :
  wf d ->
  Invoice.result (Invoice.create e d invoiceData items)
  = Invoice.Returned (Some invoice) ->
  In m (map Sale.medicine_id items) ->
  let after :=
    committed (Invoice.final (Invoice.create e d invoiceData items)) in
  (exists q,
      stock_of m (committed d) = Some q
      /\ stock_of m after = Some (q - Sale.quantity_sold m items))
  /\ length
       (List.filter (sale_movement_of m (Invoice.id invoice))
          (stock_movements after))
     = Sale.lines_of m items.
Proof.
  intros Hwf Hres Hin after. subst after.
  destruct (create_committed e d invoiceData items invoice Hres)
    as (t' & c' & Hrun & Hfin & Hre).
  destruct (create_returned_row e d invoiceData items invoice t' c'
              Hwf Hrun Hre) as [Hid _].
  rewrite Hfin, Hid. simpl committed. split.
  - destruct (committed_medicine_known e d invoiceData items t' c' Hrun m Hin)
      as [q Hq].
    exists q. split; [exact Hq|].
    rewrite (committed_stock e d invoiceData items t' c' Hrun m), Hq.
    reflexivity.
  - now apply (committed_sale_movements e d invoiceData items t' c').
Qed.

(** C2 as stated fails: a sale with two line items for medicine 1 succeeds
    and leaves two [out]/[sale] movements for that medicine and the new
    invoice, not one. *)
Lemma two_lines_two_movements :
  let c :=
    Invoice.create Sample.calm Sample.fresh Sample.header
      [Sample.sell 1 1; Sample.sell 1 2] in
  (exists invoice,
      Invoice.result c = Invoice.Returned (Some invoice)
      /\ Invoice.id invoice = 1)
  /\ length
       (List.filter (sale_movement_of 1 1)
          (stock_movements (committed (Invoice.final c))))
     = 2%nat.
Proof. vm_compute. split; [eexists; split; reflexivity|reflexivity]. Qed.

Lemma sale_stock_and_movements_witness :
  wf Sample.fresh
  /\ exists invoice,
      let c :=
        Invoice.create Sample.calm Sample.fresh Sample.header
          [Sample.sell 1 3] in
      Invoice.result c = Invoice.Returned (Some invoice)
      /\ In 1 (map Sale.medicine_id [Sample.sell 1 3])
      /\ (exists q,
             stock_of 1 (committed Sample.fresh) = Some q
             /\ stock_of 1 (committed (Invoice.final c))
                = Some (q - 3))
      /\ length
           (List.filter (sale_movement_of 1 (Invoice.id invoice))
              (stock_movements (committed (Invoice.final c))))
         = 1%nat.
Proof.
  split; [exact wf_fresh|]. eexists. cbv zeta.
  split; [vm_compute; reflexivity|].
  split; [simpl; auto|].
  eapply (sale_stock_and_movements Sample.calm Sample.fresh Sample.header
            [Sample.sell 1 3] _ 1 wf_fresh).
  - vm_compute. reflexivity.
  - simpl. auto.
Defined.

(** C3, as amended.  The decrement is unconditional: after a call of
    [create] that returns an invoice, the stock of a medicine is its earlier
    stock less the units sold of it, which is non-negative exactly when the
    units sold do not exceed the earlier stock. *)
Theorem sale_stock_sign (e : env) (d : db) (invoiceData : Sale.header)
  (items : list Sale.item) (invoice : Invoice.t) (m q : Z) :
  Invoice.result (Invoice.create e d invoiceData items)
  = Invoice.Returned (Some invoice) ->
  stock_of m (committed d) = Some q ->
  exists q',
    stock_of m
      (committed (Invoice.final (Invoice.create e d invoiceData items)))
    = Some q'
    /\ q' = q - Sale.quantity_sold m items
    /\ (0 <= q' <-> Sale.quantity_sold m items <= q).
Proof.
  intros Hres Hq.
  destruct (create_committed e d invoiceData items invoice Hres)
    as (t' & c' & Hrun & Hfin & _).
  exists (q - Sale.quantity_sold m items).
  rewrite Hfin. simpl committed.
  rewrite (committed_stock e d invoiceData items t' c' Hrun m), Hq.
  repeat split; lia.
Qed.

(** C3 as stated fails: selling 15 units of a medicine with 10 in stock
    succeeds and leaves the stock at -5. *)
Lemma oversell_goes_negative :
  let c :=
    Invoice.create Sample.calm Sample.fresh Sample.header
      [Sample.sell 4 15] in
  (exists invoice, Invoice.result c = Invoice.Returned (Some invoice))
  /\ stock_of 4 (committed Sample.fresh) = Some 10
  /\ stock_of 4 (committed (Invoice.final c)) = Some (-5).
Proof. vm_compute. split; [eexists; reflexivity|split; reflexivity]. Qed.

Lemma sale_stock_sign_witness :
  exists invoice,
    let c :=
      Invoice.create Sample.calm Sample.fresh Sample.header
        [Sample.sell 4 3] in
    Invoice.result c = Invoice.Returned (Some invoice)
    /\ stock_of 4 (committed Sample.fresh) = Some 10
    /\ exists q',
        stock_of 4 (committed (Invoice.final c)) = Some q'
        /\ q' = 10 - Sale.quantity_sold 4 [Sample.sell 4 3]
        /\ (0 <= q' <-> Sale.quantity_sold 4 [Sample.sell 4 3] <= 10).
Proof.
  eexists. cbv zeta.
  split; [vm_compute; reflexivity|].
  split; [vm_compute; reflexivity|].
  eapply (sale_stock_sign Sample.calm Sample.fresh Sample.header
            [Sample.sell 4 3] _ 4 10).
  - vm_compute. reflexivity.
  - vm_compute. reflexivity.
Defined.

End StockClaims.

(* ===================================================================== *)
(** * Invariants of a call                                                *)
(* ===================================================================== *)

Section CallInvariants.
Import Db Database Props.

Lemma sale_inserted_movements_reference e invoiceData invoiceNumber invoiceId
  items : forall next,
  Forall (fun r => mov_reference_id r = Some invoiceId)
    (inserted_movements
       (Invoice.sale_statements e invoiceData invoiceNumber invoiceId
          items) next).
Proof.
  simpl. induction items as [|i items IH]; intros next; simpl;
    constructor; auto.
Qed.

(** A committed sale keeps the ids fresh. *)
Lemma wf_committed e d invoiceData items t' c' :
  wf d ->
  run (transaction_statements e d invoiceData items)
    (committed d) (ids d) = inr (t', c') ->
  wf {| committed := t'; ids := c' |}.
Proof.
  intros Hwf Hrun.
  destruct (committed_counters e d invoiceData items t' c' Hrun)
    as (HI & _).
  split; simpl; rewrite HI.
  - rewrite (committed_invoices e d invoiceData items t' c' Hrun).
    apply Forall_app. split.
    + eapply List.Forall_impl; [|apply (wf_invoices _ Hwf)].
      simpl. intros; lia.
    + repeat constructor. simpl. lia.
  - rewrite (committed_items e d invoiceData items t' c' Hrun).
    apply Forall_app. split.
    + eapply List.Forall_impl; [|apply (wf_items _ Hwf)].
      simpl. intros; lia.
    + eapply List.Forall_impl;
        [|apply (lines_invoice_id (next_invoice_id (ids d)) _ items),
            sale_inserted_items].
      simpl. intros r Hr. apply Z.eqb_eq in Hr. lia.
  - rewrite (committed_movements e d invoiceData items t' c' Hrun).
    apply Forall_app. split.
    + eapply List.Forall_impl; [|apply (wf_movements _ Hwf)].
      simpl. intros r Hr ref Href. specialize (Hr ref Href). lia.
    + eapply List.Forall_impl; [|apply sale_inserted_movements_reference].
      simpl. intros r Hr ref Href. rewrite Hr in Href.
      injection Href as <-. lia.
Qed.

Lemma ids_le_refl c : ids_le c c.
Proof. unfold ids_le. lia. Qed.

Lemma ids_le_trans c1 c2 c3 : ids_le c1 c2 -> ids_le c2 c3 -> ids_le c1 c3.
Proof. unfold ids_le. lia. Qed.

Lemma steady_refl w : steady w w.
Proof. split; [apply ids_le_refl|auto]. Qed.

Lemma steady_trans w1 w2 w3 : steady w1 w2 -> steady w2 w3 -> steady w1 w3.
Proof.
  intros [H1 K1] [H2 K2]. split; [eapply ids_le_trans; eauto|auto].
Qed.

Lemma relative_only_send s w :
  overwrites_stock s = false ->
  relative_only w -> relative_only (send s w).
Proof.
  intros Hs Hw. unfold relative_only, send. simpl.
  apply Forall_app. split; [exact Hw|]. now repeat constructor.
Qed.

Lemma steady_send s w :
  overwrites_stock s = false -> steady w (send s w).
Proof.
  intros Hs. split; [apply ids_le_refl|now apply relative_only_send].
Qed.

Lemma keeps_bind {A B : Type} (m : M A) (k : A -> M B) :
  keeps_steady m -> (forall a, keeps_steady (k a)) ->
  keeps_steady (bind m k).
Proof.
  intros Hm Hk w r w' E. unfold bind in E.
  destruct (m w) as [[x|a] w1] eqn:E1.
  - injection E as <- <-. exact (Hm _ _ _ E1).
  - exact (steady_trans _ _ _ (Hm _ _ _ E1) (Hk a _ _ _ E)).
Qed.

Lemma keeps_ret {A : Type} (a : A) : keeps_steady (ret a).
Proof. intros w r w' [= <- <-]. apply steady_refl. Qed.

Lemma keeps_connection_execute e st s :
  overwrites_stock s = false ->
  keeps_steady (connection_execute e st s).
Proof.
  intros Hs w r w' E. unfold connection_execute in E. simpl in E.
  destruct (fails e st); [injection E as <- <-; now apply steady_send|].
  destruct (apply_statement s (w_working w) (w_ids w))
    as [x|[[t c] id]] eqn:Ha;
    injection E as <- <-; [now apply steady_send|].
  apply apply_statement_frame in Ha
    as (_ & _ & _ & _ & _ & NI & NT & NM).
  split; simpl.
  - unfold ids_le. lia.
  - intros Hw. apply Forall_app. split; [exact Hw|]. now repeat constructor.
Qed.

Lemma keeps_insert_items e invoiceData invoiceNumber invoiceId items :
  forall k,
  keeps_steady
    (Invoice.insert_items e invoiceData invoiceNumber invoiceId k items).
Proof.
  induction items as [|i items IH]; intros k; simpl; [apply keeps_ret|].
  repeat (apply keeps_bind; [now apply keeps_connection_execute|intros _]).
  apply IH.
Qed.

Lemma keeps_create_transaction e invoiceData items :
  keeps_steady (Invoice.create_transaction e invoiceData items).
Proof.
  unfold Invoice.create_transaction.
  apply keeps_bind.
  { intros w r w' E. rewrite generateInvoiceNumber_world in E.
    injection E as <- <-. now apply steady_send. }
  intros n. apply keeps_bind; [now apply keeps_connection_execute|].
  intros id. apply keeps_bind; [apply keeps_insert_items|].
  intros _. apply keeps_bind; [|intros _; apply keeps_ret].
  intros w r w' E. unfold commitTransaction in E.
  destruct (fails e Commit); injection E as <- <-;
    now apply (steady_send COMMIT).
Qed.

Lemma findById_steady e id w :
  steady w (snd (Invoice.findById e id w)).
Proof.
  unfold Invoice.findById, pool_execute. simpl.
  destruct (fails e FetchInvoice); simpl; [now apply steady_send|].
  destruct (select_invoice_by_id id (w_committed w)); simpl;
    [now apply steady_send|].
  destruct (fails e FetchItems); simpl;
    (eapply steady_trans; [|now apply steady_send]); now apply steady_send.
Qed.

(** Whatever its outcome, a call leaves the counters at least where they
    were and sends no statement that overwrites a stock value. *)
Lemma create_steady e d invoiceData items :
  ids_le (ids d) (ids (Invoice.final (Invoice.create e d invoiceData items)))
  /\ Forall (fun s => overwrites_stock s = false)
       (Invoice.issued (Invoice.create e d invoiceData items)).
Proof.
  assert (H : forall w,
             steady (open_world d) w ->
             ids_le (ids d) (w_ids w)
             /\ Forall (fun s => overwrites_stock s = false)
                  (w_issued w)).
  { intros w [Hi Hr]. split; [exact Hi|]. apply Hr. constructor. }
  unfold Invoice.create, beginTransaction. simpl.
  destruct (fails e GetConnection);
    [apply (H (open_world d)), steady_refl|].
  destruct (fails e BeginTransaction);
    [apply (H (send START_TRANSACTION (open_world d))), steady_send;
     reflexivity|].
  set (w0 := {| w_committed := committed d; w_working := committed d;
                w_ids := ids d; w_issued := [START_TRANSACTION] |}).
  assert (H0 : steady (open_world d) w0)
    by (apply (steady_send START_TRANSACTION (open_world d)); reflexivity).
  destruct (Invoice.create_transaction e invoiceData items w0)
    as [[x|id] w1] eqn:E;
    pose proof (steady_trans _ _ _ H0
                  (keeps_create_transaction e invoiceData items _ _ _ E))
      as H1.
  - unfold rollbackTransaction.
    destruct (fails e Rollback); simpl;
      apply (H (send ROLLBACK w1));
      (eapply steady_trans; [exact H1|]); now apply steady_send.
  - pose proof (findById_steady e id w1) as H2.
    destruct (Invoice.findById e id w1) as [invoice w2]. simpl in H2.
    apply (H w2). eapply steady_trans; eauto.
Qed.

Lemma create_never_overwrites_stock e d invoiceData items :
  Forall (fun s => overwrites_stock s = false)
    (Invoice.issued (Invoice.create e d invoiceData items)).
Proof. apply create_steady. Qed.

Lemma wf_ids_le t c c' :
  wf {| committed := t; ids := c |} -> ids_le c c' ->
  wf {| committed := t; ids := c' |}.
Proof.
  intros [H1 H2 H3] (HI & _). simpl in *. split; simpl.
  - eapply List.Forall_impl; [|exact H1]. simpl. intros; lia.
  - eapply List.Forall_impl; [|exact H2]. simpl. intros; lia.
  - eapply List.Forall_impl; [|exact H3]. simpl.
    intros r Hr ref Href. specialize (Hr ref Href). lia.
Qed.

(** Freshness of the ids is an invariant of [create]. *)
Lemma create_preserves_wf e d invoiceData items :
  wf d -> wf (Invoice.final (Invoice.create e d invoiceData items)).
Proof.
  intros Hwf.
  destruct (create_steady e d invoiceData items) as [Hids _].
  destruct (create_cases e d invoiceData items)
    as [(_ & _ & ->)|[(_ & _ & Hsame & _)
                     |(_ & _ & t' & c' & Hrun & -> & _)]].
  - exact Hwf.
  - destruct (Invoice.final _) as [t1 c1]. simpl in *. subst t1.
    apply wf_ids_le with (c := ids d); [now destruct d|exact Hids].
  - eapply wf_committed; eauto.
Qed.

End CallInvariants.

(* ===================================================================== *)
(** * Submitting a sale twice                                             *)
(* ===================================================================== *)

Section Resubmission.
Import Db Database Props.

(** A call that nothing stops returns an invoice, and conversely. *)
Lemma goes_through_returns e d invoiceData items :
  wf d ->
  goes_through e d invoiceData items <->
  exists invoice,
    Invoice.result (Invoice.create e d invoiceData items)
    = Invoice.Returned (Some invoice).
Proof.
  intros Hwf. split.
  - intros (Hopen & Hs & Hf & t' & c' & Hrun).
    destruct (create_cases e d invoiceData items)
      as [(H & _)|[(_ & [H|[x H]] & _)
                  |(_ & _ & t1 & c1 & Hrun1 & _ & H & _)]];
      try congruence.
    rewrite Hrun in Hrun1. injection Hrun1 as <- <-.
    rewrite H, (refetch_new e d invoiceData items t' c' Hwf Hrun), Hf.
    destruct (fails e FetchItems); eexists; reflexivity.
  - intros [invoice Hres].
    destruct (create_cases e d invoiceData items)
      as [(_ & H & _)|[(_ & _ & _ & H)
                      |(Hopen & Hs & t' & c' & Hrun & _ & H & _)]];
      rewrite Hres in H.
    + discriminate.
    + destruct (fails e Rollback); discriminate.
    + repeat split; auto; [|now exists t', c'].
      rewrite (refetch_new e d invoiceData items t' c' Hwf Hrun) in H.
      destruct (fails e FetchInvoice); [discriminate|reflexivity].
Qed.

(** Two calls in sequence that both return an invoice. *)
Lemma create_twice (e1 e2 : env) (d : db)
  (invoiceData : Sale.header) (items : list Sale.item)
  (first second : Invoice.t) :
  wf d ->
  let c1 := Invoice.create e1 d invoiceData items in
  let c2 := Invoice.create e2 (Invoice.final c1) invoiceData items in
  Invoice.result c1 = Invoice.Returned (Some first) ->
  Invoice.result c2 = Invoice.Returned (Some second) ->
  Invoice.id first <> Invoice.id second
  /\ Invoice.invoice_number first <> Invoice.invoice_number second
  /\ (forall invoice, invoice = first \/ invoice = second ->
      In (Invoice.id invoice, Invoice.invoice_number invoice)
        (map (fun r => (inv_id r, inv_invoice_number r))
           (invoices (committed (Invoice.final c2)))))
  /\ (forall m q,
        stock_of m (committed d) = Some q ->
        stock_of m (committed (Invoice.final c2))
        = Some (q - 2 * Sale.quantity_sold m items)).
Proof.
  intros Hwf c1 c2 Hres1 Hres2. subst c2.
  destruct (create_committed e1 d invoiceData items first Hres1)
    as (t1 & k1 & Hrun1 & Hfin1 & Hre1).
  destruct (create_returned_row e1 d invoiceData items first t1 k1
              Hwf Hrun1 Hre1) as [Hid1 Hn1].
  pose proof (wf_committed e1 d invoiceData items t1 k1 Hwf Hrun1) as Hwf1.
  subst c1. rewrite Hfin1 in *.
  set (d1 := {| committed := t1; ids := k1 |}) in *.
  destruct (create_committed e2 d1 invoiceData items second Hres2)
    as (t2 & k2 & Hrun2 & Hfin2 & Hre2).
  destruct (create_returned_row e2 d1 invoiceData items second t2 k2
              Hwf1 Hrun2 Hre2) as [Hid2 Hn2].
  destruct (committed_counters e1 d invoiceData items t1 k1 Hrun1)
    as (HI1 & _).
  pose proof (committed_invoices e1 d invoiceData items t1 k1 Hrun1) as Hinv1.
  pose proof (committed_invoices e2 d1 invoiceData items t2 k2 Hrun2)
    as Hinv2.
  rewrite Hfin2. simpl committed. simpl in Hid2, Hinv2.
  split; [rewrite Hid1, Hid2; lia|].
  split.
  { intros Heq.
    pose proof (number_was_free e2 d1 invoiceData items t2 k2 Hrun2) as Hfree.
    unfold number_taken in Hfree. simpl in Hfree.
    rewrite Hinv1, existsb_app in Hfree. simpl in Hfree.
    rewrite <- Hn2, <- Heq, Hn1, String.eqb_refl, orb_true_r in Hfree.
    discriminate. }
  split.
  { intros invoice [->| ->]; rewrite Hinv2, Hinv1, !map_app;
      apply in_or_app.
    - left. apply in_or_app. right. left. simpl. now rewrite Hid1, Hn1.
    - right. left. simpl. now rewrite Hid2, Hn2. }
  intros m q Hq.
  rewrite (committed_stock e2 d1 invoiceData items t2 k2 Hrun2 m).
  simpl committed.
  rewrite (committed_stock e1 d invoiceData items t1 k1 Hrun1 m), Hq.
  simpl. f_equal. lia.
Qed.

(** C9.  The same [invoiceData] and [items] submitted twice in sequence,
    nothing stopping either call: each call returns an invoice; the two
    invoices have different ids and different numbers, both are stored, and
    the stock of every medicine is its stock before the first call less
    twice the units sold of it. *)
Theorem create_is_not_idempotent (e1 e2 : env) (d : db)
  (invoiceData : Sale.header) (items : list Sale.item) :
  wf d ->
  let c1 := Invoice.create e1 d invoiceData items in
  let c2 := Invoice.create e2 (Invoice.final c1) invoiceData items in
  goes_through e1 d invoiceData items ->
  goes_through e2 (Invoice.final c1) invoiceData items ->
  exists first second,
    Invoice.result c1 = Invoice.Returned (Some first)
    /\ Invoice.result c2 = Invoice.Returned (Some second)
    /\ Invoice.id first <> Invoice.id second
    /\ Invoice.invoice_number first <> Invoice.invoice_number second
    /\ (forall invoice, invoice = first \/ invoice = second ->
        In (Invoice.id invoice, Invoice.invoice_number invoice)
          (map (fun r => (inv_id r, inv_invoice_number r))
             (invoices (committed (Invoice.final c2)))))
    /\ (forall m q,
          stock_of m (committed d) = Some q ->
          stock_of m (committed (Invoice.final c2))
          = Some (q - 2 * Sale.quantity_sold m items)).
Proof.
  intros Hwf c1 c2 H1 H2.
  apply (goes_through_returns e1 d invoiceData items Hwf) in H1
    as [first Hres1].
  pose proof (create_preserves_wf e1 d invoiceData items Hwf) as Hwf1.
  apply (goes_through_returns e2 _ invoiceData items Hwf1) in H2
    as [second Hres2].
  exists first, second.
  split; [exact Hres1|]. split; [exact Hres2|].
  exact (create_twice e1 e2 d invoiceData items first second Hwf
           Hres1 Hres2).
Qed.

Lemma create_is_not_idempotent_witness :
  wf Sample.fresh
  /\ goes_through Sample.calm Sample.fresh Sample.header [Sample.sell 1 3]
  /\ exists first second,
      let c1 :=
        Invoice.create Sample.calm Sample.fresh Sample.header
          [Sample.sell 1 3] in
      let c2 :=
        Invoice.create Sample.calm (Invoice.final c1) Sample.header
          [Sample.sell 1 3] in
      Invoice.result c1 = Invoice.Returned (Some first)
      /\ Invoice.result c2 = Invoice.Returned (Some second)
      /\ Invoice.invoice_number first = "INV-20240115-001"
      /\ Invoice.invoice_number second = "INV-20240115-002"
      /\ Invoice.id first <> Invoice.id second
      /\ Invoice.invoice_number first <> Invoice.invoice_number second
      /\ stock_of 1 (committed (Invoice.final c2)) = Some 94.
Proof.
  assert (G1 : goes_through Sample.calm Sample.fresh Sample.header
                 [Sample.sell 1 3]).
  { repeat split; try reflexivity. eexists _, _. vm_compute. reflexivity. }
  assert (G2 : goes_through Sample.calm
                 (Invoice.final
                    (Invoice.create Sample.calm Sample.fresh Sample.header
                       [Sample.sell 1 3]))
                 Sample.header [Sample.sell 1 3]).
  { repeat split; try reflexivity. eexists _, _. vm_compute. reflexivity. }
  split; [exact wf_fresh|]. split; [exact G1|].
  destruct (create_is_not_idempotent Sample.calm Sample.calm Sample.fresh
              Sample.header [Sample.sell 1 3] wf_fresh G1 G2)
    as (first & second & R1 & R2 & Hid & Hn & _ & Hstock).
  exists first, second. cbv zeta.
  split; [exact R1|]. split; [exact R2|].
  assert (E1 : Invoice.invoice_number first = "INV-20240115-001").
  { vm_compute in R1. injection R1 as <-. reflexivity. }
  assert (E2 : Invoice.invoice_number second = "INV-20240115-002").
  { vm_compute in R2. injection R2 as <-. reflexivity. }
  split; [exact E1|]. split; [exact E2|].
  split; [exact Hid|]. split; [exact Hn|].
  exact (Hstock 1 100 eq_refl).
Defined.

End Resubmission.

(* ===================================================================== *)
(** * A collision of invoice numbers, an empty sale                       *)
(* ===================================================================== *)

Section Rejections.
Import Db Database Props.

(** C5, as amended.  When the generated invoice number is already taken,
    the invoice INSERT is sent once, the transaction is rolled back, the
    committed tables stay as they were and the call returns [null] (the
    rollback itself completing): no second number is generated and no
    second INSERT is sent. *)
Theorem create_gives_up_on_collision (e : env) (d : db)
  (invoiceData : Sale.header) (items : list Sale.item) :
  opens e = true ->
  number_taken (generated_number e d) (committed d) = true ->
  let c := Invoice.create e d invoiceData items in
  committed (Invoice.final c) = committed d
  /\ (fails e Rollback = false -> Invoice.result c = Invoice.Returned None)
  /\ Invoice.issued c
     = [ START_TRANSACTION;
         SelectLastInvoiceNumber (Invoice.prefix (now e) +:+ "%");
         InsertInvoice
           (Invoice.invoice_values_of e invoiceData (generated_number e d));
         ROLLBACK ].
Proof.
  intros Hopen Htaken c. subst c.
  unfold opens in Hopen. apply andb_prop in Hopen as [Hg Hb].
  apply negb_true_iff in Hg, Hb.
  unfold Invoice.create, beginTransaction. simpl. rewrite Hg, Hb.
  unfold Invoice.create_transaction, bind.
  rewrite generateInvoiceNumber_world.
  assert (Hd : close_world
                 {| w_committed := committed d; w_working := committed d;
                    w_ids := ids d; w_issued := [START_TRANSACTION] |} = d)
    by now destruct d.
  rewrite Hd. unfold connection_execute, rollbackTransaction. simpl.
  rewrite Htaken.
  destruct (fails e InsertInvoiceRow), (fails e Rollback); simpl;
    repeat split; intros; discriminate.
Qed.

(** C5 as stated fails: the day's first number is taken and the lookup of
    the last number fails, so the number generated is that first number
    again; the INSERT raises the duplicate-key error, and the call returns
    [null] after that one INSERT. *)
Lemma collision_is_not_retried :
  let e := Sample.lookup_fails in
  let d := Sample.one_sold in
  let c := Invoice.create e d Sample.header [Sample.sell 1 3] in
  let insert :=
    InsertInvoice
      (Invoice.invoice_values_of e Sample.header "INV-20240115-001") in
  apply_statement insert (committed d) (ids d) = inl ER_DUP_ENTRY
  /\ Invoice.result c = Invoice.Returned None
  /\ Invoice.issued c
     = [ START_TRANSACTION; SelectLastInvoiceNumber "INV-20240115%";
         insert; ROLLBACK ].
Proof. vm_compute. repeat split. Qed.

Lemma create_gives_up_on_collision_witness :
  opens Sample.lookup_fails = true
  /\ number_taken (generated_number Sample.lookup_fails Sample.one_sold)
       (committed Sample.one_sold) = true
  /\ let c :=
       Invoice.create Sample.lookup_fails Sample.one_sold Sample.header
         [Sample.sell 1 3] in
     committed (Invoice.final c) = committed Sample.one_sold
     /\ (fails Sample.lookup_fails Rollback = false ->
         Invoice.result c = Invoice.Returned None)
     /\ Invoice.issued c
        = [ START_TRANSACTION;
            SelectLastInvoiceNumber
              (Invoice.prefix (now Sample.lookup_fails) +:+ "%");
            InsertInvoice
              (Invoice.invoice_values_of Sample.lookup_fails Sample.header
                 (generated_number Sample.lookup_fails Sample.one_sold));
            ROLLBACK ].
Proof.
  split; [reflexivity|]. split; [vm_compute; reflexivity|].
  apply (create_gives_up_on_collision Sample.lookup_fails Sample.one_sold
           Sample.header [Sample.sell 1 3]).
  - reflexivity.
  - vm_compute. reflexivity.
Defined.

(** C7, as amended.  The route rejects a request whose [items] is empty, or
    not an array, with status 400 before any statement is sent: the server
    state is untouched. *)
Theorem empty_sale_rejected_by_route (e : env) (d : db)
  (session_user_id : Z) (b : Pharmacist.body) :
  Pharmacist.items b = Some [] \/ Pharmacist.items b = None ->
  Pharmacist.post_sales_invoice e d session_user_id b
  = (Pharmacist.reply 400 false "At least one item is required", d, []).
Proof.
  intros Hb. unfold Pharmacist.post_sales_invoice, Pharmacist.validationResult,
    Pharmacist.items_valid.
  destruct Hb as [-> | ->]; reflexivity.
Qed.

(** C7 as stated fails: called with an empty [items], [create] itself does
    not object; it commits an invoice without line items and returns it. *)
Lemma create_accepts_empty_items :
  let c := Invoice.create Sample.calm Sample.fresh Sample.header [] in
  (exists invoice,
      Invoice.result c = Invoice.Returned (Some invoice)
      /\ Invoice.items invoice = [])
  /\ invoices (committed Sample.fresh) = []
  /\ map inv_invoice_number (invoices (committed (Invoice.final c)))
     = ["INV-20240115-001"]
  /\ invoice_items (committed (Invoice.final c)) = [].
Proof.
  vm_compute. split; [eexists; split; reflexivity|repeat split].
Qed.

Lemma empty_sale_rejected_by_route_witness :
  Pharmacist.items (Sample.request (Some [])) = Some []
  /\ Pharmacist.post_sales_invoice Sample.calm Sample.fresh 2
       (Sample.request (Some []))
     = (Pharmacist.reply 400 false "At least one item is required",
        Sample.fresh, []).
Proof.
  split; [reflexivity|].
  apply (empty_sale_rejected_by_route Sample.calm Sample.fresh 2
           (Sample.request (Some []))).
  left. reflexivity.
Defined.

End Rejections.

(* ===================================================================== *)
(** * Invoice numbers                                                     *)
(* ===================================================================== *)

Section Numbering.
Import Db Database Props.

(** [ORDER BY id DESC LIMIT 1] over a non-empty selection: a row of the
    selection that no other row exceeds. *)
Lemma fold_later_invoice l : forall b,
  exists r,
    fold_left later_invoice l (Some b) = Some r
    /\ In r (b :: l)
    /\ forall x, In x (b :: l) -> inv_id x <= inv_id r.
Proof.
  induction l as [|y l IH]; intros b.
  - exists b. simpl. repeat split; [now left|]. intros x [<-|[]]. lia.
  - cbn [fold_left later_invoice].
    destruct (inv_id b <? inv_id y) eqn:E.
    + apply Z.ltb_lt in E. destruct (IH y) as (r & Hr & Hin & Hmax).
      exists r. split; [exact Hr|]. split; [now right|].
      intros x [<-|Hx]; [|now apply Hmax].
      specialize (Hmax y (or_introl eq_refl)). lia.
    + apply Z.ltb_ge in E. destruct (IH b) as (r & Hr & Hin & Hmax).
      exists r. split; [exact Hr|]. split.
      * destruct Hin as [<-|Hin]; [now left|now right; right].
      * intros x [<-|[<-|Hx]].
        -- apply Hmax. now left.
        -- specialize (Hmax b (or_introl eq_refl)). lia.
        -- apply Hmax. now right.
Qed.

Lemma last_invoice_like_spec p t :
  match last_invoice_like p t with
  | None =>
      Forall (fun r => like_prefix p (inv_invoice_number r) = false)
        (invoices t)
  | Some r =>
      In r (invoices t)
      /\ like_prefix p (inv_invoice_number r) = true
      /\ forall x, In x (invoices t) ->
                   like_prefix p (inv_invoice_number x) = true ->
                   inv_id x <= inv_id r
  end.
Proof.
  unfold last_invoice_like.
  set (f := fun r => like_prefix p (inv_invoice_number r)).
  destruct (List.filter f (invoices t)) as [|b l] eqn:E.
  - simpl. apply List.Forall_forall. intros r Hr.
    destruct (f r) eqn:Hf; [|exact Hf].
    assert (Hin : In r (List.filter f (invoices t)))
      by (apply filter_In; auto).
    rewrite E in Hin. destruct Hin.
  - cbn [fold_left later_invoice].
    destruct (fold_later_invoice l b) as (r & -> & Hin & Hmax).
    rewrite <- E in Hin. apply filter_In in Hin as [Hin Hf].
    repeat split; auto.
    intros x Hx Hfx. apply Hmax. rewrite <- E. apply filter_In. auto.
Qed.

Lemma repeat_char_append_length c k s :
  String.length (Js.repeat_char c k +:+ s) = (k + String.length s)%nat.
Proof. induction k as [|k IH]; simpl; [reflexivity|now rewrite IH]. Qed.

Lemma padStart_length s n c : (n <= String.length (Js.padStart s n c))%nat.
Proof. unfold Js.padStart. rewrite repeat_char_append_length. lia. Qed.

Lemma digits_have_no_dash s :
  Js.forall_chars Js.is_digit s = true ->
  Js.forall_chars (fun c => negb (Ascii.eqb c "-")) s = true.
Proof.
  apply forall_chars_impl. intros c Hc.
  rewrite (digit_not_char c "-" Hc); [reflexivity|].
  vm_compute. left. reflexivity.
Qed.

(** The number that follows a well-formed last number. *)
Lemma next_number_after p n :
  0 <= n < Js.MAX_SAFE_INTEGER ->
  Invoice.next_number p
    {| success := true;
       data := Some (p +:+ "-" +:+ Js.padStart (Js.String_ (Some n)) 3 "0");
       error := None |}
  = p +:+ "-" +:+ Js.padStart (Js.String_ (Some (n + 1))) 3 "0".
Proof.
  intros Hn. unfold Invoice.next_number. cbn [success data].
  change (p +:+ "-" +:+ Js.padStart (Js.String_ (Some n)) 3 "0")
    with (p +:+ String "-" (Js.padStart (Js.String_ (Some n)) 3 "0")).
  rewrite pop_split_suffix
    by (apply digits_have_no_dash, padStart_digits; lia).
  rewrite parseInt_padStart by lia. unfold Js.plus.
  rewrite to_double_safe by lia. reflexivity.
Qed.

Example prefix_pads_month_and_day :
  Invoice.prefix
    {| Js.getFullYear := 2025; Js.getMonth := 2; Js.getDate := 7;
       Js.Date_now := 1741305600000; Js.toISODate := "2025-03-07" |}
  = "INV-20250307".
Proof. reflexivity. Qed.

(** C4, as amended.  When the lookup succeeds, [generateInvoiceNumber]
    yields today's prefix, a dash and a sequence number padded with zeros
    to at least three digits.  The sequence is [001] when no invoice number
    starts with the prefix.  Otherwise it is one more than the sequence of
    the matching invoice inserted last (greatest id), whatever the other
    matching numbers are. *)
Theorem generateInvoiceNumber_sequence (e : env) (w : world) :
  fails e LookupLastNumber = false ->
  let p := Invoice.prefix (now e) in
  let number := fst (Invoice.generateInvoiceNumber e w) in
  (exists suffix,
      number = p +:+ "-" +:+ suffix /\ (3 <= String.length suffix)%nat)
  /\ (Forall (fun r => like_prefix p (inv_invoice_number r) = false)
        (invoices (w_committed w)) ->
      number = p +:+ "-001")
  /\ (forall r n,
        In r (invoices (w_committed w)) ->
        (forall x, In x (invoices (w_committed w)) ->
                   like_prefix p (inv_invoice_number x) = true ->
                   x = r \/ inv_id x < inv_id r) ->
        0 <= n < Js.MAX_SAFE_INTEGER ->
        inv_invoice_number r
        = p +:+ "-" +:+ Js.padStart (Js.String_ (Some n)) 3 "0" ->
        number
        = p +:+ "-" +:+ Js.padStart (Js.String_ (Some (n + 1))) 3 "0").
Proof.
  intros Hf p number. subst number.
  unfold Invoice.generateInvoiceNumber, pool_execute. rewrite Hf.
  fold p. simpl fst. unfold Invoice.generateInvoiceNumber_with.
  unfold select_last_invoice_number.
  pose proof (last_invoice_like_spec p (w_committed w)) as Hlast.
  split; [|split].
  - unfold Invoice.next_number. eexists. split; [reflexivity|].
    apply padStart_length.
  - intros Hnone.
    destruct (last_invoice_like p (w_committed w)) as [r|];
      [|reflexivity].
    destruct Hlast as (Hin & Hlike & _).
    rewrite List.Forall_forall in Hnone. rewrite (Hnone r Hin) in Hlike.
    discriminate.
  - intros r n Hin Hlatest Hn Hnum.
    assert (Hlike : like_prefix p (inv_invoice_number r) = true)
      by (rewrite Hnum; apply prefix_append).
    destruct (last_invoice_like p (w_committed w)) as [r0|].
    + destruct Hlast as (Hin0 & Hlike0 & Hmax).
      assert (r0 = r) as ->.
      { destruct (Hlatest r0 Hin0 Hlike0) as [|Hlt]; [assumption|].
        specialize (Hmax r Hin Hlike). lia. }
      unfold getOne. simpl head. rewrite Hnum.
      apply next_number_after. lia.
    + rewrite List.Forall_forall in Hlast. rewrite (Hlast r Hin) in Hlike.
      discriminate.
Qed.

(** C4 as stated fails: the row looked up is the one inserted last, not the
    lexicographic maximum.  After the 1000th invoice of a day the greatest
    number in lexicographic order is still [...-999]: the algorithm of the
    specification would produce [...-1000] again, the code produces
    [...-1001], with four digits. *)
Lemma last_inserted_not_lexicographic_max :
  fst (Invoice.generateInvoiceNumber Sample.calm (open_world Sample.busy))
  = "INV-20240115-1001"
  /\ Spec.lexicographic_max
       (map inv_invoice_number (invoices (committed Sample.busy)))
     = Some "INV-20240115-999"
  /\ Spec.generateInvoiceNumber Sample.clock (committed Sample.busy)
     = "INV-20240115-1000"
  /\ fst (Invoice.generateInvoiceNumber Sample.calm (open_world Sample.busy))
     <> Spec.generateInvoiceNumber Sample.clock (committed Sample.busy).
Proof. vm_compute. repeat split. discriminate. Qed.

Lemma generateInvoiceNumber_sequence_witness :
  fails Sample.calm LookupLastNumber = false
  /\ fst (Invoice.generateInvoiceNumber Sample.calm
            (open_world Sample.one_sold))
     = "INV-20240115"
       +:+ "-" +:+ Js.padStart (Js.String_ (Some (1 + 1))) 3 "0".
Proof.
  split; [reflexivity|].
  apply (generateInvoiceNumber_sequence Sample.calm
           (open_world Sample.one_sold) eq_refl)
    with (r := Sample.earlier_invoice 1 "INV-20240115-001").
  - simpl. left. reflexivity.
  - simpl. intros x [<-|[]] _. left. reflexivity.
  - unfold Js.MAX_SAFE_INTEGER. lia.
  - reflexivity.
Defined.

End Numbering.

(* ===================================================================== *)
(** * The fallback number                                                 *)
(* ===================================================================== *)

Section Fallback.
Import Db Database Props.

(** With the [getOne] of [config/database.js] the awaited lookup never
    throws: [generateInvoiceNumber] continues in its [try] block. *)
Lemma generateInvoiceNumber_never_falls_back e w :
  exists result,
    fst (Invoice.generateInvoiceNumber e w)
    = Invoice.next_number (Invoice.prefix (now e)) result.
Proof.
  unfold Invoice.generateInvoiceNumber, pool_execute.
  destruct (fails e LookupLastNumber); eexists; reflexivity.
Qed.

(** A failed lookup restarts the day's sequence. *)
Lemma failed_lookup_restarts_sequence e w :
  fails e LookupLastNumber = true ->
  fst (Invoice.generateInvoiceNumber e w)
  = Invoice.prefix (now e) +:+ "-001".
Proof.
  intros Hf. unfold Invoice.generateInvoiceNumber, pool_execute.
  now rewrite Hf.
Qed.

(** C8.  The code falls short of the claim.  When the lookup of the last
    number fails, [getOne] has turned the error into [{ success: false }]
    before [generateInvoiceNumber] sees it: the function goes on in its
    [try] block and yields the first number of the day, not the time-based
    number that its [catch] block holds ready.  On a day that has its first
    invoice this number is taken: the INSERT fails on the UNIQUE key,
    [create] returns [null] and the sale is not stored. *)
Theorem failed_lookup_skips_fallback :
  let sale :=
    Invoice.create Sample.lookup_fails Sample.one_sold Sample.header
      [Sample.sell 1 3] in
  fails Sample.lookup_fails LookupLastNumber = true
  /\ generated_number Sample.lookup_fails Sample.one_sold
     = "INV-20240115-001"
  /\ Invoice.fallback_number (now Sample.lookup_fails)
     = "INV-1705312800000"
  /\ number_taken "INV-20240115-001" (committed Sample.one_sold) = true
  /\ Invoice.result sale = Invoice.Returned None
  /\ committed (Invoice.final sale) = committed Sample.one_sold.
Proof. vm_compute. repeat split. Qed.

End Fallback.

(* ===================================================================== *)
(** * The read layer absorbs failures                                     *)
(* ===================================================================== *)

Section ReadLayer.
Import Db Database Props.

(** C10.  A storage failure never surfaces from a read: [executeQuery] and
    [getOne] turn a thrown driver error into a [{success: false}] result;
    [Invoice.getAll], [Invoice.search] and [Medicine.getAll] then return the
    empty list and [Invoice.getSalesStats] all-zero statistics, as they do
    when the awaited call itself throws; and these are the values returned
    when the storage answers with no row (for the statistics: with the
    aggregate row of an empty selection). *)
Theorem reads_absorb_failures (R : Type) (message : string) (x : exn) :
  (success (executeQuery (R := R) (inl message)) = false
   /\ success (getOne (R := R) (inl message)) = false)
  /\ (Invoice.getAll (inl message) = []
      /\ Invoice.getAll_with (inl x) = []
      /\ Invoice.getAll (inl message) = Invoice.getAll (inr []))
  /\ (Invoice.search (inl message) = []
      /\ Invoice.search_with (inl x) = []
      /\ Invoice.search (inl message) = Invoice.search (inr []))
  /\ (Medicine.getAll (inl message) = []
      /\ Medicine.getAll_with (inl x) = []
      /\ Medicine.getAll (inl message) = Medicine.getAll (inr []))
  /\ (Invoice.getSalesStats (inl message) = Invoice.no_sales
      /\ Invoice.getSalesStats_with (inl x) = Invoice.no_sales
      /\ Invoice.getSalesStats (inl message) = Invoice.getSalesStats (inr [])
      /\ Invoice.getSalesStats (inl message)
         = Invoice.getSalesStats
             (inr [ {| Invoice.row_total_invoices := 0;
                       Invoice.row_total_sales := None;
                       Invoice.row_average_sale := None |} ])).
Proof. repeat split. Qed.

End ReadLayer.

(* ===================================================================== *)
(** * A call alone on the server is [create]                              *)
(* ===================================================================== *)

Section Refinement.
Import Db Database Props Parallel.

Lemma fold_redo_app l1 l2 t :
  fold_left redo (l1 ++ l2) t = fold_left redo l2 (fold_left redo l1 t).
Proof. apply fold_left_app. Qed.

(** [changes_of] says what [apply_statement] does. *)
Lemma apply_statement_redo s t c t' c' i :
  apply_statement s t c = inr (t', c', i) ->
  t' = fold_left redo (changes_of s c) t.
Proof.
  destruct s; simpl; intros H;
    repeat match type of H with
           | (if ?b then _ else _) = _ => destruct b; [discriminate|]
           end;
    try (injection H as <- _ _; try reflexivity).
  all: destruct t; reflexivity.
Qed.

Lemma alone_only_changes sv :
  alone_only sv ->
  changes_by First sv = map snd (pending sv) /\ without First sv = [].
Proof.
  unfold alone_only, changes_by, without.
  induction (pending sv) as [|p l IH]; intros H; [split; reflexivity|].
  inversion H as [|? ? Hp Hl]; subst. destruct (IH Hl) as [E1 E2].
  simpl. rewrite Hp. simpl. now rewrite E1, E2.
Qed.

Lemma execute_sim e st s w th sv next :
  sim w th sv ->
  match connection_execute e st s w with
  | (inl x, w') =>
      execute e st First s sv = inl x /\ sim w' (moved next s th) sv
  | (inr id, w') =>
      exists sv',
        execute e st First s sv = inr (sv', id)
        /\ sim w' (moved next s th) sv'
  end.
Proof.
  intros (Hc & Hw & Hi & Hs & Ha).
  unfold connection_execute, execute. simpl.
  destruct (fails e st).
  { split; [reflexivity|]. repeat split; simpl; auto. now rewrite Hs. }
  rewrite Hw, Hi.
  destruct (apply_statement s (in_place sv) (next_ids sv))
    as [x|[[t' c'] id]] eqn:E.
  { split; [reflexivity|]. repeat split; simpl; auto. now rewrite Hs. }
  eexists. split; [reflexivity|].
  repeat split; simpl; auto.
  - unfold in_place. simpl. rewrite map_app, fold_redo_app.
    rewrite (apply_statement_redo _ _ _ _ _ _ E). f_equal.
    rewrite map_map. simpl. now rewrite map_id.
  - now rewrite Hs.
  - unfold alone_only in *. simpl. apply Forall_app. split; [exact Ha|].
    apply List.Forall_forall. intros p Hp. apply in_map_iff in Hp.
    destruct Hp as (x & <- & _). reflexivity.
Qed.

Lemma alone_over n e data items th sv o :
  at_stage th = Over o -> alone n e data items th sv = (th, sv).
Proof.
  intros H. induction n as [|n IH]; [reflexivity|].
  simpl. unfold step. rewrite H. exact IH.
Qed.

Lemma alone_add a b e data items th sv :
  alone (a + b) e data items th sv
  = alone b e data items (fst (alone a e data items th sv))
      (snd (alone a e data items th sv)).
Proof.
  revert th sv. induction a as [|a IH]; intros th sv; [reflexivity|].
  simpl. destruct (step e data items First th sv) as [th' sv']. apply IH.
Qed.

Lemma alone_reaches j n e data items th sv th' sv' o :
  alone j e data items th sv = (th', sv') ->
  at_stage th' = Over o ->
  (j <= n)%nat ->
  alone n e data items th sv = (th', sv').
Proof.
  intros Hj Ho Hle. replace n with (j + (n - j))%nat by lia.
  rewrite alone_add, Hj. simpl. now apply alone_over with (o := o).
Qed.

Lemma step_in_transaction e data items0 id st s rest th sv :
  at_stage th = InTransaction id ((st, s) :: rest) ->
  step e data items0 First th sv
  = match execute e st First s sv with
    | inl _ => (moved Recovering s th, sv)
    | inr (sv', _) => (moved (InTransaction id rest) s th, sv')
    end.
Proof. intros H. unfold step. now rewrite H. Qed.

(** One statement of the loop: the call moves on, or it is stopped. *)
Lemma one_statement e data items0 id st s rest w th sv :
  sim w th sv ->
  at_stage th = InTransaction id ((st, s) :: rest) ->
  match connection_execute e st s w with
  | (inr _, w') =>
      exists th' sv',
        step e data items0 First th sv = (th', sv')
        /\ sim w' th' sv' /\ at_stage th' = InTransaction id rest
  | (inl _, w') =>
      exists th',
        step e data items0 First th sv = (th', sv)
        /\ sim w' th' sv /\ at_stage th' = Recovering
  end.
Proof.
  intros Hsim Hat. rewrite (step_in_transaction _ _ _ _ _ _ _ _ _ Hat).
  destruct (connection_execute e st s w) as [[x|i] w'] eqn:E.
  - pose proof (execute_sim e st s w th sv Recovering Hsim) as H.
    rewrite E in H. destruct H as [-> H]. eexists.
    split; [reflexivity|]. split; [exact H|reflexivity].
  - pose proof (execute_sim e st s w th sv (InTransaction id rest) Hsim) as H.
    rewrite E in H. destruct H as (sv' & -> & H).
    eexists _, _. split; [reflexivity|]. split; [exact H|reflexivity].
Qed.

(** The loop of [create], round trip by round trip. *)
Lemma loop_sim e data items0 number id items : forall k w th sv,
  sim w th sv ->
  at_stage th = InTransaction id (loop_round_trips data number id k items) ->
  match Invoice.insert_items e data number id k items w with
  | (inr _, w') =>
      exists th' sv',
        alone (3 * length items) e data items0 th sv = (th', sv')
        /\ sim w' th' sv' /\ at_stage th' = InTransaction id []
  | (inl _, w') =>
      exists j th' sv',
        (j < 3 * length items)%nat
        /\ alone (S j) e data items0 th sv = (th', sv')
        /\ sim w' th' sv' /\ at_stage th' = Recovering
  end.
Proof.
  induction items as [|item rest IH]; intros k w th sv Hsim Hat.
  - simpl. exists th, sv. auto.
  - cbn [loop_round_trips] in Hat.
    cbn [Invoice.insert_items]. unfold bind.
    pose proof (one_statement e data items0 _ _ _ _ w th sv Hsim Hat) as H1.
    destruct (connection_execute e (InsertItemRow k) _ w) as [[x|i1] w1].
    { destruct H1 as (th1 & E1 & S1 & A1).
      exists 0%nat, th1, sv. split; [simpl; lia|].
      split; [simpl; now rewrite E1|]. auto. }
    destruct H1 as (th1 & sv1 & E1 & S1 & A1).
    pose proof (one_statement e data items0 _ _ _ _ w1 th1 sv1 S1 A1) as H2.
    destruct (connection_execute e (UpdateStock k) _ w1) as [[x|i2] w2].
    { destruct H2 as (th2 & E2 & S2 & A2).
      exists 1%nat, th2, sv1. split; [simpl; lia|].
      split; [simpl; now rewrite E1, E2|]. auto. }
    destruct H2 as (th2 & sv2 & E2 & S2 & A2).
    pose proof (one_statement e data items0 _ _ _ _ w2 th2 sv2 S2 A2) as H3.
    destruct (connection_execute e (InsertMovementRow k) _ w2)
      as [[x|i3] w3].
    { destruct H3 as (th3 & E3 & S3 & A3).
      exists 2%nat, th3, sv2. split; [simpl; lia|].
      split; [simpl; now rewrite E1, E2, E3|]. auto. }
    destruct H3 as (th3 & sv3 & E3 & S3 & A3).
    specialize (IH (S k) w3 th3 sv3 S3 A3).
    replace (3 * length (item :: rest))%nat
      with (3 + 3 * length rest)%nat by (simpl; lia).
    destruct (Invoice.insert_items e data number id (S k) rest w3)
      as [[x|u] w4].
    + destruct IH as (j & th4 & sv4 & Hj & E4 & S4 & A4).
      exists (3 + j)%nat, th4, sv4. split; [lia|].
      split; [|auto].
      change (S (3 + j)) with (3 + S j)%nat.
      rewrite alone_add. simpl alone at 2 3. rewrite E1, E2, E3. exact E4.
    + destruct IH as (th4 & sv4 & E4 & S4 & A4).
      exists th4, sv4. split; [|auto].
      rewrite alone_add. simpl alone at 2 3. rewrite E1, E2, E3. exact E4.
Qed.


Lemma sim_moved w th sv next s :
  sim w th sv -> sim (send s w) (moved next s th) sv.
Proof.
  intros (Hc & Hw & Hi & Hs & Ha). repeat split; simpl; auto.
  now rewrite Hs.
Qed.

Lemma finish_sim {A : Type} (o : Invoice.outcome A) w th sv :
  sim w th sv ->
  Invoice.finish o w
  = {| Invoice.result := o; Invoice.final := db_of sv;
       Invoice.issued := sent th |}.
Proof.
  intros (Hc & Hw & Hi & Hs & Ha). unfold Invoice.finish, close_world, db_of.
  now rewrite Hc, Hi, Hs.
Qed.

(** The [try] block up to the commit. *)
Lemma transaction_sim e data items w th sv :
  sim w th sv ->
  at_stage th = Numbering ->
  match Invoice.create_transaction e data items w with
  | (inr id, w') =>
      exists th' sv',
        alone (3 * length items + 3) e data items th sv = (th', sv')
        /\ sim w' th' sv' /\ at_stage th' = Fetching id
  | (inl _, w') =>
      exists j th' sv',
        (j <= 3 * length items + 3)%nat
        /\ alone j e data items th sv = (th', sv')
        /\ sim w' th' sv' /\ at_stage th' = Recovering
  end.
Proof.
  intros Hsim Hat.
  unfold Invoice.create_transaction, bind.
  unfold Invoice.generateInvoiceNumber, pool_execute.
  set (p := Invoice.prefix (now e)).
  set (number :=
         Invoice.generateInvoiceNumber_with (now e)
           (inr (getOne (pool_read e LookupLastNumber
                           (select_last_invoice_number p) sv)))).
  set (th1 := moved (Heading number) (SelectLastInvoiceNumber (p +:+ "%")) th).
  assert (E1 : step e data items First th sv = (th1, sv)).
  { unfold step. rewrite Hat. reflexivity. }
  assert (S1 : sim (send (SelectLastInvoiceNumber (p +:+ "%")) w) th1 sv)
    by now apply sim_moved.
  assert (Hn :
            (let '(outcome, w1) :=
               if fails e LookupLastNumber
               then (inl (error_message e),
                     send (SelectLastInvoiceNumber (p +:+ "%")) w)
               else (inr (select_last_invoice_number p (w_committed w)),
                     send (SelectLastInvoiceNumber (p +:+ "%")) w) in
             (Invoice.generateInvoiceNumber_with (now e)
                (inr (getOne outcome)), w1))
            = (number, send (SelectLastInvoiceNumber (p +:+ "%")) w)).
  { subst number. unfold pool_read. destruct Hsim as (-> & _).
    now destruct (fails e LookupLastNumber). }
  rewrite Hn. clear Hn.
  set (w1 := send (SelectLastInvoiceNumber (p +:+ "%")) w) in *.
  set (q := InsertInvoice (Invoice.invoice_values_of e data number)).
  assert (A1 : at_stage th1 = Heading number) by reflexivity.
  destruct (connection_execute e InsertInvoiceRow q w1) as [[x|id] w2] eqn:E.
  { pose proof (execute_sim e InsertInvoiceRow q w1 th1 sv Recovering S1) as H.
    rewrite E in H. destruct H as [Hx H].
    exists 2%nat, (moved Recovering q th1), sv. split; [lia|].
    split; [|split; [exact H|reflexivity]].
    simpl. rewrite E1. unfold step. rewrite A1. fold q. now rewrite Hx. }
  set (todo := loop_round_trips data number id 0 items).
  pose proof (execute_sim e InsertInvoiceRow q w1 th1 sv
                (InTransaction id todo) S1) as H.
  rewrite E in H. destruct H as (sv2 & Hx & S2).
  set (th2 := moved (InTransaction id todo) q th1) in *.
  assert (E2 : step e data items First th1 sv = (th2, sv2)).
  { unfold step. rewrite A1. fold q. now rewrite Hx. }
  pose proof (loop_sim e data items number id items 0 w2 th2 sv2 S2 eq_refl)
    as HL.
  destruct (Invoice.insert_items e data number id 0 items w2) as [[x|u] w3].
  { destruct HL as (j & th3 & sv3 & Hj & E3 & S3 & A3).
    exists (2 + S j)%nat, th3, sv3. split; [lia|].
    split; [|auto]. rewrite alone_add. simpl alone at 2 3.
    rewrite E1, E2. exact E3. }
  destruct HL as (th3 & sv3 & E3 & S3 & A3).
  unfold commitTransaction, ret.
  assert (E12 : alone (2 + 3 * length items) e data items th sv = (th3, sv3)).
  { rewrite alone_add. simpl alone at 2 3. rewrite E1, E2. exact E3. }
  destruct (fails e Commit) eqn:Hc.
  - exists (2 + 3 * length items + 1)%nat, (moved Recovering COMMIT th3), sv3.
    split; [lia|]. split; [|split; [now apply sim_moved|reflexivity]].
    rewrite alone_add, E12. simpl. unfold step. now rewrite A3, Hc.
  - exists (moved (Fetching id) COMMIT th3), (commit First sv3).
    split; [|split; [|reflexivity]].
    + replace (3 * length items + 3)%nat
        with (2 + 3 * length items + 1)%nat by lia.
      rewrite alone_add, E12. simpl. unfold step. now rewrite A3, Hc.
    + destruct S3 as (H1 & H2 & H3 & H4 & H5).
      destruct (alone_only_changes sv3 H5) as [Hmine Hrest].
      repeat split; simpl.
      * unfold commit. simpl. rewrite Hmine. exact H2.
      * unfold in_place, commit. simpl. now rewrite Hmine, Hrest.
      * exact H3.
      * now rewrite H4.
      * unfold alone_only, commit. simpl. rewrite Hrest. constructor.
Qed.

(** The final [findById]. *)
Lemma fetch_sim e data items id w th sv :
  sim w th sv ->
  at_stage th = Fetching id ->
  exists j th',
    (j <= 2)%nat
    /\ alone j e data items th sv = (th', sv)
    /\ at_stage th' = Over (Invoice.Returned (fst (Invoice.findById e id w)))
    /\ sim (snd (Invoice.findById e id w)) th' sv.
Proof.
  intros Hsim Hat. unfold Invoice.findById, pool_execute.
  assert (Hc : w_committed w = stored sv) by apply Hsim.
  destruct (fails e FetchInvoice) eqn:F1.
  { exists 1%nat, (moved (Over (Invoice.Returned None))
                     (SelectInvoiceById id) th).
    split; [lia|]. simpl. split; [|split; [reflexivity|now apply sim_moved]].
    unfold step. rewrite Hat. unfold pool_read. now rewrite F1. }
  rewrite Hc.
  destruct (select_invoice_by_id id (stored sv)) as [|r rs] eqn:Er.
  { exists 1%nat, (moved (Over (Invoice.Returned None))
                     (SelectInvoiceById id) th).
    split; [lia|]. simpl. split; [|split; [reflexivity|now apply sim_moved]].
    unfold step. rewrite Hat. unfold pool_read. now rewrite F1, Er. }
  simpl.
  set (th1 := moved (FetchingItems id r) (SelectInvoiceById id) th).
  assert (E1 : step e data items First th sv = (th1, sv)).
  { unfold step. rewrite Hat. unfold pool_read. now rewrite F1, Er. }
  assert (S1 : sim (send (SelectInvoiceById id) w) th1 sv)
    by now apply sim_moved.
  destruct (fails e FetchItems) eqn:F2; simpl.
  - exists 2%nat, (moved (Over (Invoice.Returned (Some (Invoice.new r))))
                     (SelectInvoiceItems id) th1).
    split; [lia|]. simpl. rewrite E1.
    split; [|split; [reflexivity|now apply sim_moved]].
    unfold step. simpl at_stage. unfold pool_read. now rewrite F2.
  - exists 2%nat,
      (moved (Over (Invoice.Returned
                      (Some (Invoice.set_items (Invoice.new r)
                               (select_invoice_items id (stored sv))))))
         (SelectInvoiceItems id) th1).
    split; [lia|]. simpl. rewrite E1, Hc.
    split; [|split; [reflexivity|now apply sim_moved]].
    unfold step. simpl at_stage. unfold pool_read. now rewrite F2.
Qed.

(** The [catch] block. *)
Lemma rollback_sim e data items w th sv :
  sim w th sv ->
  at_stage th = Recovering ->
  exists th' sv',
    step e data items First th sv = (th', sv')
    /\ at_stage th'
       = Over (match fst (rollbackTransaction e w) with
               | inl x => Invoice.Rejected x
               | inr _ => Invoice.Returned None
               end)
    /\ sim (snd (rollbackTransaction e w)) th' sv'.
Proof.
  intros Hsim Hat. unfold step, rollbackTransaction. rewrite Hat.
  destruct (fails e Rollback); simpl.
  - eexists _, _. split; [reflexivity|]. split; [reflexivity|].
    now apply sim_moved.
  - eexists _, _. split; [reflexivity|]. split; [reflexivity|].
    destruct Hsim as (H1 & H2 & H3 & H4 & H5).
    destruct (alone_only_changes sv H5) as [_ Hrest].
    repeat split; simpl; auto.
    + unfold in_place, rollback. simpl. now rewrite Hrest.
    + now rewrite H4.
    + unfold alone_only, rollback. simpl. rewrite Hrest. constructor.
Qed.

(** A call that runs alone on the server is [create]: the same outcome,
    the same statements, the same state of the server at the end. *)
Lemma alone_is_create e d data items :
  let c := Invoice.create e d data items in
  let x := alone (round_trips items) e data items start (server_of d) in
  at_stage (fst x) = Over (Invoice.result c)
  /\ sent (fst x) = Invoice.issued c
  /\ db_of (snd x) = Invoice.final c.
Proof.
  intros c x.
  assert (H : exists j th sv,
             (j <= round_trips items)%nat
             /\ alone j e data items start (server_of d) = (th, sv)
             /\ at_stage th = Over (Invoice.result c)
             /\ sent th = Invoice.issued c
             /\ db_of sv = Invoice.final c).
  { subst c. unfold Invoice.create, beginTransaction, round_trips.
    cbn [open_world w_committed w_working w_ids w_issued send].
    destruct (fails e GetConnection) eqn:F1.
    { exists 1%nat, {| at_stage := Over (Invoice.Rejected StorageFailure);
                      sent := [] |}, (server_of d).
      split; [lia|]. simpl. unfold step. simpl. rewrite F1.
      repeat split. }
    destruct (fails e BeginTransaction) eqn:F2.
    { exists 1%nat, (moved (Over (Invoice.Rejected StorageFailure))
                       START_TRANSACTION start), (server_of d).
      split; [lia|]. simpl. unfold step. simpl. rewrite F1, F2.
      repeat split. }
    set (w0 := {| w_committed := committed d; w_working := committed d;
                  w_ids := ids d; w_issued := [] ++ [START_TRANSACTION] |}).
    set (th0 := moved Numbering START_TRANSACTION start).
    assert (E0 : step e data items First start (server_of d)
                 = (th0, server_of d)).
    { unfold step. simpl. now rewrite F1, F2. }
    assert (S0 : sim w0 th0 (server_of d)).
    { repeat split. constructor. }
    pose proof (transaction_sim e data items w0 th0 (server_of d) S0 eq_refl)
      as HT.
    destruct (Invoice.create_transaction e data items w0) as [[x0|id] w1].
    - destruct HT as (j & th1 & sv1 & Hj & E1 & S1 & A1).
      destruct (rollback_sim e data items w1 th1 sv1 S1 A1)
        as (th2 & sv2 & E2 & A2 & S2).
      exists (1 + j + 1)%nat, th2, sv2. split; [lia|].
      split.
      { rewrite <- Nat.add_assoc, alone_add. simpl alone at 2 3.
        rewrite E0. simpl fst. simpl snd. rewrite alone_add, E1.
        simpl. now rewrite E2. }
      destruct (rollbackTransaction e w1) as [[y|u] w2]; simpl in A2, S2;
        rewrite (finish_sim _ _ _ _ S2); auto.
    - destruct HT as (th1 & sv1 & E1 & S1 & A1).
      destruct (fetch_sim e data items id w1 th1 sv1 S1 A1)
        as (j & th2 & Hj & E2 & A2 & S2).
      exists (1 + (3 * length items + 3) + j)%nat, th2, sv1.
      split; [lia|].
      split.
      { rewrite <- Nat.add_assoc, alone_add. simpl alone at 2 3.
        rewrite E0. simpl fst. simpl snd. rewrite alone_add, E1.
        exact E2. }
      destruct (Invoice.findById e id w1) as [inv w2]; simpl in A2, S2.
      rewrite (finish_sim _ _ _ _ S2). auto. }
  destruct H as (j & th & sv & Hj & E & A & Hs & Hd).
  subst x. rewrite (alone_reaches _ _ _ _ _ _ _ _ _ _ E A Hj). auto.
Qed.

End Refinement.

(* ===================================================================== *)
(** * The books of two calls at once                                    *)
(* ===================================================================== *)

Section Books.
Import Db Database Props Parallel.

Lemma stock_redo m l : forall t s,
  stock_of m t = Some s ->
  forallb (fun x => negb (sets_stock x)) l = true ->
  stock_of m (fold_left redo l t) = Some (s - taken m l).
Proof.
  induction l as [|x l IH]; intros t s Hs Hl.
  - simpl. rewrite Hs. f_equal. unfold taken. simpl. lia.
  - simpl in Hl. apply andb_prop in Hl as [Hx Hl]. cbn [fold_left].
    assert (Hx' : stock_of m (redo t x)
                  = Some (s - taken m [x])).
    { unfold stock_of, taken in *. destruct x; simpl in *;
        try discriminate; rewrite ?Hs; try (f_equal; lia).
      destruct (Z.eqb_spec medicine_id m) as [->|Hne].
      - rewrite lookup_alter_eq.
        destruct (medicines t !! m) as [r|]; simpl in *; [|discriminate].
        injection Hs as <-. f_equal. lia.
      - rewrite lookup_alter_ne by congruence. rewrite Hs. f_equal. lia. }
    rewrite (IH _ _ Hx' Hl). f_equal. unfold taken. simpl.
    destruct x; simpl; lia.
Qed.

Lemma taken_app m l1 l2 : taken m (l1 ++ l2) = taken m l1 + taken m l2.
Proof.
  unfold taken. induction l1 as [|x l1 IH]; simpl; [reflexivity|].
  rewrite IH. lia.
Qed.

Lemma changes_of_relative m s c :
  overwrites_stock s = false ->
  forallb (fun x => negb (sets_stock x)) (changes_of s c) = true
  /\ taken m (changes_of s c) = stock_delta m s.
Proof.
  destruct s; simpl; intros H; try discriminate; split; try reflexivity.
  unfold taken. simpl. lia.
Qed.

Lemma same_refl who : same who who = true.
Proof. now destruct who. Qed.

Lemma changes_by_app who sv l c :
  changes_by who
    {| stored := stored sv; next_ids := c;
       pending := pending sv ++ map (pair who) l |}
  = changes_by who sv ++ l.
Proof.
  unfold changes_by. simpl. rewrite List.filter_app, List.map_app. f_equal.
  induction l as [|x l IH]; [reflexivity|].
  simpl. rewrite same_refl. simpl. now rewrite IH.
Qed.

Lemma changes_by_app_other who other sv l c :
  same who other = false ->
  changes_by other
    {| stored := stored sv; next_ids := c;
       pending := pending sv ++ map (pair who) l |}
  = changes_by other sv.
Proof.
  intros H. unfold changes_by. simpl. rewrite List.filter_app, List.map_app.
  replace (List.filter (fun p => same (fst p) other) (map (pair who) l))
    with (@nil (session * change)); [now rewrite app_nil_r|].
  induction l as [|x l IH]; [reflexivity|]. simpl. now rewrite H.
Qed.

Lemma changes_by_without who other (l : list (session * change)) :
  same who other = false ->
  map snd
    (List.filter (fun p => same (fst p) other)
       (List.filter (fun p => negb (same (fst p) who)) l))
  = map snd (List.filter (fun p => same (fst p) other) l).
Proof.
  intros H. induction l as [|[s x] l IH]; [reflexivity|].
  simpl. destruct s, who, other; simpl in *; try discriminate;
    rewrite ?IH; reflexivity.
Qed.

Lemma has_committed_moved c next s th :
  is_commit s = false ->
  has_committed c (moved next s th) = has_committed c th.
Proof.
  intros H. unfold has_committed, moved. simpl.
  now rewrite existsb_app; simpl; rewrite H, !orb_false_r.
Qed.

Lemma not_committed_moved s l :
  is_commit s = false ->
  existsb is_commit l = false ->
  existsb is_commit (l ++ [s]) = false.
Proof.
  intros H Hs. rewrite existsb_app, Hs. simpl. now rewrite H.
Qed.

Lemma not_committed c th :
  existsb is_commit (sent th) = false -> has_committed c th = false.
Proof. intros H. unfold has_committed. now rewrite H. Qed.

Lemma loop_relative data number id items : forall k,
  Forall (fun s => overwrites_stock s = false /\ is_commit s = false)
    (map snd (loop_round_trips data number id k items)).
Proof.
  induction items as [|i items IH]; intros k; simpl; repeat constructor.
  apply IH.
Qed.

Lemma loop_stock_taken m data number id items : forall k,
  stock_taken m (map snd (loop_round_trips data number id k items))
  = Sale.quantity_sold m items.
Proof.
  unfold stock_taken, Sale.quantity_sold.
  induction items as [|i items IH]; intros k; simpl; [reflexivity|].
  rewrite IH. destruct (Sale.medicine_id i =? m); simpl; lia.
Qed.

(** What the server does on behalf of one call: it appends changes of this
    call, or commits them, or drops them. *)
Lemma execute_changes e st who s sv sv' id :
  execute e st who s sv = inr (sv', id) ->
  stored sv' = stored sv
  /\ changes_by who sv' = changes_by who sv ++ changes_of s (next_ids sv)
  /\ forall other, same who other = false ->
                   changes_by other sv' = changes_by other sv.
Proof.
  unfold execute. destruct (fails e st); [discriminate|].
  destruct (apply_statement s (in_place sv) (next_ids sv))
    as [x|[[t c] i]]; [discriminate|].
  intros [= <- <-]. split; [reflexivity|]. split.
  - apply changes_by_app.
  - intros other H. now apply changes_by_app_other.
Qed.

(** A round trip of a call keeps its books and leaves those of the other
    call alone; the committed stock changes when the call commits, by what
    the call sells. *)
Lemma step_accounted m c who th sv th' sv' s0 :
  accounted m c th (changes_by who sv) ->
  stock_of m (stored sv) = Some s0 ->
  step (call_env c) (call_data c) (call_items c) who th sv = (th', sv') ->
  accounted m c th' (changes_by who sv')
  /\ (forall other, same who other = false ->
                    changes_by other sv' = changes_by other sv)
  /\ stock_of m (stored sv')
     = Some (s0 + (if has_committed c th then sold m c else 0)
             - (if has_committed c th' then sold m c else 0)).
Proof.
  intros Hacc Hs. unfold step, accounted in *.
  assert (Hsame : forall th1,
             has_committed c th1 = has_committed c th ->
             stock_of m (stored sv)
             = Some (s0 + (if has_committed c th then sold m c else 0)
                     - (if has_committed c th1 then sold m c else 0))).
  { intros th1 ->. rewrite Hs. f_equal. lia. }
  destruct (at_stage th) as [| |number|id [|[st s] rest]|id|id r| |o] eqn:Hat.
  - (* Opening *)
    destruct Hacc as [Hc Hm].
    destruct (fails (call_env c) GetConnection).
    { intros [= <- <-]. simpl. repeat split; auto. }
    destruct (fails (call_env c) BeginTransaction); intros [= <- <-]; simpl.
    + repeat split; auto. apply Hsame. now apply has_committed_moved.
    + repeat split; auto.
      * now apply not_committed_moved.
      * apply Hsame. now apply has_committed_moved.
  - (* Numbering *)
    destruct Hacc as [Hc Hm]. intros [= <- <-]. simpl. repeat split; auto.
    + now apply not_committed_moved.
    + apply Hsame. now apply has_committed_moved.
  - (* Heading *)
    destruct Hacc as [Hc Hm].
    destruct (execute _ _ _ _ _) as [x|[sv1 id]] eqn:E; intros [= <- <-].
    + simpl. repeat split; auto. apply Hsame. now apply has_committed_moved.
    + destruct (execute_changes _ _ _ _ _ _ _ E) as (Hst & Hmine & Hoth).
      simpl. rewrite Hst, Hmine, Hm. repeat split; auto.
      * now apply not_committed_moved.
      * apply loop_relative.
      * rewrite loop_stock_taken. unfold taken, sold. simpl. lia.
      * apply Hsame. now apply has_committed_moved.
  - (* the commit *)
    destruct Hacc as (Hc & Hrel & Hall & Hsum).
    destruct (fails (call_env c) Commit) eqn:F; intros [= <- <-]; simpl.
    + repeat split; auto. apply Hsame.
      unfold has_committed. rewrite F. now rewrite !andb_false_r.
    + split; [|split].
      * unfold has_committed, moved. simpl.
        rewrite existsb_app, F. simpl. now rewrite orb_true_r.
      * intros other H. unfold changes_by, without. simpl.
        now apply changes_by_without.
      * rewrite (stock_redo m _ _ _ Hs Hrel).
        rewrite (not_committed c th Hc).
        assert (Hh : has_committed c (moved (Fetching id) COMMIT th) = true).
        { unfold has_committed, moved. simpl.
          rewrite existsb_app, F. simpl. now rewrite orb_true_r. }
        rewrite Hh. f_equal.
        unfold stock_taken in Hsum. simpl in Hsum. lia.
  - (* a statement of the loop *)
    destruct Hacc as (Hc & Hrel & Hall & Hsum).
    simpl in Hall. inversion Hall as [|? ? [Hs1 Hs2] Hrest]; subst.
    destruct (execute _ _ _ _ _) as [x|[sv1 i]] eqn:E; intros [= <- <-].
    + simpl. repeat split; auto. apply Hsame. now apply has_committed_moved.
    + destruct (execute_changes _ _ _ _ _ _ _ E) as (Hst & Hmine & Hoth).
      destruct (changes_of_relative m s (next_ids sv) Hs1) as [Hr1 Ht1].
      simpl. rewrite Hst, Hmine. repeat split; auto.
      * now apply not_committed_moved.
      * now rewrite forallb_app, Hrel, Hr1.
      * rewrite taken_app, Ht1. unfold stock_taken in *. simpl in Hsum. lia.
      * apply Hsame. now apply has_committed_moved.
  - (* Fetching *)
    destruct (pool_read _ _ _ _) as [msg|[|r0 rs]]; simpl;
      intros [= <- <-]; simpl;
      repeat split; auto;
      try (rewrite has_committed_moved by reflexivity; exact Hacc);
      apply Hsame; now apply has_committed_moved.
  - (* FetchingItems *)
    destruct (pool_read _ _ _ _) as [msg|rows]; simpl;
      intros [= <- <-]; simpl;
      repeat split; auto;
      try (rewrite has_committed_moved by reflexivity; exact Hacc);
      apply Hsame; now apply has_committed_moved.
  - (* Recovering *)
    destruct (fails (call_env c) Rollback); intros [= <- <-]; simpl.
    + repeat split; auto. apply Hsame. now apply has_committed_moved.
    + split; [exact I|]. split.
      * intros other H. unfold changes_by, without. simpl.
        now apply changes_by_without.
      * apply Hsame. now apply has_committed_moved.
  - (* Over *)
    intros [= <- <-]. rewrite Hat. repeat split; auto.
Qed.

(** A round trip sends at most one statement, and none that overwrites a
    stock value. *)
Lemma step_relative m c who th sv th' sv' :
  accounted m c th (changes_by who sv) ->
  relative (sent th) ->
  step (call_env c) (call_data c) (call_items c) who th sv = (th', sv') ->
  relative (sent th').
Proof.
  intros Hacc Hrel. unfold step, accounted, relative in *.
  assert (Hadd : forall s next,
             overwrites_stock s = false ->
             Forall (fun s1 => overwrites_stock s1 = false)
               (sent (moved next s th))).
  { intros s next H. unfold moved. simpl. apply Forall_app. split; auto. }
  destruct (at_stage th) as [| |number|id [|[st s] rest]|id|id r| |o].
  - destruct (fails _ GetConnection); [now intros [= <- <-]|].
    destruct (fails _ BeginTransaction); intros [= <- <-]; now apply Hadd.
  - intros [= <- <-]. now apply Hadd.
  - destruct (execute _ _ _ _ _) as [x|[sv1 i]]; intros [= <- <-];
      now apply Hadd.
  - destruct (fails _ Commit); intros [= <- <-]; now apply Hadd.
  - destruct Hacc as (_ & _ & Hall & _). simpl in Hall.
    inversion Hall as [|? ? [Hs _] _]; subst.
    destruct (execute _ _ _ _ _) as [x|[sv1 i]]; intros [= <- <-];
      now apply Hadd.
  - destruct (pool_read _ _ _ _) as [msg|[|r0 rs]]; simpl;
      intros [= <- <-]; now apply Hadd.
  - destruct (pool_read _ _ _ _) as [msg|rows]; simpl;
      intros [= <- <-]; now apply Hadd.
  - destruct (fails _ Rollback); intros [= <- <-]; now apply Hadd.
  - now intros [= <- <-].
Qed.

Lemma turn_balanced a b m q x who :
  balanced a b m q x -> balanced a b m q (turn a b x who).
Proof.
  intros (HA & HB & Hs & RA & RB). unfold turn. destruct who.
  - destruct (step _ _ _ First _ _) as [th sv] eqn:E.
    destruct (step_accounted m a First _ _ _ _ _ HA Hs E)
      as (HA' & Hoth & Hs').
    split; [exact HA'|]. split; [|split; [|split]].
    + simpl. rewrite (Hoth Second eq_refl). exact HB.
    + simpl. rewrite Hs'. f_equal. unfold stock_after. simpl.
      destruct (has_committed a (first x)), (has_committed a th),
        (has_committed b (second x)); lia.
    + exact (step_relative m a First _ _ _ _ HA RA E).
    + exact RB.
  - destruct (step _ _ _ Second _ _) as [th sv] eqn:E.
    destruct (step_accounted m b Second _ _ _ _ _ HB Hs E)
      as (HB' & Hoth & Hs').
    split; [|split; [exact HB'|split; [|split]]].
    + simpl. rewrite (Hoth First eq_refl). exact HA.
    + simpl. rewrite Hs'. f_equal. unfold stock_after. simpl.
      destruct (has_committed a (first x)), (has_committed b th),
        (has_committed b (second x)); lia.
    + exact RA.
    + exact (step_relative m b Second _ _ _ _ HB RB E).
Qed.

Lemma run_balanced a b m q schedule : forall x,
  balanced a b m q x -> balanced a b m q (fold_left (turn a b) schedule x).
Proof.
  induction schedule as [|who l IH]; intros x H; [exact H|].
  simpl. apply IH. now apply turn_balanced.
Qed.

Lemma begin_balanced a b m q d :
  stock_of m (committed d) = Some q -> balanced a b m q (begin d).
Proof.
  intros H. split; [|split; [|split; [|split; constructor]]];
    try (split; reflexivity).
  simpl. rewrite H. f_equal. unfold stock_after. simpl. lia.
Qed.

(** A call that has returned an invoice has committed its transaction. *)
Lemma returned_has_committed m c th mine invoice :
  accounted m c th mine ->
  at_stage th = Over (Invoice.Returned (Some invoice)) ->
  has_committed c th = true.
Proof. unfold accounted. intros H E. now rewrite E in H. Qed.

End Books.

(* ===================================================================== *)
(** * Two calls that nothing stops                                      *)
(* ===================================================================== *)

Section Progress.
Import Db Database Props Parallel.

Lemma redo_users l : forall t, users (fold_left redo l t) = users t.
Proof.
  induction l as [|x l IH]; intros t; [reflexivity|].
  simpl. rewrite IH. now destruct x.
Qed.

Lemma redo_medicines l k : forall t,
  medicines (fold_left redo l t) !! k = None <-> medicines t !! k = None.
Proof.
  induction l as [|x l IH]; intros t; [reflexivity|].
  simpl. rewrite IH. destruct x; simpl; try reflexivity.
  - destruct (decide (medicine_id = k)) as [->|Hne].
    + rewrite lookup_alter_eq. now destruct (medicines t !! k).
    + now rewrite lookup_alter_ne.
  - destruct (decide (medicine_id = k)) as [->|Hne].
    + rewrite lookup_alter_eq. now destruct (medicines t !! k).
    + now rewrite lookup_alter_ne.
Qed.

Lemma redo_invoices l : forall t,
  invoices (fold_left redo l t) = invoices t ++ new_invoices l.
Proof.
  induction l as [|x l IH]; intros t; simpl; [now rewrite app_nil_r|].
  rewrite IH. destruct x; simpl; try reflexivity.
  now rewrite <- app_assoc.
Qed.

Lemma in_new_invoices r l : In r (new_invoices l) <-> In (NewInvoice r) l.
Proof.
  unfold new_invoices. rewrite in_flat_map. split.
  - intros (x & Hx & Hr). destruct x; simpl in Hr; try contradiction.
    destruct Hr as [<-|[]]. exact Hx.
  - intros H. exists (NewInvoice r). split; [exact H|now left].
Qed.

Lemma in_changes_by who x sv :
  In x (changes_by who sv) <-> In (who, x) (pending sv).
Proof.
  unfold changes_by. rewrite in_map_iff. split.
  - intros ([s y] & <- & H). apply filter_In in H as [H Hs]. simpl in *.
    now destruct s, who.
  - intros H. exists (who, x). split; [reflexivity|].
    apply filter_In. split; [exact H|]. simpl. now destruct who.
Qed.

Lemma in_without who other x sv :
  same other who = false ->
  In (other, x) (pending sv) -> In (other, x) (without who sv).
Proof.
  intros Hs H. unfold without. apply filter_In. split; [exact H|].
  simpl. now rewrite Hs.
Qed.

Lemma generated_number_prefix e d :
  like_prefix (Invoice.prefix (now e)) (generated_number e d) = true.
Proof.
  unfold generated_number, Invoice.generateInvoiceNumber, pool_execute.
  destruct (fails e LookupLastNumber); simpl; unfold Invoice.next_number;
    apply prefix_append.
Qed.


Lemma served_mono d number (ins ins' : session -> bool) sv :
  (forall s, ins s = true -> ins' s = true) ->
  served d number ins sv -> served d number ins' sv.
Proof.
  intros Hm (H1 & H2 & (extra & H3 & H4) & H5).
  split; [exact H1|]. split; [exact H2|]. split.
  - exists extra. split; [exact H3|].
    eapply List.Forall_impl; [|exact H4].
    intros r (who & Hn & Hi). exists who. auto.
  - eapply List.Forall_impl; [|exact H5].
    intros p H r Hr. destruct (H r Hr). auto.
Qed.

Lemma same_sym a b : same a b = same b a.
Proof. now destruct a, b. Qed.

Lemma same_true a b : same a b = true -> a = b.
Proof. now destruct a, b. Qed.

Lemma in_place_users sv : users (in_place sv) = users (stored sv).
Proof. apply redo_users. Qed.

Lemma in_place_medicines sv k :
  medicines (in_place sv) !! k = None <-> medicines (stored sv) !! k = None.
Proof. apply redo_medicines. Qed.

Lemma in_place_invoices sv r :
  In r (invoices (in_place sv))
  <-> In r (invoices (stored sv))
      \/ exists who, In (who, NewInvoice r) (pending sv).
Proof.
  unfold in_place. rewrite redo_invoices, in_app_iff, in_new_invoices.
  rewrite in_map_iff. split.
  - intros [H|([who x] & Hx & H)]; [now left|]. simpl in Hx. subst x.
    right. now exists who.
  - intros [H|[who H]]; [now left|]. right. now exists (who, NewInvoice r).
Qed.

Section OneCall.
Variables (d : db) (number : session -> string) (ins : session -> bool)
  (c : sale_call) (who : session).
Hypothesis Hclear : unhindered c d.
Hypothesis Hnumber : number who = generated_number (call_env c) d.
Hypothesis Hother : forall other,
  same who other = false ->
  like_prefix (Invoice.prefix (now (call_env c))) (number other) = false.

Lemma numbers_differ other :
  same who other = false -> number other <> number who.
Proof.
  intros Hs E. specialize (Hother other Hs).
  rewrite E, Hnumber, generated_number_prefix in Hother. discriminate.
Qed.

(** While the call has not inserted its invoice, no row on the server
    carries its number. *)
Lemma number_on_server sv r :
  served d number ins sv ->
  ins who = false ->
  In r (invoices (in_place sv)) ->
  In r (invoices (committed d))
  \/ exists other, same who other = false
                   /\ inv_invoice_number r = number other.
Proof.
  intros (_ & _ & (extra & H3 & H4) & H5) Hi Hr.
  apply in_place_invoices in Hr as [Hr|[s Hr]].
  - rewrite H3 in Hr. apply in_app_iff in Hr as [Hr|Hr]; [now left|].
    right. rewrite List.Forall_forall in H4.
    destruct (H4 r Hr) as (s & Hn & Hs). exists s. split; [|exact Hn].
    destruct (same who s) eqn:E; [|reflexivity].
    apply same_true in E. subst s. congruence.
  - right. rewrite List.Forall_forall in H5.
    destruct (H5 _ Hr r eq_refl) as [Hn Hs]. simpl in *.
    exists s. split; [|exact Hn].
    destruct (same who s) eqn:E; [|reflexivity].
    apply same_true in E. subst s. congruence.
Qed.

Lemma number_free sv :
  served d number ins sv ->
  ins who = false ->
  number_taken (number who) (in_place sv) = false.
Proof.
  intros Hsv Hi. destruct Hclear as (_ & _ & _ & Hfree).
  unfold number_taken in *.
  destruct (existsb _ (invoices (in_place sv))) eqn:E; [|reflexivity].
  apply existsb_exists in E as (r & Hr & Hn). apply String.eqb_eq in Hn.
  destruct (number_on_server sv r Hsv Hi Hr) as [Hd|(s & Hs & Hn')].
  - rewrite <- Hnumber, <- Hn in Hfree.
    assert (Ht : existsb
                   (fun r0 => String.eqb (inv_invoice_number r0)
                                (inv_invoice_number r))
                   (invoices (committed d)) = true).
    { apply existsb_exists. exists r. split; [exact Hd|apply String.eqb_refl]. }
    congruence.
  - exfalso. apply (numbers_differ s Hs). congruence.
Qed.

(** The lookup of the last number finds what it finds on [d]. *)
Lemma lookup_unchanged sv :
  served d number ins sv ->
  ins who = false ->
  select_last_invoice_number (Invoice.prefix (now (call_env c))) (stored sv)
  = select_last_invoice_number (Invoice.prefix (now (call_env c)))
      (committed d).
Proof.
  intros (_ & _ & (extra & H3 & H4) & _) Hi.
  unfold select_last_invoice_number, last_invoice_like.
  set (f := fun r => like_prefix (Invoice.prefix (now (call_env c)))
                       (inv_invoice_number r)).
  assert (Hnil : List.filter f extra = []).
  { clear H3. induction extra as [|r extra IH]; [reflexivity|].
    inversion H4 as [|? ? (s & Hn & Hs) Hrest]; subst. simpl.
    unfold f at 1. rewrite Hn, Hother; [now apply IH|].
    destruct (same who s) eqn:E; [|reflexivity].
    apply same_true in E. subst s. congruence. }
  now rewrite H3, List.filter_app, Hnil, app_nil_r.
Qed.

Lemma loop_passable data_number id : forall items k,
  Forall (fun i => medicines (committed d) !! Sale.medicine_id i <> None)
    items ->
  Forall (passable d id)
    (map snd
       (loop_round_trips (call_data c) data_number id k items)).
Proof.
  destruct Hclear as (_ & Hu & _ & _).
  induction items as [|i items IH]; intros k H; [constructor|].
  inversion H as [|? ? Hi Hrest]; subst. simpl.
  repeat constructor; auto.
Qed.

Lemma loop_length data number0 id items : forall k,
  length (loop_round_trips data number0 id k items) = (3 * length items)%nat.
Proof.
  induction items as [|i items IH]; intros k; [reflexivity|].
  simpl. rewrite IH. lia.
Qed.

(** A passable statement goes through. *)
Lemma passable_executes st id s sv :
  served d number ins sv ->
  passable d id s ->
  (exists r who', In (who', NewInvoice r) (pending sv) /\ inv_id r = id) ->
  exists sv' i,
    execute (call_env c) st who s sv = inr (sv', i)
    /\ stored sv' = stored sv
    /\ pending sv' = pending sv ++ map (pair who) (changes_of s (next_ids sv))
    /\ new_invoices (changes_of s (next_ids sv)) = [].
Proof.
  intros (H1 & H2 & _) Hp (r & s' & Hr & Hid).
  destruct Hclear as (Hcalm & _).
  unfold execute. rewrite Hcalm.
  assert (Hex : invoice_exists id (in_place sv) = true).
  { unfold invoice_exists. apply existsb_exists. exists r. split.
    - apply in_place_invoices. right. now exists s'.
    - now apply Z.eqb_eq. }
  assert (Hm : forall k, medicines (committed d) !! k <> None ->
                         medicines (in_place sv) !! k <> None).
  { intros k Hk E. apply in_place_medicines, H2 in E. contradiction. }
  assert (Hu : forall k, users (committed d) !! k <> None ->
                         users (in_place sv) !! k <> None).
  { intros k Hk. now rewrite in_place_users, H1. }
  destruct s; simpl in Hp; try contradiction; simpl.
  - destruct Hp as [-> Hk]. rewrite Hex. simpl.
    rewrite bool_decide_eq_false_2 by now apply Hm.
    eexists _, _. repeat split.
  - eexists _, _. repeat split.
  - destruct Hp as [Hk Hv].
    rewrite bool_decide_eq_false_2 by now apply Hm.
    rewrite bool_decide_eq_false_2 by now apply Hu.
    eexists _, _. repeat split.
Qed.

Lemma others_keep_course sv sv' :
  (forall x, In x (pending sv) ->
             same (fst x) who = false -> In x (pending sv')) ->
  (forall r, In r (invoices (stored sv)) -> In r (invoices (stored sv'))) ->
  forall other th2,
    same who other = false ->
    on_course d (number other) other th2 sv ->
    on_course d (number other) other th2 sv'.
Proof.
  intros Hp Hs other th2 Ho. unfold on_course.
  destruct (at_stage th2); auto.
  - intros [(r & Hr & Hid) Hall]. split; [|exact Hall].
    exists r. split; [|exact Hid]. apply Hp; [exact Hr|].
    simpl. now rewrite same_sym.
  - intros (r & Hr & Hid). exists r. auto.
Qed.

(** A round trip of a call on course: the call stays on course, it has one
    round trip less before it, and the other call stays on course. *)
Lemma step_on_course th sv th' sv' :
  ins who = inserted (at_stage th) ->
  served d number ins sv ->
  on_course d (number who) who th sv ->
  step (call_env c) (call_data c) (call_items c) who th sv = (th', sv') ->
  served d number
    (fun s => if same s who then inserted (at_stage th') else ins s) sv'
  /\ on_course d (number who) who th' sv'
  /\ round_trips_left (call_items c) (at_stage th')
     = pred (round_trips_left (call_items c) (at_stage th))
  /\ (forall other th2,
        same who other = false ->
        on_course d (number other) other th2 sv ->
        on_course d (number other) other th2 sv').
Proof.
  intros Hins Hsv Hon.
  pose proof Hclear as (Hcalm & Hu & Hitems & Hfree).
  assert (Hmono : forall st',
             (inserted (at_stage th) = true -> inserted st' = true) ->
             forall s, ins s = true ->
                       (if same s who then inserted st' else ins s) = true).
  { intros st' H s Hs. destruct (same s who) eqn:E; [|exact Hs].
    apply same_true in E. subst s. apply H. congruence. }
  unfold step. unfold on_course in Hon. unfold on_course at 1.
  destruct (at_stage th) as [| |n|id [|[st s] rest]|id|id r0| |o] eqn:Hat.
  - (* Opening *)
    rewrite !Hcalm. intros [= <- <-]. simpl.
    split; [|repeat split; auto; lia].
    eapply served_mono; [|exact Hsv]. now apply (Hmono Numbering).
  - (* Numbering *)
    intros [= <- <-]. simpl.
    split; [eapply served_mono; [|exact Hsv]; now apply (Hmono Numbering)|].
    split; [|split; [lia|auto]].
    unfold pool_read. rewrite Hcalm, (lookup_unchanged sv Hsv Hins), Hnumber.
    unfold generated_number, Invoice.generateInvoiceNumber, pool_execute.
    now rewrite Hcalm.
  - (* Heading *)
    subst n. unfold execute. rewrite Hcalm. simpl.
    rewrite (number_free sv Hsv Hins).
    rewrite bool_decide_eq_false_2
      by (rewrite in_place_users; destruct Hsv as (-> & _); exact Hu).
    intros [= <- <-]. simpl.
    split; [|split; [|split]].
    + destruct Hsv as (H1 & H2 & (extra & H3 & H4) & H5).
      split; [exact H1|]. split; [exact H2|]. split.
      * exists extra. split; [exact H3|].
        eapply List.Forall_impl; [|exact H4].
        intros r (s & Hn & Hs). exists s. split; [exact Hn|].
        now apply (Hmono (InTransaction 0 [])).
      * apply Forall_app. split.
        -- eapply List.Forall_impl; [|exact H5].
           intros p H r Hr. destruct (H r Hr) as [Hn Hs].
           split; [exact Hn|]. now apply (Hmono (InTransaction 0 [])).
        -- constructor; [|constructor]. simpl. intros r [= <-].
           simpl. now rewrite same_refl.
    + split; [|now apply loop_passable].
      eexists. split; [apply in_or_app; right; now left|reflexivity].
    + rewrite loop_length. lia.
    + apply others_keep_course; simpl; auto.
      intros x Hx _. apply in_or_app. now left.
  - (* the commit *)
    destruct Hon as [(r & Hr & Hid) _].
    rewrite Hcalm. intros [= <- <-]. unfold moved, commit.
    cbn [at_stage stored pending inserted round_trips_left length].
    split; [|split; [|split]].
    + destruct Hsv as (H1 & H2 & (extra & H3 & H4) & H5).
      unfold served. cbn [stored pending].
      split; [now rewrite redo_users|]. split.
      { intros k. now rewrite redo_medicines. }
      split.
      * exists (extra ++ new_invoices (changes_by who sv)).
        split; [now rewrite redo_invoices, H3, app_assoc|].
        apply Forall_app. split.
        -- eapply List.Forall_impl; [|exact H4].
           intros r1 (s & Hn & Hs). exists s. split; [exact Hn|].
           now apply (Hmono (Fetching 0)).
        -- apply List.Forall_forall. intros r1 Hr1.
           apply in_new_invoices, in_changes_by in Hr1.
           rewrite List.Forall_forall in H5.
           destruct (H5 _ Hr1 r1 eq_refl) as [Hn Hs]. simpl in *.
           exists who. split; [exact Hn|]. now rewrite same_refl.
      * apply List.Forall_forall. intros x Hx.
        apply filter_In in Hx as [Hx _].
        rewrite List.Forall_forall in H5. intros r1 Hr1.
        destruct (H5 x Hx r1 Hr1) as [Hn Hs]. split; [exact Hn|].
        now apply (Hmono (Fetching 0)).
    + exists r. split; [|exact Hid].
      rewrite redo_invoices. apply in_or_app. right.
      now apply in_new_invoices, in_changes_by.
    + reflexivity.
    + apply others_keep_course; simpl.
      * intros x Hx Hs. apply filter_In. split; [exact Hx|].
        now rewrite Hs.
      * intros r1 Hr1. rewrite redo_invoices. apply in_or_app. now left.
  - (* a statement of the loop *)
    destruct Hon as [(r & Hr & Hid) Hall].
    simpl in Hall. inversion Hall as [|? ? Hp Hrest]; subst.
    destruct (passable_executes st (inv_id r) s sv Hsv Hp)
      as (sv1 & i & -> & Hst & Hpe & Hnew); [now exists r, who|].
    intros [= <- <-]. simpl.
    split; [|split; [|split]].
    + destruct Hsv as (H1 & H2 & (extra & H3 & H4) & H5).
      unfold served. rewrite Hst, Hpe.
      split; [exact H1|]. split; [exact H2|]. split.
      * exists extra. split; [exact H3|].
        eapply List.Forall_impl; [|exact H4].
        intros r1 (s1 & Hn & Hs). exists s1. split; [exact Hn|].
        now apply (Hmono (InTransaction 0 [])).
      * apply Forall_app. split.
        -- eapply List.Forall_impl; [|exact H5].
           intros p H r1 Hr1. destruct (H r1 Hr1) as [Hn Hs].
           split; [exact Hn|]. now apply (Hmono (InTransaction 0 [])).
        -- apply List.Forall_forall. intros x Hx r1 Hr1.
           apply in_map_iff in Hx as (y & <- & Hy). simpl in Hr1. subst y.
           apply in_new_invoices in Hy. rewrite Hnew in Hy. destruct Hy.
    + split; [|exact Hrest]. exists r. split; [|reflexivity].
      rewrite Hpe. apply in_or_app. now left.
    + simpl. lia.
    + apply others_keep_course.
      * intros x Hx _. rewrite Hpe. apply in_or_app. now left.
      * now rewrite Hst.
  - (* Fetching *)
    destruct Hon as (r & Hr & Hid).
    unfold pool_read. rewrite Hcalm.
    assert (Hrows : exists x l, select_invoice_by_id id (stored sv) = x :: l).
    { unfold select_invoice_by_id.
      destruct (List.filter _ (invoices (stored sv))) as [|y l] eqn:E.
      - assert (Hin : In r (List.filter (fun r1 => inv_id r1 =? id)
                              (invoices (stored sv)))).
        { apply filter_In. split; [exact Hr|]. now apply Z.eqb_eq. }
        rewrite E in Hin. destruct Hin.
      - simpl. eauto. }
    destruct Hrows as (x & l & ->). simpl. intros [= <- <-]. simpl.
    split; [eapply served_mono; [|exact Hsv]; now apply (Hmono (Fetching id))|].
    repeat split; auto.
  - (* FetchingItems *)
    unfold pool_read. rewrite Hcalm. simpl. intros [= <- <-]. simpl.
    split; [eapply served_mono; [|exact Hsv]; now apply (Hmono (Fetching id))|].
    split; [eauto|]. split; auto.
  - (* Recovering *)
    destruct Hon.
  - (* Over *)
    intros [= <- <-]. rewrite Hat.
    split; [eapply served_mono; [|exact Hsv]; now apply (Hmono (Over o))|].
    repeat split; auto.
Qed.

End OneCall.


Section TwoCalls.
Variables (a b : sale_call) (d : db).
Hypothesis Ha : unhindered a d.
Hypothesis Hb : unhindered b d.
Hypothesis Hab : other_day a b d.
Hypothesis Hba : other_day b a d.

Lemma turn_on_course x who :
  both_on_course a b d x ->
  both_on_course a b d (turn a b x who)
  /\ round_trips_left (call_items a) (at_stage (first (turn a b x who)))
     = (round_trips_left (call_items a) (at_stage (first x))
        - (if same First who then 1 else 0))%nat
  /\ round_trips_left (call_items b) (at_stage (second (turn a b x who)))
     = (round_trips_left (call_items b) (at_stage (second x))
        - (if same Second who then 1 else 0))%nat.
Proof.
  intros (Hsv & H1 & H2). unfold turn. destruct who.
  - destruct (step _ _ _ First _ _) as [th sv] eqn:E.
    assert (Hother : forall other,
               same First other = false ->
               like_prefix (Invoice.prefix (now (call_env a)))
                 (number_of a b d other) = false)
      by (intros [|] H; [discriminate|exact Hab]).
    destruct (step_on_course d (number_of a b d) (inserted_by x) a First
                Ha eq_refl Hother _ _ _ _ eq_refl Hsv H1 E)
      as (Hsv' & H1' & Hleft & Hoth).
    simpl. split; [|split; [rewrite Hleft; lia|lia]].
    split; [|split; [exact H1'|now apply Hoth]].
    eapply served_mono; [|exact Hsv']. now intros [|].
  - destruct (step _ _ _ Second _ _) as [th sv] eqn:E.
    assert (Hother : forall other,
               same Second other = false ->
               like_prefix (Invoice.prefix (now (call_env b)))
                 (number_of a b d other) = false)
      by (intros [|] H; [exact Hba|discriminate]).
    destruct (step_on_course d (number_of a b d) (inserted_by x) b Second
                Hb eq_refl Hother _ _ _ _ eq_refl Hsv H2 E)
      as (Hsv' & H2' & Hleft & Hoth).
    simpl. split; [|split; [lia|rewrite Hleft; lia]].
    split; [|split; [now apply Hoth|exact H2']].
    eapply served_mono; [|exact Hsv']. now intros [|].
Qed.

Lemma run_on_course schedule : forall x,
  both_on_course a b d x ->
  let y := fold_left (turn a b) schedule x in
  both_on_course a b d y
  /\ round_trips_left (call_items a) (at_stage (first y))
     = (round_trips_left (call_items a) (at_stage (first x))
        - turns_of First schedule)%nat
  /\ round_trips_left (call_items b) (at_stage (second y))
     = (round_trips_left (call_items b) (at_stage (second x))
        - turns_of Second schedule)%nat.
Proof.
  unfold turns_of.
  induction schedule as [|who l IH]; intros x H; simpl.
  - split; [exact H|split; lia].
  - destruct (turn_on_course x who H) as (H' & L1 & L2).
    destruct (IH _ H') as (H'' & L1' & L2').
    split; [exact H''|]. rewrite L1', L2', L1, L2.
    destruct who; simpl; split; lia.
Qed.

Lemma begin_on_course : both_on_course a b d (begin d).
Proof.
  split; [|split; exact I].
  split; [reflexivity|]. split; [reflexivity|]. split; [|constructor].
  exists []. split; [now rewrite app_nil_r|constructor].
Qed.

Lemma on_course_over number who items th sv :
  on_course d number who th sv ->
  round_trips_left items (at_stage th) = 0%nat ->
  exists invoice, at_stage th = Over (Invoice.Returned (Some invoice)).
Proof.
  unfold on_course. destruct (at_stage th); simpl; try lia.
  intros (invoice & ->) _. now exists invoice.
Qed.

(** When nothing stops them, both calls return their invoice, in whatever
    order their round trips are made. *)
Lemma both_return schedule :
  (round_trips (call_items a) <= turns_of First schedule)%nat ->
  (round_trips (call_items b) <= turns_of Second schedule)%nat ->
  exists invoiceA invoiceB,
    at_stage (first (run_both a b schedule d))
    = Over (Invoice.Returned (Some invoiceA))
    /\ at_stage (second (run_both a b schedule d))
       = Over (Invoice.Returned (Some invoiceB)).
Proof.
  intros HtA HtB. unfold run_both, round_trips in *.
  destruct (run_on_course schedule (begin d) begin_on_course)
    as ((_ & H1 & H2) & L1 & L2).
  simpl in L1, L2.
  destruct (on_course_over _ _ (call_items a) _ _ H1) as [iA EA]; [lia|].
  destruct (on_course_over _ _ (call_items b) _ _ H2) as [iB EB]; [lia|].
  now exists iA, iB.
Qed.

End TwoCalls.

End Progress.

(* ===================================================================== *)
(** * Both sales count                                                  *)
(* ===================================================================== *)

Section ConcurrentSales.
Import Db Database Props Parallel.

(** C6.  Two calls of [create] are under way at once: each is at one of
    its [await]s, and the schedule says which call makes the next round
    trip.  A call that runs alone in this way is [create].  Whatever the
    schedule, the environments and the requests, the committed stock of a
    medicine is its initial stock less what each call sells whose
    transaction is committed (a call that has returned an invoice is
    one), and no statement sent overwrites a stock value: the stock is
    changed by [quantity_in_stock = quantity_in_stock - ?] alone, which the
    server computes on the value it holds.  So both sales count, also when
    their statements alternate.  And they do both go through: when no round
    trip fails, the rows referred to exist, the two invoice numbers are
    free and belong to different days, and the schedule lets both calls
    finish, both return their invoice and the stock is the initial stock
    less both quantities. *)
Theorem concurrent_sales_both_count (a b : sale_call) (d : db)
  (schedule : list session) (m q : Z) :
  stock_of m (committed d) = Some q ->
  let x := run_both a b schedule d in
  (let c := Invoice.create (call_env a) d (call_data a) (call_items a) in
   let y :=
     alone (round_trips (call_items a)) (call_env a) (call_data a)
       (call_items a) start (server_of d) in
   at_stage (fst y) = Over (Invoice.result c)
   /\ sent (fst y) = Invoice.issued c
   /\ db_of (snd y) = Invoice.final c)
  /\ stock_of m (stored (shared x)) = Some (stock_after a b m q x)
  /\ (forall invoice,
        at_stage (first x) = Over (Invoice.Returned (Some invoice)) ->
        has_committed a (first x) = true)
  /\ (forall invoice,
        at_stage (second x) = Over (Invoice.Returned (Some invoice)) ->
        has_committed b (second x) = true)
  /\ relative (sent (first x) ++ sent (second x))
  /\ (unhindered a d -> unhindered b d ->
      other_day a b d -> other_day b a d ->
      (round_trips (call_items a) <= turns_of First schedule)%nat ->
      (round_trips (call_items b) <= turns_of Second schedule)%nat ->
      exists invoiceA invoiceB,
        at_stage (first x) = Over (Invoice.Returned (Some invoiceA))
        /\ at_stage (second x) = Over (Invoice.Returned (Some invoiceB))
        /\ stock_of m (stored (shared x))
           = Some (q - sold m a - sold m b)).
Proof.
  intros Hq x.
  pose proof (run_balanced a b m q schedule (begin d)
                (begin_balanced a b m q d Hq)) as (HA & HB & Hs & RA & RB).
  fold (run_both a b schedule d) in HA, HB, Hs, RA, RB.
  fold x in HA, HB, Hs, RA, RB.
  split; [apply alone_is_create|].
  split; [exact Hs|].
  split; [intros invoice; now apply returned_has_committed with (1 := HA)|].
  split; [intros invoice; now apply returned_has_committed with (1 := HB)|].
  split; [apply Forall_app; now split|].
  intros Ha Hb Hab Hba HtA HtB.
  destruct (both_return a b d Ha Hb Hab Hba schedule HtA HtB)
    as (iA & iB & EA & EB).
  exists iA, iB. split; [exact EA|]. split; [exact EB|].
  fold x in EA, EB. rewrite Hs. unfold stock_after.
  rewrite (returned_has_committed m a _ _ iA HA EA).
  rewrite (returned_has_committed m b _ _ iB HB EB). reflexivity.
Qed.

Lemma concurrent_sales_both_count_witness :
  let x :=
    run_both Sample.before_midnight Sample.after_midnight
      Sample.overlapping Sample.fresh in
  let y :=
    run_both Sample.same_day Sample.same_day Sample.second_waits
      Sample.fresh in
  stock_of 4 (committed Sample.fresh) = Some 10
  /\ (exists invoiceA invoiceB,
         at_stage (first x) = Over (Invoice.Returned (Some invoiceA))
         /\ at_stage (second x) = Over (Invoice.Returned (Some invoiceB))
         /\ stock_of 4 (stored (shared x))
            = Some (10 - sold 4 Sample.before_midnight
                    - sold 4 Sample.after_midnight))
  /\ stock_of 4 (stored (shared x)) = Some 0
  /\ map inv_invoice_number (invoices (stored (shared x)))
     = ["INV-20240115-001"; "INV-20240116-001"]
  /\ map mov_reference_id (stock_movements (stored (shared x)))
     = [Some 1; Some 2]
  /\ has_committed Sample.same_day (first y) = true
  /\ has_committed Sample.same_day (second y) = true
  /\ stock_of 4 (stored (shared y)) = Some 0
  /\ map inv_invoice_number (invoices (stored (shared y)))
     = ["INV-20240115-001"; "INV-20240115-002"].
Proof.
  cbv zeta. split; [reflexivity|]. split.
  - apply (proj2 (proj2 (proj2 (proj2 (proj2
             (concurrent_sales_both_count Sample.before_midnight
                Sample.after_midnight Sample.fresh Sample.overlapping
                4 10 eq_refl)))))).
    + split; [intros st; reflexivity|].
      split; [vm_compute; discriminate|].
      split; [repeat constructor; vm_compute; discriminate|].
      vm_compute. reflexivity.
    + split; [intros st; reflexivity|].
      split; [vm_compute; discriminate|].
      split; [repeat constructor; vm_compute; discriminate|].
      vm_compute. reflexivity.
    + vm_compute. reflexivity.
    + vm_compute. reflexivity.
    + vm_compute. lia.
    + vm_compute. lia.
  - repeat (split; [vm_compute; reflexivity|]). vm_compute. reflexivity.
Defined.

End ConcurrentSales.

(* ===================================================================== *)
(** * The answers of POST /sales/invoice                                  *)
(* ===================================================================== *)

Section RouteAnswers.
Import Db Database Props.

Lemma triple_eta {A B C : Type} (x : A * B * C) :
  x = (fst (fst x), snd (fst x), snd x).
Proof. now destruct x as [[a b] c]. Qed.

Lemma validation_messages b msg rest :
  Pharmacist.validationResult b = msg :: rest ->
  msg = "At least one item is required"
  \/ msg = "Total amount must be a positive number"
  \/ msg = "Final amount must be a positive number".
Proof.
  unfold Pharmacist.validationResult.
  destruct (Pharmacist.items_valid b),
    (Pharmacist.amount_valid (Pharmacist.total_amount b)),
    (Pharmacist.amount_valid (Pharmacist.final_amount b));
    simpl; intros [= <- _] || discriminate; auto.
Qed.

(** The validators pass exactly the requests with at least one item and two
    amounts that are not negative. *)
Lemma validation_passes b :
  Pharmacist.validationResult b = [] <->
  exists items total final,
    Pharmacist.items b = Some items /\ items <> []
    /\ Pharmacist.total_amount b = Some total /\ 0 <= total
    /\ Pharmacist.final_amount b = Some final /\ 0 <= final.
Proof.
  unfold Pharmacist.validationResult, Pharmacist.items_valid,
    Pharmacist.amount_valid.
  destruct (Pharmacist.items b) as [[|i l]|];
    destruct (Pharmacist.total_amount b) as [total|];
    destruct (Pharmacist.final_amount b) as [final|]; simpl;
    try (split;
         [try discriminate;
          destruct (0 <=? total); discriminate
         |intros (? & ? & ? & ? & ? & ? & ? & ? & ?); congruence]).
  destruct (Z.leb_spec 0 total), (Z.leb_spec 0 final); simpl.
  - split; [|reflexivity].
    intros _. exists (i :: l), total, final. repeat split; auto.
  - split; [discriminate|].
    intros (? & ? & ? & ? & ? & [= <-] & ? & [= <-] & ?). lia.
  - split; [discriminate|].
    intros (? & ? & ? & ? & ? & [= <-] & ? & [= <-] & ?). lia.
  - split; [discriminate|].
    intros (? & ? & ? & ? & ? & [= <-] & ? & [= <-] & ?). lia.
Qed.

(** X1.  The handler of [POST /sales/invoice] answers 400 exactly when the
    request does not carry a non-empty array of items, a total that is a
    number not below zero and a final amount that is a number not below
    zero; zero itself is accepted.  A request answered with 400 has sent no
    statement and has left the server state as it was, and the message of
    the answer is that of the first check that fails. *)
Theorem invalid_request_sends_nothing (e : env) (d : db) (uid : Z)
  (b : Pharmacist.body) (r : Pharmacist.response) (d' : db)
  (sent : list statement) :
  Pharmacist.post_sales_invoice e d uid b = (r, d', sent) ->
  (Pharmacist.status r = 400 <->
   ~ exists items total final,
       Pharmacist.items b = Some items /\ items <> []
       /\ Pharmacist.total_amount b = Some total /\ 0 <= total
       /\ Pharmacist.final_amount b = Some final /\ 0 <= final)
  /\ (Pharmacist.status r = 400 ->
      d' = d /\ sent = [] /\ Pharmacist.success r = false
      /\ head (Pharmacist.validationResult b) = Some (Pharmacist.message r)
      /\ In (Pharmacist.message r)
           [ "At least one item is required";
             "Total amount must be a positive number";
             "Final amount must be a positive number" ]).
Proof.
  intros H. rewrite <- validation_passes.
  unfold Pharmacist.post_sales_invoice in H.
  destruct (Pharmacist.validationResult b) as [|msg rest] eqn:Hv.
  - assert (Hs : Pharmacist.status r <> 400).
    { destruct (Invoice.result _) as [[invoice|]|x];
        injection H as <- _ _; simpl; discriminate. }
    split; [split; [contradiction|]|contradiction].
    intros Hn. now destruct Hn.
  - injection H as <- <- <-. simpl. split.
    + split; [discriminate|reflexivity].
    + intros _. repeat split.
      destruct (validation_messages b msg rest Hv) as [->|[->| ->]];
        simpl; auto.
Qed.

Lemma invalid_request_sends_nothing_witness :
  let answer :=
    Pharmacist.post_sales_invoice Sample.calm Sample.fresh 2
      Sample.negative_total in
  answer
  = (Pharmacist.reply 400 false "Total amount must be a positive number",
     Sample.fresh, [])
  /\ (Pharmacist.status (fst (fst answer)) = 400 ->
      snd (fst answer) = Sample.fresh /\ snd answer = []).
Proof.
  cbv zeta. split; [vm_compute; reflexivity|].
  intros Hs.
  destruct (invalid_request_sends_nothing Sample.calm Sample.fresh 2
              Sample.negative_total _ _ _ (triple_eta _)) as [_ H].
  destruct (H Hs) as (Hd & Hsent & _). split; assumption.
Defined.

(** X2.  An answer with status 200 is only given for a sale that is stored:
    the invoice row with the id and the number of the answer is in the
    committed tables, it is new, it names the session's user as pharmacist
    and holds the amounts of the request; as many line items as the request
    has refer to it; the stock of every medicine is what it was less the
    units sold of it; and the transaction was committed. *)
Theorem ok_response_means_stored (e : env) (d : db) (uid : Z)
  (b : Pharmacist.body) (r : Pharmacist.response) (d' : db)
  (sent : list statement) :
  wf d ->
  Pharmacist.post_sales_invoice e d uid b = (r, d', sent) ->
  Pharmacist.status r = 200 ->
  exists items row,
    Pharmacist.items b = Some items /\ items <> []
    /\ In row (invoices (committed d'))
    /\ inv_id row = next_invoice_id (ids d)
    /\ Pharmacist.invoice_id r = Some (inv_id row)
    /\ Pharmacist.invoice_number r = Some (inv_invoice_number row)
    /\ inv_pharmacist_id row = uid
    /\ Some (inv_total_amount row) = Pharmacist.total_amount b
    /\ Some (inv_final_amount row) = Pharmacist.final_amount b
    /\ length
         (List.filter (fun i => item_invoice_id i =? inv_id row)
            (invoice_items (committed d')))
       = length items
    /\ (forall m q,
          stock_of m (committed d) = Some q ->
          stock_of m (committed d')
          = Some (q - Sale.quantity_sold m items))
    /\ In COMMIT sent.
Proof.
  intros Hwf H Hs.
  unfold Pharmacist.post_sales_invoice in H.
  destruct (Pharmacist.validationResult b) as [|msg rest] eqn:Hv;
    [|injection H as <- _ _; discriminate].
  apply validation_passes in Hv
    as (items & total & final & Hi & Hne & Ht & Htp & Hf & Hfp).
  rewrite Hi in H. simpl in H.
  set (h := Pharmacist.invoiceData_of b uid) in *.
  destruct (Invoice.result (Invoice.create e d h items))
    as [[invoice|]|x] eqn:Hres;
    injection H as <- <- <-; try discriminate. clear Hs.
  destruct (create_committed e d h items invoice Hres)
    as (t' & c' & Hrun & Hfin & Hre).
  destruct (create_returned_row e d h items invoice t' c' Hwf Hrun Hre)
    as [Hid Hn].
  pose proof (committed_invoices e d h items t' c' Hrun) as Hinv.
  rewrite Hfin. simpl.
  eexists items, _. split; [exact Hi|]. split; [exact Hne|].
  split; [rewrite Hinv; apply in_or_app; right; left; reflexivity|].
  simpl. rewrite Hid, Hn, Ht, Hf. repeat split.
  - rewrite (committed_items e d h items t' c' Hrun), List.filter_app.
    rewrite filter_none, filter_all.
    + simpl. apply (sale_inserted_items_length e h).
    + apply (lines_invoice_id _ _ items), sale_inserted_items.
    + eapply List.Forall_impl; [|apply (wf_items _ Hwf)].
      simpl. intros i Hlt. apply Z.eqb_neq. lia.
  - intros m q Hq.
    now rewrite (committed_stock e d h items t' c' Hrun m), Hq.
  - destruct (create_cases e d h items)
      as [(_ & HR & _)|[(_ & _ & _ & HR)
                       |(_ & _ & _ & _ & _ & _ & _ & reads & HI)]].
    + rewrite Hres in HR. discriminate.
    + rewrite Hres in HR. destruct (fails e Rollback); discriminate.
    + rewrite HI. right. right. apply in_or_app. right. now left.
Qed.

Lemma ok_response_means_stored_witness :
  let answer :=
    Pharmacist.post_sales_invoice Sample.calm Sample.fresh 2
      (Sample.request (Some [Sample.sell 1 3])) in
  wf Sample.fresh
  /\ Pharmacist.status (fst (fst answer)) = 200
  /\ Pharmacist.invoice_number (fst (fst answer)) = Some "INV-20240115-001"
  /\ exists row,
      In row (invoices (committed (snd (fst answer))))
      /\ Pharmacist.invoice_number (fst (fst answer))
         = Some (inv_invoice_number row)
      /\ inv_pharmacist_id row = 2
      /\ stock_of 1 (committed (snd (fst answer))) = Some 97.
Proof.
  cbv zeta. split; [exact wf_fresh|].
  assert (Hs : Pharmacist.status
                 (fst (fst (Pharmacist.post_sales_invoice Sample.calm
                              Sample.fresh 2
                              (Sample.request (Some [Sample.sell 1 3])))))
               = 200) by (vm_compute; reflexivity).
  split; [exact Hs|]. split; [vm_compute; reflexivity|].
  destruct (ok_response_means_stored Sample.calm Sample.fresh 2
              (Sample.request (Some [Sample.sell 1 3])) _ _ _
              wf_fresh (triple_eta _) Hs)
    as (items & row & Hi & _ & Hin & _ & _ & Hn & Hp & _ & _ & _ & Hst & _).
  exists row. split; [exact Hin|]. split; [exact Hn|]. split; [exact Hp|].
  injection Hi as <-. apply (Hst 1 100). vm_compute. reflexivity.
Defined.

(** X3.  [create] throws in two cases only: the transaction cannot be
    opened, or it is stopped and the rollback fails as well.  These are the
    cases in which the handler of [POST /sales/invoice] answers "Error
    creating invoice"; the status is then 500 and the committed tables are
    what they were, and when the transaction could not be opened the whole
    server state is. *)
Theorem thrown_create_changes_nothing (e : env) (d : db) (uid : Z)
  (b : Pharmacist.body) (r : Pharmacist.response) (d' : db)
  (sent : list statement) :
  Pharmacist.validationResult b = [] ->
  Pharmacist.post_sales_invoice e d uid b = (r, d', sent) ->
  let invoiceData := Pharmacist.invoiceData_of b uid in
  let items := default [] (Pharmacist.items b) in
  let stopped :=
    spares e (transaction_steps (length items)) = false
    \/ exists x,
        run (transaction_statements e d invoiceData items)
          (committed d) (ids d) = inl x in
  (Pharmacist.message r = "Error creating invoice" <->
   opens e = false \/ (stopped /\ fails e Rollback = true))
  /\ (Pharmacist.message r = "Error creating invoice" ->
      Pharmacist.status r = 500 /\ committed d' = committed d)
  /\ (opens e = false -> d' = d).
Proof.
  intros Hv H invoiceData items stopped. subst stopped.
  unfold Pharmacist.post_sales_invoice in H. rewrite Hv in H.
  fold invoiceData items in H.
  destruct (create_cases e d invoiceData items)
    as [(Hopen & Hres & Hfin)|[(Hopen & Hfail & Hsame & Hres)
                              |(Hopen & Hs & t' & c' & Hrun & Hfin & Hres
                                & _)]];
    rewrite Hres in H.
  - injection H as <- <- <-. simpl. rewrite Hfin.
    repeat split; auto.
  - destruct (fails e Rollback); injection H as <- <- <-; simpl.
    + repeat split; auto; congruence.
    + split; [|split; [discriminate|congruence]].
      split; [discriminate|]. intros [?|[_ ?]]; congruence.
  - assert (Hno : Pharmacist.message r <> "Error creating invoice").
    { destruct (refetch e (next_invoice_id (ids d)) t');
        injection H as <- _ _; simpl; discriminate. }
    split; [|split; [contradiction|congruence]].
    split; [contradiction|].
    intros [?|[[?|[x Hx]] _]]; congruence.
Qed.

Lemma thrown_create_changes_nothing_witness :
  let b := Sample.request (Some [Sample.sell 1 3]) in
  let answer :=
    Pharmacist.post_sales_invoice Sample.rollback_fails Sample.fresh 2 b in
  Pharmacist.validationResult b = []
  /\ opens Sample.rollback_fails = true
  /\ fails Sample.rollback_fails Rollback = true
  /\ Pharmacist.message (fst (fst answer)) = "Error creating invoice"
  /\ Pharmacist.status (fst (fst answer)) = 500
  /\ committed (snd (fst answer)) = committed Sample.fresh.
Proof.
  cbv zeta. split; [reflexivity|]. split; [reflexivity|].
  split; [reflexivity|].
  assert (Hm : Pharmacist.message
                 (fst (fst (Pharmacist.post_sales_invoice
                              Sample.rollback_fails Sample.fresh 2
                              (Sample.request (Some [Sample.sell 1 3])))))
               = "Error creating invoice") by (vm_compute; reflexivity).
  split; [exact Hm|].
  destruct (thrown_create_changes_nothing Sample.rollback_fails Sample.fresh
              2 (Sample.request (Some [Sample.sell 1 3])) _ _ _
              eq_refl (triple_eta _)) as (_ & H & _).
  exact (H Hm).
Defined.

End RouteAnswers.

(* ===================================================================== *)
(** * What a sale leaves alone                                            *)
(* ===================================================================== *)

Section SaleFrame.
Import Db Database Props.

(** X4.  A sale that names a pharmacist who is not in [users], or a
    medicine that is not in [medicines], stores nothing: the committed
    tables are what they were (also the stock of the medicines named before
    the unknown one), and the call returns no invoice. *)
Theorem unknown_reference_stores_nothing (e : env) (d : db)
  (invoiceData : Sale.header) (items : list Sale.item) :
  users (committed d) !! Sale.pharmacist_id invoiceData = None
  \/ (exists i, In i items
                /\ medicines (committed d) !! Sale.medicine_id i = None) ->
  let c := Invoice.create e d invoiceData items in
  committed (Invoice.final c) = committed d
  /\ forall invoice, Invoice.result c <> Invoice.Returned (Some invoice).
Proof.
  intros Hmiss c. subst c.
  destruct (create_cases e d invoiceData items)
    as [(_ & Hres & ->)|[(_ & _ & Hsame & Hres)
                        |(_ & _ & t' & c' & Hrun & _)]].
  - split; [reflexivity|]. intros invoice. rewrite Hres. discriminate.
  - split; [exact Hsame|]. intros invoice. rewrite Hres.
    destruct (fails e Rollback); discriminate.
  - exfalso. destruct Hmiss as [Hu|(i & Hi & Hm)].
    + destruct (pharmacist_known e d invoiceData items t' c' Hrun)
        as [name Hname].
      congruence.
    + destruct (committed_medicine_known e d invoiceData items t' c' Hrun
                  (Sale.medicine_id i)) as [q Hq].
      * apply in_map. exact Hi.
      * unfold stock_of in Hq. rewrite Hm in Hq. discriminate.
Qed.

Lemma unknown_reference_stores_nothing_witness :
  let items := [Sample.sell 1 3; Sample.sell 9 1] in
  let c := Invoice.create Sample.calm Sample.fresh Sample.header items in
  medicines (committed Sample.fresh) !! 9 = None
  /\ committed (Invoice.final c) = committed Sample.fresh
  /\ Invoice.result c = Invoice.Returned None.
Proof.
  cbv zeta. split; [vm_compute; reflexivity|].
  destruct (unknown_reference_stores_nothing Sample.calm Sample.fresh
              Sample.header [Sample.sell 1 3; Sample.sell 9 1]) as [H _].
  - right. exists (Sample.sell 9 1).
    split; [simpl; auto|vm_compute; reflexivity].
  - split; [exact H|vm_compute; reflexivity].
Defined.

Lemma sale_inserted_movements_length e invoiceData invoiceNumber invoiceId
  items : forall next,
  length
    (inserted_movements
       (Invoice.sale_statements e invoiceData invoiceNumber invoiceId items)
       next)
  = length items.
Proof.
  simpl. induction items as [|i items IH]; intros next; simpl;
    [reflexivity|]. now rewrite IH.
Qed.

(** X5.  Whatever its outcome, a call of [create] only appends: the rows of
    [invoices], [invoice_items] and [stock_movements] that were there stay
    as they are, in their order, followed by at most one new invoice and at
    most one line item and one movement per element of [items]; [users] and
    [companies] are untouched; no medicine is added or removed, and of a
    medicine nothing but the stock changes. *)
Theorem create_only_appends (e : env) (d : db) (invoiceData : Sale.header)
  (items : list Sale.item) :
  let after :=
    committed (Invoice.final (Invoice.create e d invoiceData items)) in
  users after = users (committed d)
  /\ companies after = companies (committed d)
  /\ (exists new,
         invoices after = invoices (committed d) ++ new
         /\ (length new <= 1)%nat)
  /\ (exists new,
         invoice_items after = invoice_items (committed d) ++ new
         /\ (length new <= length items)%nat)
  /\ (exists new,
         stock_movements after = stock_movements (committed d) ++ new
         /\ (length new <= length items)%nat)
  /\ forall m,
      exists k,
        medicines after !! m = restocked k <$> medicines (committed d) !! m.
Proof.
  assert (Hsame : forall t : tables,
             users t = users t /\ companies t = companies t
             /\ (exists new, invoices t = invoices t ++ new
                             /\ (length new <= 1)%nat)
             /\ (exists new, invoice_items t = invoice_items t ++ new
                             /\ (length new <= length items)%nat)
             /\ (exists new, stock_movements t = stock_movements t ++ new
                             /\ (length new <= length items)%nat)
             /\ forall m, exists k,
                 medicines t !! m = restocked k <$> medicines t !! m).
  { intros t. split; [reflexivity|]. split; [reflexivity|].
    repeat (split; [exists []; rewrite app_nil_r; simpl; split;
                               [reflexivity|lia]|]).
    intros m. exists 0. unfold restocked.
    destruct (medicines t !! m) as [r|]; simpl; [|reflexivity].
    now rewrite set_quantity_same. }
  cbv zeta.
  destruct (create_cases e d invoiceData items)
    as [(_ & _ & ->)|[(_ & _ & -> & _)
                     |(_ & _ & t' & c' & Hrun & -> & _)]];
    try apply Hsame.
  simpl committed.
  destruct (run_frame _ _ _ _ _ Hrun) as (HU & HC & HI & HT & HM & _).
  split; [exact HU|]. split; [exact HC|].
  unfold transaction_statements in *.
  split; [eexists; split; [exact HI|]|].
  { now rewrite sale_inserted_invoices. }
  split; [eexists; split; [exact HT|]|].
  { now rewrite sale_inserted_items_length. }
  split; [eexists; split; [exact HM|]|].
  { now rewrite sale_inserted_movements_length. }
  intros m. exists (Sale.quantity_sold m items).
  rewrite (run_medicines _ m _ _ _ _ Hrun)
    by apply sale_never_overwrites.
  now rewrite sale_stock_taken.
Qed.

Lemma sale_moved_out e invoiceData invoiceNumber invoiceId m items :
  forall next,
  fold_right Z.add 0
    (map mov_quantity
       (List.filter (out_of m)
          (inserted_movements
             (Invoice.sale_statements e invoiceData invoiceNumber invoiceId
                items) next)))
  = Sale.quantity_sold m items.
Proof.
  unfold Sale.quantity_sold. simpl.
  induction items as [|i items IH]; intros n; simpl; [reflexivity|].
  unfold out_of at 1. simpl.
  destruct (Sale.medicine_id i =? m); simpl; now rewrite IH.
Qed.

(** One call keeps the balance of every medicine. *)
Lemma create_keeps_balance e d invoiceData items m :
  balance m (committed (Invoice.final (Invoice.create e d invoiceData items)))
  = balance m (committed d).
Proof.
  destruct (create_cases e d invoiceData items)
    as [(_ & _ & ->)|[(_ & _ & -> & _)
                     |(_ & _ & t' & c' & Hrun & -> & _)]];
    try reflexivity.
  unfold balance, moved_out. simpl committed.
  rewrite (committed_stock e d invoiceData items t' c' Hrun m).
  rewrite (committed_movements e d invoiceData items t' c' Hrun).
  rewrite List.filter_app, map_app, fold_right_app.
  unfold transaction_statements. rewrite sale_moved_out.
  destruct (stock_of m (committed d)) as [q|]; simpl; [|reflexivity].
  f_equal.
  generalize (Sale.quantity_sold m items) as k.
  induction (map mov_quantity
               (List.filter (out_of m) (stock_movements (committed d))))
    as [|x l IH]; intros k; simpl; [lia|].
  specialize (IH k). lia.
Qed.

Lemma after_calls_keep_balance calls m : forall d,
  balance m (committed (after_calls calls d)) = balance m (committed d).
Proof.
  unfold after_calls.
  induction calls as [|c calls IH]; intros d; simpl; [reflexivity|].
  rewrite IH. apply create_keeps_balance.
Qed.

(** X6.  The stock ledger balances.  Over any sequence of calls of
    [create], whatever the outcome of each, the stock of a medicine plus
    the units that its [out] movements record stays what it was: every unit
    taken from the stock is recorded by a movement committed with it, and a
    call that is rolled back takes and records nothing. *)
Theorem ledger_balance (calls : list sale_call) (d : db) (m q : Z) :
  stock_of m (committed d) = Some q ->
  exists q',
    stock_of m (committed (after_calls calls d)) = Some q'
    /\ q' + moved_out m (committed (after_calls calls d))
       = q + moved_out m (committed d).
Proof.
  intros Hq.
  pose proof (after_calls_keep_balance calls m d) as H.
  unfold balance in H. rewrite Hq in H.
  destruct (stock_of m (committed (after_calls calls d))) as [q'|];
    [|discriminate].
  exists q'. split; [reflexivity|]. simpl in H. now injection H.
Qed.

Lemma ledger_balance_witness :
  stock_of 1 (committed Sample.fresh) = Some 100
  /\ moved_out 1 (committed Sample.fresh) = 0
  /\ stock_of 1 (committed (after_calls Sample.three_calls Sample.fresh))
     = Some 95
  /\ moved_out 1 (committed (after_calls Sample.three_calls Sample.fresh))
     = 5.
Proof.
  assert (H0 : stock_of 1 (committed Sample.fresh) = Some 100)
    by (vm_compute; reflexivity).
  assert (M0 : moved_out 1 (committed Sample.fresh) = 0)
    by (vm_compute; reflexivity).
  assert (H1 : stock_of 1
                 (committed (after_calls Sample.three_calls Sample.fresh))
               = Some 95) by (vm_compute; reflexivity).
  destruct (ledger_balance Sample.three_calls Sample.fresh 1 100 H0)
    as (q' & Hq' & Hb).
  split; [exact H0|]. split; [exact M0|]. split; [exact H1|].
  rewrite H1 in Hq'. injection Hq' as <-. rewrite M0 in Hb. lia.
Defined.

End SaleFrame.
(* ===================================================================== *)
(** * Invoice numbers over several sales                                  *)
(* ===================================================================== *)

Section NumbersOfSales.
Import Db Database Props.

Lemma apply_statement_keeps_number s t c t1 c1 id n :
  apply_statement s t c = inr (t1, c1, id) ->
  number_taken n t = true -> number_taken n t1 = true.
Proof.
  intros Ha Hn. apply apply_statement_frame in Ha as (_ & _ & HI & _).
  unfold number_taken in *. now rewrite HI, existsb_app, Hn.
Qed.

Lemma apply_insert_takes_number v t c t1 c1 id :
  apply_statement (InsertInvoice v) t c = inr (t1, c1, id) ->
  number_taken (v_invoice_number v) t1 = true.
Proof.
  intros Ha. apply apply_statement_frame in Ha as (_ & _ & HI & _).
  unfold number_taken. rewrite HI, existsb_app. simpl.
  now rewrite String.eqb_refl, orb_true_r.
Qed.

(** A run stops at the latest at an INSERT of an invoice number that is
    taken. *)
Lemma run_stops_at_taken_number v l : forall t c,
  In (InsertInvoice v) l ->
  number_taken (v_invoice_number v) t = true ->
  exists x, run l t c = inl x.
Proof.
  induction l as [|s l IH]; intros t c Hin Hn; [destruct Hin|].
  simpl.
  destruct (apply_statement s t c) as [x|[[t1 c1] id]] eqn:Ha;
    [now exists x|].
  destruct Hin as [->|Hin].
  - simpl in Ha. rewrite Hn in Ha. discriminate.
  - apply IH; [exact Hin|]. eapply apply_statement_keeps_number; eauto.
Qed.

Lemma interleaving_In {A : Type} (a b l : list A) x :
  Concurrent.interleaving a b l -> In x a \/ In x b -> In x l.
Proof.
  induction 1 as [|y l1 l2 l _ IH|y l1 l2 l _ IH]; simpl; intros [H|H];
    try contradiction; intuition.
Qed.

(** The number generated depends on the server state, on the prefix of the
    day and on whether the lookup fails, and on nothing else. *)
Lemma generated_number_by_prefix eA eB d :
  Invoice.prefix (now eA) = Invoice.prefix (now eB) ->
  fails eA LookupLastNumber = fails eB LookupLastNumber ->
  generated_number eA d = generated_number eB d.
Proof.
  intros Hp Hf.
  unfold generated_number, Invoice.generateInvoiceNumber, pool_execute.
  rewrite Hf.
  destruct (fails eB LookupLastNumber); simpl;
    unfold Invoice.generateInvoiceNumber_with; now rewrite Hp.
Qed.

(** X7.  Two sales that start on the same committed state on the same day
    generate the same invoice number (the lookup reads the committed
    tables, and nothing reserves the number), and then at most one of them
    gets through: in whatever order the server runs the statements of the
    two, the run stops with an error. *)
Theorem concurrent_sales_same_number (eA eB : env) (d : db)
  (dataA dataB : Sale.header) (idA idB : Z)
  (itemsA itemsB : list Sale.item) (l : list statement)
  (t : tables) (c : counters) :
  Invoice.prefix (now eA) = Invoice.prefix (now eB) ->
  fails eA LookupLastNumber = fails eB LookupLastNumber ->
  Concurrent.interleaving
    (Invoice.sale_statements eA dataA (generated_number eA d) idA itemsA)
    (Invoice.sale_statements eB dataB (generated_number eB d) idB itemsB)
    l ->
  generated_number eA d = generated_number eB d
  /\ exists x, run l t c = inl x.
Proof.
  intros Hp Hf Hl.
  pose proof (generated_number_by_prefix eA eB d Hp Hf) as Hn.
  split; [exact Hn|].
  rewrite <- Hn in Hl. rewrite !sale_statements_unfold in Hl.
  set (n := generated_number eA d) in *.
  set (vA := Invoice.invoice_values_of eA dataA n) in *.
  set (vB := Invoice.invoice_values_of eB dataB n) in *.
  inversion Hl as [|x l1 l2 l' Hl'|x l1 l2 l' Hl']; subst.
  - cbn [run].
    destruct (apply_statement (InsertInvoice vA) t c)
      as [x|[[t1 c1] id]] eqn:Ha; [now exists x|].
    apply (run_stops_at_taken_number vB).
    + eapply interleaving_In; [exact Hl'|]. right. now left.
    + exact (apply_insert_takes_number _ _ _ _ _ _ Ha).
  - cbn [run].
    destruct (apply_statement (InsertInvoice vB) t c)
      as [x|[[t1 c1] id]] eqn:Ha; [now exists x|].
    apply (run_stops_at_taken_number vA).
    + eapply interleaving_In; [exact Hl'|]. left. now left.
    + exact (apply_insert_takes_number _ _ _ _ _ _ Ha).
Qed.

Lemma concurrent_sales_same_number_witness :
  let a :=
    Invoice.sale_statements Sample.calm Sample.header
      (generated_number Sample.calm Sample.fresh) 1 [Sample.sell 1 3] in
  let b :=
    Invoice.sale_statements Sample.calm Sample.header
      (generated_number Sample.calm Sample.fresh) 2 [Sample.sell 4 2] in
  Concurrent.interleaving a b (a ++ b)
  /\ generated_number Sample.calm Sample.fresh = "INV-20240115-001"
  /\ exists x, run (a ++ b) Sample.shelf (ids Sample.fresh) = inl x.
Proof.
  cbv zeta.
  assert (Hl : Concurrent.interleaving
                 (Invoice.sale_statements Sample.calm Sample.header
                    (generated_number Sample.calm Sample.fresh) 1
                    [Sample.sell 1 3])
                 (Invoice.sale_statements Sample.calm Sample.header
                    (generated_number Sample.calm Sample.fresh) 2
                    [Sample.sell 4 2])
                 (Invoice.sale_statements Sample.calm Sample.header
                    (generated_number Sample.calm Sample.fresh) 1
                    [Sample.sell 1 3]
                  ++ Invoice.sale_statements Sample.calm Sample.header
                       (generated_number Sample.calm Sample.fresh) 2
                       [Sample.sell 4 2])).
  { apply Concurrent.interleaving_left, Concurrent.interleaving_left,
      Concurrent.interleaving_left, Concurrent.interleaving_left,
      Concurrent.interleaving_right, Concurrent.interleaving_right,
      Concurrent.interleaving_right, Concurrent.interleaving_right,
      Concurrent.interleaving_nil. }
  split; [exact Hl|]. split; [vm_compute; reflexivity|].
  exact (proj2 (concurrent_sales_same_number Sample.calm Sample.calm
                  Sample.fresh Sample.header Sample.header 1 2
                  [Sample.sell 1 3] [Sample.sell 4 2] _ Sample.shelf
                  (ids Sample.fresh) eq_refl eq_refl Hl)).
Defined.

(** After a committed sale the row looked up for the next number of the day
    is the row of that sale. *)
Lemma latest_is_new e d invoiceData items t' c' p :
  wf d ->
  run (transaction_statements e d invoiceData items) (committed d) (ids d)
  = inr (t', c') ->
  like_prefix p (generated_number e d) = true ->
  last_invoice_like p t'
  = Some (invoice_row_of (next_invoice_id (ids d))
            (Invoice.invoice_values_of e invoiceData (generated_number e d))).
Proof.
  intros Hwf Hrun Hlike.
  pose proof (committed_invoices e d invoiceData items t' c' Hrun) as Hinv.
  pose proof (last_invoice_like_spec p t') as Hs.
  set (new_row := invoice_row_of _ _) in *.
  assert (Hnew : In new_row (invoices t'))
    by (rewrite Hinv; apply in_or_app; right; now left).
  destruct (last_invoice_like p t') as [r0|].
  - destruct Hs as (Hin & _ & Hmax). f_equal.
    specialize (Hmax new_row Hnew Hlike).
    rewrite Hinv in Hin. apply in_app_or in Hin as [Hin|[<-|[]]];
      [|reflexivity].
    pose proof (wf_invoices _ Hwf) as Hold.
    rewrite List.Forall_forall in Hold. specialize (Hold r0 Hin).
    simpl in Hmax. lia.
  - rewrite List.Forall_forall in Hs. specialize (Hs new_row Hnew).
    simpl in Hs. congruence.
Qed.

(** The number generated when the lookup finds a row. *)
Lemma generated_number_after e d r :
  fails e LookupLastNumber = false ->
  last_invoice_like (Invoice.prefix (now e)) (committed d) = Some r ->
  generated_number e d
  = Invoice.next_number (Invoice.prefix (now e))
      {| success := true; data := Some (inv_invoice_number r);
         error := None |}.
Proof.
  intros Hf Hl.
  unfold generated_number, Invoice.generateInvoiceNumber, pool_execute.
  rewrite Hf. simpl. unfold select_last_invoice_number. rewrite Hl.
  reflexivity.
Qed.

(** X8.  Sales made one after the other on one day are numbered
    consecutively: when a call of [create] has returned the invoice with
    sequence number [n], the next call on the state it leaves, on the same
    day and with a lookup that succeeds, generates the number with sequence
    [n + 1], whatever other invoices the table holds.  This holds as long
    as [n + 1] is a number that JavaScript adds exactly, that is for [n]
    below [2^53 - 1]. *)
Theorem successive_sales_number_consecutively (e1 e2 : env) (d : db)
  (invoiceData : Sale.header) (items : list Sale.item)
  (first : Invoice.t) (n : Z) :
  wf d ->
  Invoice.result (Invoice.create e1 d invoiceData items)
  = Invoice.Returned (Some first) ->
  let p := Invoice.prefix (now e1) in
  Invoice.invoice_number first
  = p +:+ "-" +:+ Js.padStart (Js.String_ (Some n)) 3 "0" ->
  0 <= n < Js.MAX_SAFE_INTEGER ->
  Invoice.prefix (now e2) = p ->
  fails e2 LookupLastNumber = false ->
  generated_number e2 (Invoice.final (Invoice.create e1 d invoiceData items))
  = p +:+ "-" +:+ Js.padStart (Js.String_ (Some (n + 1))) 3 "0".
Proof.
  intros Hwf Hres p Hnum Hn Hp Hf.
  destruct (create_committed e1 d invoiceData items first Hres)
    as (t' & c' & Hrun & Hfin & Hre).
  destruct (create_returned_row e1 d invoiceData items first t' c'
              Hwf Hrun Hre) as [_ Hg].
  rewrite Hfin.
  rewrite (generated_number_after e2 _
             (invoice_row_of (next_invoice_id (ids d))
                (Invoice.invoice_values_of e1 invoiceData
                   (generated_number e1 d))) Hf).
  - simpl inv_invoice_number. rewrite Hp, <- Hg, Hnum.
    now apply next_number_after.
  - rewrite Hp. simpl committed.
    apply (latest_is_new e1 d invoiceData items t' c' p Hwf Hrun).
    rewrite <- Hg, Hnum. apply prefix_append.
Qed.

Lemma successive_sales_number_consecutively_witness :
  let c :=
    Invoice.create Sample.calm Sample.one_sold Sample.header
      [Sample.sell 1 3] in
  wf Sample.one_sold
  /\ (exists first,
         Invoice.result c = Invoice.Returned (Some first)
         /\ Invoice.invoice_number first = "INV-20240115-002")
  /\ generated_number Sample.calm (Invoice.final c)
     = "INV-20240115"
       +:+ "-" +:+ Js.padStart (Js.String_ (Some (2 + 1))) 3 "0".
Proof.
  cbv zeta. split; [exact wf_one_sold|].
  assert (Hres : exists first,
             Invoice.result
               (Invoice.create Sample.calm Sample.one_sold Sample.header
                  [Sample.sell 1 3])
             = Invoice.Returned (Some first)
             /\ Invoice.invoice_number first = "INV-20240115-002")
    by (eexists; split; vm_compute; reflexivity).
  split; [exact Hres|].
  destruct Hres as (first & Hres & Hn).
  apply (successive_sales_number_consecutively Sample.calm Sample.calm
           Sample.one_sold Sample.header [Sample.sell 1 3] first 2
           wf_one_sold Hres).
  - rewrite Hn. reflexivity.
  - unfold Js.MAX_SAFE_INTEGER. lia.
  - reflexivity.
  - reflexivity.
Defined.

Lemma NaN_suffix p : Js.parseInt (Js.pop (Js.split "-" (p +:+ "-NaN"))) = None.
Proof.
  change (p +:+ "-NaN") with (p +:+ String "-" "NaN").
  rewrite pop_split_suffix by reflexivity. reflexivity.
Qed.

(** X9.  A number without a sequence blocks the numbering of its day.  When
    [parseInt] reads no number from the part after the last dash of the
    latest invoice number of the day (after white space and a sign that
    part has no digit), the number generated next ends in [NaN]; this
    number is again one without a sequence; and once it is the latest of
    the day, every call of [create] generates it again and stores
    nothing. *)
Theorem malformed_number_blocks_the_day (e : env) (d : db)
  (invoiceData : Sale.header) (items : list Sale.item) (r : invoice_row) :
  fails e LookupLastNumber = false ->
  last_invoice_like (Invoice.prefix (now e)) (committed d) = Some r ->
  Js.parseInt (Js.pop (Js.split "-" (inv_invoice_number r))) = None ->
  let number := Invoice.prefix (now e) +:+ "-NaN" in
  let c := Invoice.create e d invoiceData items in
  generated_number e d = number
  /\ Js.parseInt (Js.pop (Js.split "-" number)) = None
  /\ (inv_invoice_number r = number ->
      committed (Invoice.final c) = committed d
      /\ forall invoice, Invoice.result c <> Invoice.Returned (Some invoice)).
Proof.
  intros Hf Hl Hp number c. subst number c.
  assert (Hg : generated_number e d = Invoice.prefix (now e) +:+ "-NaN").
  { rewrite (generated_number_after e d r Hf Hl).
    unfold Invoice.next_number. cbn [success data]. now rewrite Hp. }
  split; [exact Hg|]. split; [apply NaN_suffix|].
  intros Hr.
  assert (Htaken : number_taken (generated_number e d) (committed d) = true).
  { pose proof (last_invoice_like_spec (Invoice.prefix (now e)) (committed d))
      as Hs.
    rewrite Hl in Hs. destruct Hs as (Hin & _).
    unfold number_taken. apply existsb_exists. exists r.
    split; [exact Hin|]. rewrite Hg, Hr. apply String.eqb_refl. }
  destruct (create_cases e d invoiceData items)
    as [(_ & Hres & ->)|[(_ & _ & Hsame & Hres)
                        |(_ & _ & t' & c' & Hrun & _)]].
  - split; [reflexivity|]. intros invoice. rewrite Hres. discriminate.
  - split; [exact Hsame|]. intros invoice. rewrite Hres.
    destruct (fails e Rollback); discriminate.
  - pose proof (number_was_free e d invoiceData items t' c' Hrun). congruence.
Qed.

Lemma malformed_number_blocks_the_day_witness :
  last_invoice_like (Invoice.prefix (now Sample.calm))
    (committed Sample.malformed)
  = Some (Sample.earlier_invoice 7 "INV-20240115-abc")
  /\ Js.parseInt (Js.pop (Js.split "-" "INV-20240115-abc")) = None
  /\ generated_number Sample.calm Sample.malformed
     = Invoice.prefix (now Sample.calm) +:+ "-NaN".
Proof.
  assert (Hl : last_invoice_like (Invoice.prefix (now Sample.calm))
                 (committed Sample.malformed)
               = Some (Sample.earlier_invoice 7 "INV-20240115-abc"))
    by (vm_compute; reflexivity).
  assert (Hp : Js.parseInt (Js.pop (Js.split "-" "INV-20240115-abc")) = None)
    by (vm_compute; reflexivity).
  split; [exact Hl|]. split; [exact Hp|].
  exact (proj1 (malformed_number_blocks_the_day Sample.calm Sample.malformed
                  Sample.header [Sample.sell 1 3] _ eq_refl Hl Hp)).
Defined.

Lemma select_new_invoice_by_number e d invoiceData items t' c' :
  run (transaction_statements e d invoiceData items) (committed d) (ids d)
  = inr (t', c') ->
  Invoice.select_invoice_by_number (generated_number e d) t'
  = [join_pharmacist t'
       (invoice_row_of (next_invoice_id (ids d))
          (Invoice.invoice_values_of e invoiceData (generated_number e d)))].
Proof.
  intros Hrun. unfold Invoice.select_invoice_by_number.
  rewrite (committed_invoices e d invoiceData items t' c' Hrun).
  rewrite List.filter_app, filter_none.
  - simpl. now rewrite String.eqb_refl.
  - pose proof (number_was_free e d invoiceData items t' c' Hrun) as Hfree.
    unfold number_taken in Hfree.
    apply List.Forall_forall. intros r Hr.
    destruct (String.eqb (inv_invoice_number r) (generated_number e d))
      eqn:E; [|reflexivity].
    assert (H : existsb
                  (fun r => String.eqb (inv_invoice_number r)
                              (generated_number e d))
                  (invoices (committed d)) = true)
      by (apply existsb_exists; eauto).
    congruence.
Qed.

(** X10.  An invoice that [create] has returned is found again under its
    number: on the state that the call leaves, [findByInvoiceNumber] with
    the number of the invoice returns that invoice, line items included.
    For a number that no invoice carries it returns [null] without a
    second query. *)
Theorem findByInvoiceNumber_finds_created (e : env) (d : db)
  (invoiceData : Sale.header) (items : list Sale.item)
  (invoice : Invoice.t) :
  wf d ->
  Invoice.result (Invoice.create e d invoiceData items)
  = Invoice.Returned (Some invoice) ->
  let d' := Invoice.final (Invoice.create e d invoiceData items) in
  read
    (Invoice.findByInvoiceNumber e
       (inr (Invoice.select_invoice_by_number
               (Invoice.invoice_number invoice) (committed d'))))
    d'
  = Some invoice
  /\ forall n w,
      number_taken n (committed d') = false ->
      Invoice.findByInvoiceNumber e
        (inr (Invoice.select_invoice_by_number n (committed d'))) w
      = (None, w).
Proof.
  intros Hwf Hres d'. subst d'.
  destruct (create_committed e d invoiceData items invoice Hres)
    as (t' & c' & Hrun & Hfin & Hre).
  destruct (create_returned_row e d invoiceData items invoice t' c'
              Hwf Hrun Hre) as [Hid Hn].
  rewrite Hfin. simpl committed. split.
  - rewrite Hn, (select_new_invoice_by_number e d invoiceData items t' c' Hrun).
    unfold read, Invoice.findByInvoiceNumber. simpl.
    destruct (findById_world e (next_invoice_id (ids d))
                (open_world {| committed := t'; ids := c' |}))
      as (w' & reads & E & _).
    rewrite E. simpl. exact Hre.
  - intros n w Hfree. unfold Invoice.findByInvoiceNumber,
      Invoice.select_invoice_by_number.
    rewrite filter_none; [reflexivity|].
    unfold number_taken in Hfree.
    apply List.Forall_forall. intros r Hr.
    destruct (String.eqb (inv_invoice_number r) n) eqn:E; [|reflexivity].
    assert (H : existsb (fun r => String.eqb (inv_invoice_number r) n)
                  (invoices t') = true)
      by (apply existsb_exists; eauto).
    congruence.
Qed.

Lemma findByInvoiceNumber_finds_created_witness :
  let c :=
    Invoice.create Sample.calm Sample.fresh Sample.header
      [Sample.sell 1 3] in
  wf Sample.fresh
  /\ exists invoice,
      Invoice.result c = Invoice.Returned (Some invoice)
      /\ Invoice.invoice_number invoice = "INV-20240115-001"
      /\ read
           (Invoice.findByInvoiceNumber Sample.calm
              (inr (Invoice.select_invoice_by_number
                      (Invoice.invoice_number invoice)
                      (committed (Invoice.final c)))))
           (Invoice.final c)
         = Some invoice.
Proof.
  cbv zeta. split; [exact wf_fresh|].
  assert (Hres : exists invoice,
             Invoice.result
               (Invoice.create Sample.calm Sample.fresh Sample.header
                  [Sample.sell 1 3])
             = Invoice.Returned (Some invoice)
             /\ Invoice.invoice_number invoice = "INV-20240115-001")
    by (eexists; split; vm_compute; reflexivity).
  destruct Hres as (invoice & Hres & Hn).
  exists invoice. split; [exact Hres|]. split; [exact Hn|].
  exact (proj1 (findByInvoiceNumber_finds_created Sample.calm Sample.fresh
                  Sample.header [Sample.sell 1 3] invoice wf_fresh Hres)).
Defined.

End NumbersOfSales.
(* ===================================================================== *)
(** * The statements built at run time                                    *)
(* ===================================================================== *)

Section BuiltStatements.
Import Db Database Props.

Lemma count_char_app c s1 s2 :
  count_char c (s1 +:+ s2) = (count_char c s1 + count_char c s2)%nat.
Proof.
  induction s1 as [|x s1 IH]; simpl; [reflexivity|]. rewrite IH. lia.
Qed.

(** X11.  The statistics queries bind every placeholder.  The text that
    [getSalesStats] builds holds as many [?] as the call passes parameters,
    and the parameters are the truthy ones among [pharmacistId], [dateFrom]
    and [dateTo], in this order: a filter whose argument is [null],
    [undefined], [0] or the empty string is left out.  The text that
    [getSalesByDateRange] builds holds as many [?] as its parameters, which
    are the two dates, then [pharmacistId] when it is truthy.
    [getTodaySales] passes the date of today for both bounds. *)
Theorem statistics_queries_bind_every_placeholder
  (pharmacistId dateFrom dateTo : Js.value) :
  let stats := Invoice.getSalesStats_query pharmacistId dateFrom dateTo in
  let range :=
    Invoice.getSalesByDateRange_query dateFrom dateTo pharmacistId in
  count_char "?" (fst stats) = length (snd stats)
  /\ snd stats = List.filter Js.truthy [pharmacistId; dateFrom; dateTo]
  /\ count_char "?" (fst range) = length (snd range)
  /\ snd range = [dateFrom; dateTo] ++ List.filter Js.truthy [pharmacistId]
  /\ (forall c,
        Js.toISODate c <> "" ->
        snd (Invoice.getTodaySales_query c pharmacistId)
        = List.filter Js.truthy [pharmacistId]
          ++ [Js.Str (Js.toISODate c); Js.Str (Js.toISODate c)]).
Proof.
  cbv zeta. split; [|split; [|split; [|split]]].
  - unfold Invoice.getSalesStats_query, Invoice.and_if.
    destruct (Js.truthy pharmacistId), (Js.truthy dateFrom),
      (Js.truthy dateTo); reflexivity.
  - unfold Invoice.getSalesStats_query, Invoice.and_if. simpl List.filter.
    destruct (Js.truthy pharmacistId), (Js.truthy dateFrom),
      (Js.truthy dateTo); reflexivity.
  - unfold Invoice.getSalesByDateRange_query, Invoice.and_if.
    destruct (Js.truthy pharmacistId); reflexivity.
  - unfold Invoice.getSalesByDateRange_query, Invoice.and_if.
    simpl List.filter.
    destruct (Js.truthy pharmacistId); reflexivity.
  - intros c Hc.
    assert (Ht : Js.truthy (Js.Str (Js.toISODate c)) = true).
    { simpl. apply negb_true_iff, String.eqb_neq. exact Hc. }
    unfold Invoice.getTodaySales_query, Invoice.getSalesStats_query,
      Invoice.and_if.
    rewrite Ht. simpl List.filter.
    destruct (Js.truthy pharmacistId); reflexivity.
Qed.

Lemma paired_push_if test text v acc :
  count_char "?" text = 1%nat ->
  paired acc -> paired (Js.push_if test text v acc).
Proof.
  intros Ht [Hf Hl]. unfold Js.push_if.
  destruct test; [|split; assumption].
  split; simpl.
  - apply Forall_app. split; [exact Hf|]. now repeat constructor.
  - rewrite !length_app, Hl. reflexivity.
Qed.

Lemma join_placeholders fields :
  Forall (fun text => count_char "?" text = 1%nat) fields ->
  count_char "?" (Js.join ", " fields) = length fields.
Proof.
  induction 1 as [|x l Hx Hl IH]; [reflexivity|].
  cbn [Js.join]. destruct l as [|y l]; [simpl; lia|].
  rewrite !count_char_app, IH, Hx. reflexivity.
Qed.

Lemma update_statement_placeholders table fields values id :
  paired (fields, values) ->
  count_char "?"
    (("UPDATE " +:+ table +:+ " SET ") +:+ Js.join ", " fields
     +:+ " WHERE id = ?")
  = (length (values ++ [id]) + count_char "?" table)%nat.
Proof.
  intros [Hf Hl]. simpl in Hf, Hl.
  rewrite !count_char_app, (join_placeholders fields Hf), length_app, Hl.
  simpl. lia.
Qed.

Lemma medicine_update_fields_paired u : paired (Medicine.update_fields u).
Proof.
  unfold Medicine.update_fields.
  repeat (apply paired_push_if; [reflexivity|]).
  split; [constructor|reflexivity].
Qed.

Lemma user_update_fields_paired b : paired (User.update_fields b).
Proof.
  unfold User.update_fields.
  repeat (apply paired_push_if; [reflexivity|]).
  split; [constructor|reflexivity].
Qed.

(** X12.  The UPDATE statements bind every placeholder.  Whatever fields
    [updateData] has, [Medicine.update] and [User.update] either send
    nothing and return [false] (for [Medicine.update]: exactly when none of
    its eleven tests holds), or send a statement whose text holds as many
    [?] as parameters are passed, the last parameter being the id of the
    object, and return whether the statement succeeded. *)
Theorem update_statements_bind_every_placeholder
  (hash : Js.value -> option string) (m : Medicine.t)
  (u : Medicine.update_data) (user : User.t) (b : Js.object)
  (outcome : string + list unit) :
  match Medicine.update m u outcome with
  | (ok, None) => ok = false /\ Medicine.update_fields u = ([], [])
  | (ok, Some (query, values)) =>
      count_char "?" query = length values
      /\ List.last values Js.Undefined = Js.Num (Medicine.id m)
      /\ ok = success (executeQuery outcome)
      /\ fst (Medicine.update_fields u) <> []
  end
  /\ match User.update hash user b outcome with
     | (ok, None) => ok = false
     | (ok, Some (query, values)) =>
         count_char "?" query = length values
         /\ List.last values Js.Undefined = Js.Num (User.id user)
         /\ ok = success (executeQuery outcome)
     end.
Proof.
  split.
  - unfold Medicine.update.
    pose proof (medicine_update_fields_paired u) as Hp.
    destruct (Medicine.update_fields u) as [fields values].
    destruct fields as [|f fields].
    + simpl. split; [reflexivity|].
      destruct Hp as [_ Hl]. destruct values; [reflexivity|discriminate].
    + cbn [length Nat.eqb].
      pose proof (update_statement_placeholders "medicines" _ _
                    (Js.Num (Medicine.id m)) Hp) as H.
      split; [|split; [apply last_last|split; [reflexivity|discriminate]]].
      simpl in H |- *. rewrite Nat.add_0_r in H. exact H.
  - unfold User.update.
    pose proof (user_update_fields_paired b) as Hp.
    destruct (Js.truthy (Js.get b "password")).
    + destruct (hash (Js.get b "password")) as [h|]; [|reflexivity].
      apply (paired_push_if true "password = ?" (Js.Str h)) in Hp;
        [|reflexivity].
      destruct (Js.push_if true _ _ _) as [fields values].
      destruct fields as [|f fields]; [reflexivity|].
      cbn [length Nat.eqb].
      pose proof (update_statement_placeholders "users" _ _
                    (Js.Num (User.id user)) Hp) as H.
      split; [|split; [apply last_last|reflexivity]].
      simpl in H |- *. rewrite Nat.add_0_r in H. exact H.
    + destruct (User.update_fields b) as [fields values].
      destruct fields as [|f fields]; [reflexivity|].
      cbn [length Nat.eqb].
      pose proof (update_statement_placeholders "users" _ _
                    (Js.Num (User.id user)) Hp) as H.
      split; [|split; [apply last_last|reflexivity]].
      simpl in H |- *. rewrite Nat.add_0_r in H. exact H.
Qed.

End BuiltStatements.

(* ===================================================================== *)
(** * Medicines: the soft delete and the low-stock list                   *)
(* ===================================================================== *)

Section MedicineReads.
Import Db Database Props.

Lemma insert_sorted_Permutation le r l :
  Permutation (Medicine.insert_sorted le r l) (r :: l).
Proof.
  induction l as [|x l IH]; simpl; [reflexivity|].
  destruct (le r x); [reflexivity|].
  rewrite IH. apply perm_swap.
Qed.

(** [ORDER BY] returns the rows it is given. *)
Lemma order_by_Permutation le l : Permutation (Medicine.order_by le l) l.
Proof.
  induction l as [|x l IH]; simpl; [reflexivity|].
  rewrite insert_sorted_Permutation. now constructor.
Qed.

Lemma filter_Permutation_bool {A : Type} (f : A -> bool) l l' :
  Permutation l l' -> Permutation (List.filter f l) (List.filter f l').
Proof.
  induction 1 as [|x l l' _ IH|x y l|l l' l'' _ IH1 _ IH2]; simpl.
  - reflexivity.
  - destruct (f x); [now constructor|exact IH].
  - destruct (f x), (f y); try reflexivity. apply perm_swap.
  - now rewrite IH1.
Qed.

Lemma filter_filter_bool {A : Type} (f g : A -> bool) l :
  List.filter f (List.filter g l)
  = List.filter (fun x => (g x && f x)%bool) l.
Proof.
  induction l as [|x l IH]; simpl; [reflexivity|].
  destruct (g x); simpl; [destruct (f x)|]; now rewrite IH.
Qed.

Lemma filter_map_bool {A B : Type} (f : B -> bool) (g : A -> B) l :
  List.filter f (map g l) = map g (List.filter (fun x => f (g x)) l).
Proof.
  induction l as [|x l IH]; simpl; [reflexivity|].
  destruct (f (g x)); simpl; now rewrite IH.
Qed.

(** The joined rows are the rows of the table. *)
Lemma in_joined t x :
  In x (Medicine.joined t) <->
  exists r,
    medicines t !! Medicine.d_id x = Some r
    /\ x = Medicine.join_company t (Medicine.d_id x) r.
Proof.
  unfold Medicine.joined. rewrite in_map_iff. split.
  - intros ([k r] & <- & Hkr).
    apply list_elem_of_In, elem_of_map_to_list in Hkr.
    exists r. simpl. auto.
  - intros (r & Hr & Hx). exists (Medicine.d_id x, r).
    split; [now symmetry|].
    apply list_elem_of_In, elem_of_map_to_list. exact Hr.
Qed.

Lemma deactivated_lookup id k t :
  medicines (Medicine.deactivated id t) !! k
  = if decide (k = id)
    then Medicine.set_active false <$> medicines t !! k
    else medicines t !! k.
Proof.
  unfold Medicine.deactivated. simpl.
  destruct (decide (k = id)) as [->|Hne].
  - apply lookup_alter_eq.
  - now apply lookup_alter_ne.
Qed.

(** Which medicines [getLowStock] lists. *)
Lemma low_stock_listed t m :
  (exists x,
      In x (Medicine.getLowStock (inr (Medicine.select_low_stock t)))
      /\ Medicine.id x = m) <->
  exists r,
    medicines t !! m = Some r
    /\ is_active r = true
    /\ quantity_in_stock r <= min_stock_level r.
Proof.
  unfold Medicine.getLowStock, Medicine.select_low_stock. simpl. split.
  - intros (x & Hx & <-). apply in_map_iff in Hx as (y & <- & Hy).
    apply (Permutation_in _ (order_by_Permutation _ _)) in Hy.
    apply filter_In in Hy as [Hy Hf].
    apply andb_prop in Hf as [Ha Hq]. apply Z.leb_le in Hq.
    apply in_joined in Hy as (r & Hr & Hy).
    exists r. rewrite Hy in Ha, Hq. simpl in *. auto.
  - intros (r & Hr & Ha & Hq).
    exists (Medicine.new (Medicine.join_company t m r)).
    split; [|reflexivity]. apply in_map.
    apply (Permutation_in _ (Permutation_sym (order_by_Permutation _ _))).
    apply filter_In. split.
    + apply in_joined. exists r. simpl. auto.
    + simpl. rewrite Ha. simpl. now apply Z.leb_le.
Qed.

(** X13.  [deactivate] is a soft delete.  After it the medicine is found
    neither by [findById] nor in the lists of [getAll] and [getLowStock],
    while its row is still in the table with the stock it had; the other
    medicines are found as before, and no line item and no stock movement
    is touched. *)
Theorem deactivate_hides_medicine (name_le : string -> string -> bool)
  (m : Medicine.t) (d : db) :
  let d' := snd (Medicine.deactivate false m d) in
  fst (Medicine.deactivate false m d) = true
  /\ Medicine.findById
       (inr (Medicine.select_by_id (Medicine.id m) (committed d'))) = None
  /\ (forall x,
        In x (Medicine.getAll (inr (Medicine.select_all name_le (committed d')))
              ++ Medicine.getLowStock
                   (inr (Medicine.select_low_stock (committed d')))) ->
        Medicine.id x <> Medicine.id m)
  /\ stock_of (Medicine.id m) (committed d')
     = stock_of (Medicine.id m) (committed d)
  /\ (forall k,
        k <> Medicine.id m ->
        Medicine.select_by_id k (committed d')
        = Medicine.select_by_id k (committed d))
  /\ invoice_items (committed d') = invoice_items (committed d)
  /\ stock_movements (committed d') = stock_movements (committed d).
Proof.
  simpl. split; [reflexivity|]. split; [|split; [|split; [|split]]].
  - unfold Medicine.select_by_id. rewrite deactivated_lookup.
    rewrite decide_True by reflexivity.
    destruct (medicines (committed d) !! Medicine.id m); reflexivity.
  - intros x Hx Heq.
    assert (Hin : In (Medicine.id x)
                    (map Medicine.d_id
                       (List.filter
                          (fun r => is_active (Medicine.d_row r))
                          (Medicine.joined
                             (Medicine.deactivated (Medicine.id m)
                                (committed d)))))).
    { apply in_app_or in Hx as [Hx|Hx]; simpl in Hx;
        apply in_map_iff in Hx as (y & <- & Hy);
        apply (Permutation_in _ (order_by_Permutation _ _)) in Hy;
        apply filter_In in Hy as [Hy Hf];
        apply in_map_iff; exists y; (split; [reflexivity|]);
        apply filter_In; split; auto.
      now apply andb_prop in Hf as [Hf _]. }
    apply in_map_iff in Hin as (y & Hy & Hin).
    apply filter_In in Hin as [Hin Ha].
    apply in_joined in Hin as (r & Hr & Hjoin).
    rewrite Hjoin in Ha. simpl in Ha.
    rewrite deactivated_lookup, Hy, Heq in Hr.
    rewrite decide_True in Hr by reflexivity.
    destruct (medicines (committed d) !! Medicine.id m) as [r0|];
      [|discriminate].
    simpl in Hr. injection Hr as <-. discriminate.
  - unfold stock_of. rewrite deactivated_lookup.
    rewrite decide_True by reflexivity.
    now destruct (medicines (committed d) !! Medicine.id m).
  - intros k Hk. unfold Medicine.select_by_id.
    rewrite deactivated_lookup. rewrite decide_False by exact Hk.
    reflexivity.
  - split; reflexivity.
Qed.

(** X14.  The list of [getLowStock] and the flag [isLowStock()] agree: the
    medicines that [getLowStock] returns are, in some order, those that
    [getAll] returns and for which [isLowStock()] holds, whatever the order
    of the names is.  They are the active medicines whose stock is at or
    below their minimum level, a stock equal to the minimum included. *)
Theorem low_stock_list_agrees_with_flag (name_le : string -> string -> bool)
  (t : tables) :
  Permutation
    (Medicine.getLowStock (inr (Medicine.select_low_stock t)))
    (List.filter Medicine.isLowStock
       (Medicine.getAll (inr (Medicine.select_all name_le t))))
  /\ forall m,
      In m (Medicine.getLowStock (inr (Medicine.select_low_stock t))) <->
      exists r,
        medicines t !! Medicine.id m = Some r
        /\ m = Medicine.new (Medicine.join_company t (Medicine.id m) r)
        /\ is_active r = true
        /\ quantity_in_stock r <= min_stock_level r.
Proof.
  unfold Medicine.getLowStock, Medicine.getAll. simpl.
  unfold Medicine.select_low_stock, Medicine.select_all. split.
  - rewrite filter_map_bool.
    apply Permutation_map.
    rewrite order_by_Permutation.
    rewrite (filter_Permutation_bool _ _ _ (order_by_Permutation _ _)).
    rewrite filter_filter_bool. reflexivity.
  - intros m. rewrite in_map_iff. split.
    + intros (x & <- & Hx).
      apply (Permutation_in _ (order_by_Permutation _ _)) in Hx.
      apply filter_In in Hx as [Hx Hf].
      apply andb_prop in Hf as [Ha Hq]. apply Z.leb_le in Hq.
      apply in_joined in Hx as (r & Hr & Hx).
      exists r. rewrite Hx in Ha, Hq |- *. simpl in *. auto.
    + intros (r & Hr & Hm & Ha & Hq).
      exists (Medicine.join_company t (Medicine.id m) r).
      split; [now symmetry|].
      apply (Permutation_in _ (Permutation_sym (order_by_Permutation _ _))).
      apply filter_In. split.
      * apply in_joined. exists r. simpl. auto.
      * simpl. rewrite Ha. simpl. now apply Z.leb_le.
Qed.

(** X15.  A sale shows in the low-stock list.  After a call of [create]
    that returns an invoice, an active medicine is in the list of
    [getLowStock] exactly when its earlier stock less the units sold of it
    is at or below its minimum level. *)
Theorem sale_raises_low_stock_alert (e : env) (d : db)
  (invoiceData : Sale.header) (items : list Sale.item)
  (invoice : Invoice.t) (m : Z) (r : medicine_row) :
  Invoice.result (Invoice.create e d invoiceData items)
  = Invoice.Returned (Some invoice) ->
  medicines (committed d) !! m = Some r ->
  is_active r = true ->
  let after :=
    committed (Invoice.final (Invoice.create e d invoiceData items)) in
  (exists x,
      In x (Medicine.getLowStock (inr (Medicine.select_low_stock after)))
      /\ Medicine.id x = m) <->
  quantity_in_stock r - Sale.quantity_sold m items <= min_stock_level r.
Proof.
  intros Hres Hr Ha after. subst after.
  destruct (create_committed e d invoiceData items invoice Hres)
    as (t' & c' & Hrun & Hfin & _).
  rewrite Hfin. simpl committed. rewrite low_stock_listed.
  pose proof (run_medicines _ m _ _ _ _ Hrun
                (sale_never_overwrites e invoiceData _ _ items)) as Hm.
  unfold transaction_statements in Hm.
  rewrite sale_stock_taken, Hr in Hm. simpl in Hm.
  rewrite Hm. split.
  - intros (r' & [= <-] & _ & Hq). exact Hq.
  - intros Hq. eexists. split; [reflexivity|]. simpl. auto.
Qed.

Lemma sale_raises_low_stock_alert_witness :
  let c :=
    Invoice.create Sample.calm Sample.fresh Sample.header
      [Sample.sell 4 5] in
  medicines (committed Sample.fresh) !! 4 = Some Sample.amoxicillin
  /\ (exists invoice, Invoice.result c = Invoice.Returned (Some invoice))
  /\ map Medicine.id
       (Medicine.getLowStock
          (inr (Medicine.select_low_stock (committed Sample.fresh))))
     = []
  /\ exists x,
      In x (Medicine.getLowStock
              (inr (Medicine.select_low_stock
                      (committed (Invoice.final c)))))
      /\ Medicine.id x = 4.
Proof.
  cbv zeta.
  assert (Hm : medicines (committed Sample.fresh) !! 4
               = Some Sample.amoxicillin) by (vm_compute; reflexivity).
  assert (Hres : exists invoice,
             Invoice.result
               (Invoice.create Sample.calm Sample.fresh Sample.header
                  [Sample.sell 4 5])
             = Invoice.Returned (Some invoice))
    by (eexists; vm_compute; reflexivity).
  split; [exact Hm|]. split; [exact Hres|].
  split; [vm_compute; reflexivity|].
  destruct Hres as [invoice Hres].
  apply (proj2 (sale_raises_low_stock_alert Sample.calm Sample.fresh
                  Sample.header [Sample.sell 4 5] invoice 4
                  Sample.amoxicillin Hres Hm eq_refl)).
  vm_compute. discriminate.
Defined.

Lemma deactivated_none m t k :
  medicines (Medicine.deactivated m t) !! k = None <->
  medicines t !! k = None.
Proof.
  rewrite deactivated_lookup.
  destruct (decide (k = m)); [|reflexivity].
  destruct (medicines t !! k); simpl; split; congruence.
Qed.

Lemma deactivated_alter m (f : medicine_row -> medicine_row) k t :
  (forall r,
      f (Medicine.set_active false r) = Medicine.set_active false (f r)) ->
  with_medicines (Medicine.deactivated m t)
    (alter f k (medicines (Medicine.deactivated m t)))
  = Medicine.deactivated m (with_medicines t (alter f k (medicines t))).
Proof.
  intros Hf. unfold Medicine.deactivated, with_medicines. simpl. f_equal.
  apply map_eq. intros i.
  destruct (decide (i = k)) as [Hik|Hik], (decide (i = m)) as [Him|Him];
    subst;
    rewrite ?lookup_alter_eq, ?lookup_alter_ne by congruence;
    rewrite ?lookup_alter_eq, ?lookup_alter_ne by congruence;
    try reflexivity.
  destruct (medicines t !! m); simpl; [|reflexivity]. now rewrite Hf.
Qed.

(** No statement looks at [is_active]. *)
Lemma apply_statement_deactivated m s t c :
  apply_statement s (Medicine.deactivated m t) c
  = match apply_statement s t c with
    | inl x => inl x
    | inr (t1, c1, id) => inr (Medicine.deactivated m t1, c1, id)
    end.
Proof.
  destruct s; try reflexivity.
  - simpl. unfold number_taken. simpl.
    destruct (existsb _ _); [reflexivity|].
    destruct (bool_decide _); reflexivity.
  - simpl. unfold invoice_exists. simpl.
    destruct (negb _); [reflexivity|].
    rewrite (bool_decide_ext _ _ (deactivated_none m t medicine_id)).
    destruct (bool_decide _); reflexivity.
  - cbn [apply_statement]. now rewrite deactivated_alter.
  - cbn [apply_statement].
    rewrite (bool_decide_ext _ _ (deactivated_none m t medicine_id)).
    destruct (bool_decide _); [reflexivity|]. simpl.
    destruct (bool_decide _); reflexivity.
  - cbn [apply_statement]. now rewrite deactivated_alter.
Qed.

Lemma join_medicine_deactivated m t r :
  join_medicine (Medicine.deactivated m t) r = join_medicine t r.
Proof.
  unfold join_medicine. rewrite deactivated_lookup.
  destruct (decide (item_medicine_id r = m)); [|reflexivity].
  now destruct (medicines t !! item_medicine_id r).
Qed.

Lemma select_invoice_items_deactivated m id t :
  select_invoice_items id (Medicine.deactivated m t)
  = select_invoice_items id t.
Proof.
  unfold select_invoice_items. simpl.
  apply map_ext. apply join_medicine_deactivated.
Qed.

Lemma blind_bind m {A B : Type} (f : M A) (k : A -> M B) :
  blind m f -> (forall a, blind m (k a)) -> blind m (bind f k).
Proof.
  intros Hf Hk w. unfold bind. rewrite Hf.
  destruct (f w) as [[x|a] w1]; simpl; [reflexivity|]. apply Hk.
Qed.

Lemma blind_ret m {A : Type} (a : A) : blind m (ret a).
Proof. intros w. reflexivity. Qed.

Lemma blind_connection_execute m e st s :
  blind m (connection_execute e st s).
Proof.
  intros w. unfold connection_execute. simpl.
  destruct (fails e st); [reflexivity|].
  rewrite apply_statement_deactivated.
  destruct (apply_statement s (w_working w) (w_ids w)) as [x|[[t c] id]];
    reflexivity.
Qed.

Lemma blind_insert_items m e invoiceData invoiceNumber invoiceId items :
  forall k,
  blind m
    (Invoice.insert_items e invoiceData invoiceNumber invoiceId k items).
Proof.
  induction items as [|i items IH]; intros k; simpl; [apply blind_ret|].
  repeat (apply blind_bind; [apply blind_connection_execute|intros _]).
  apply IH.
Qed.

Lemma blind_generateInvoiceNumber m e :
  blind m (Invoice.generateInvoiceNumber e).
Proof.
  intros w. unfold Invoice.generateInvoiceNumber, pool_execute.
  destruct (fails e LookupLastNumber); reflexivity.
Qed.

Lemma blind_create_transaction m e invoiceData items :
  blind m (Invoice.create_transaction e invoiceData items).
Proof.
  unfold Invoice.create_transaction.
  apply blind_bind.
  { intros w. rewrite blind_generateInvoiceNumber.
    destruct (Invoice.generateInvoiceNumber e w). reflexivity. }
  intros n. apply blind_bind; [apply blind_connection_execute|].
  intros id. apply blind_bind; [apply blind_insert_items|].
  intros _. apply blind_bind; [|intros _; apply blind_ret].
  intros w. unfold commitTransaction. simpl.
  destruct (fails e Commit); reflexivity.
Qed.

Lemma blind_findById m e id : blind m (Invoice.findById e id).
Proof.
  intros w. unfold Invoice.findById, pool_execute. simpl.
  destruct (fails e FetchInvoice); simpl; [reflexivity|].
  change (select_invoice_by_id id (Medicine.deactivated m (w_committed w)))
    with (select_invoice_by_id id (w_committed w)).
  destruct (select_invoice_by_id id (w_committed w)) as [|r rs]; simpl;
    [reflexivity|].
  destruct (fails e FetchItems); simpl; [reflexivity|].
  now rewrite select_invoice_items_deactivated.
Qed.

(** X16.  A sale does not look at [is_active]: a deactivated medicine is
    sold like an active one.  On a server state in which medicine [m] is
    deactivated, a call of [create] has the outcome, returns the invoice
    and sends the statements that it has on the state in which [m] is
    active, and it leaves the state that the other call leaves, with [m]
    deactivated. *)
Theorem sale_ignores_is_active (m : Z) (e : env) (d : db)
  (invoiceData : Sale.header) (items : list Sale.item) :
  Invoice.create e (deactivated_db m d) invoiceData items
  = map_final (deactivated_db m) (Invoice.create e d invoiceData items).
Proof.
  unfold Invoice.create.
  change (open_world (deactivated_db m d))
    with (deactivated_world m (open_world d)).
  assert (Hb : blind m (beginTransaction e)).
  { intros w. unfold beginTransaction.
    destruct (fails e GetConnection); [reflexivity|]. simpl.
    destruct (fails e BeginTransaction); reflexivity. }
  rewrite Hb.
  destruct (beginTransaction e (open_world d)) as [[x|u] w]; simpl;
    [reflexivity|].
  rewrite blind_create_transaction.
  destruct (Invoice.create_transaction e invoiceData items w)
    as [[x|id] w1]; simpl.
  - unfold rollbackTransaction. simpl.
    destruct (fails e Rollback); reflexivity.
  - rewrite blind_findById.
    destruct (Invoice.findById e id w1) as [invoice w2]. reflexivity.
Qed.

End MedicineReads.
(* ===================================================================== *)
(** * Sessions, roles and the pages of a pharmacist                       *)
(* ===================================================================== *)

Section Sessions.
Import Db Database Props.

Lemma strict_eq_eq a b : Js.strict_eq a b = true <-> a = b.
Proof.
  destruct a, b; simpl; split; try discriminate; try reflexivity;
    try (intros [= ->]).
  - intros H. apply Z.eqb_eq in H. now subst.
  - apply Z.eqb_refl.
  - intros H. apply String.eqb_eq in H. now subst.
  - apply String.eqb_refl.
Qed.

(** A user is an administrator, a pharmacist, or neither. *)
Lemma role_cases u :
  let admin := Js.strict_eq (Js.get u "role") (Js.Str "admin") in
  let pharmacist := Js.strict_eq (Js.get u "role") (Js.Str "pharmacist") in
  (admin = true /\ pharmacist = false)
  \/ (admin = false /\ pharmacist = true)
  \/ (admin = false /\ pharmacist = false).
Proof.
  cbv zeta.
  destruct (Js.strict_eq (Js.get u "role") (Js.Str "admin")) eqn:Ea,
    (Js.strict_eq (Js.get u "role") (Js.Str "pharmacist")) eqn:Ep; auto.
  apply strict_eq_eq in Ea, Ep. congruence.
Qed.

Lemma has_role_get s r :
  Auth.has_role s r = true <->
  exists u, Auth.user s = Some u /\ Js.get u "role" = Js.Str r.
Proof.
  unfold Auth.has_role. destruct (Auth.user s) as [u|].
  - rewrite strict_eq_eq. split; [eauto|]. now intros (? & [= <-] & ?).
  - split; [discriminate|]. now intros (? & ? & ?).
Qed.

Ltac by_role Ha Hp :=
  unfold App.home, App.enter, App.guard, Auth.checkRoleAndRedirect,
    Auth.requireAuth, Auth.requireAdmin, Auth.requirePharmacist,
    Auth.redirectIfAuthenticated, Auth.has_role;
  cbn [Auth.user App.path]; rewrite ?Ha, ?Hp; simpl.

(** X17.  The two role guards exclude each other: no session passes both
    [requireAdmin] and [requirePharmacist]; a session that passes one of
    them passes [requireAuth]; and the flags [isAdmin] and [isPharmacist]
    that [setTemplateVars] hands to the templates are set exactly when the
    guard of that role lets the session pass. *)
Theorem role_guards_are_exclusive (s : Auth.session) (path : string) :
  ~ (Auth.requireAdmin s = Auth.Next /\ Auth.requirePharmacist s = Auth.Next)
  /\ (Auth.requireAdmin s = Auth.Next
      \/ Auth.requirePharmacist s = Auth.Next ->
      Auth.requireAuth s = Auth.Next)
  /\ (Auth.isAdmin (Auth.setTemplateVars s path) = true <->
      Auth.requireAdmin s = Auth.Next)
  /\ (Auth.isPharmacist (Auth.setTemplateVars s path) = true <->
      Auth.requirePharmacist s = Auth.Next).
Proof.
  unfold Auth.requireAdmin, Auth.requirePharmacist, Auth.requireAuth,
    Auth.setTemplateVars. simpl.
  unfold Auth.has_role. destruct (Auth.user s) as [u|].
  - destruct (role_cases u) as [[-> ->]|[[-> ->]|[-> ->]]];
      (split; [intros [? ?]; discriminate|]);
      (split; [reflexivity|]);
      split; split; (reflexivity || discriminate).
  - split; [intros [? ?]; discriminate|].
    split; [intros [?|?]; discriminate|].
    split; split; discriminate.
Qed.

(** A page that a redirect leads to is served to the same session. *)
Lemma enter_again (s : Auth.session) (p : App.page) :
  App.enter p s = Auth.Next
  \/ exists error_msg q,
      App.enter p s = Auth.Redirect error_msg (App.path q)
      /\ App.enter q s = Auth.Next.
Proof.
  destruct s as [[u|]].
  - destruct (role_cases u) as [[Ha Hp]|[[Ha Hp]|[Ha Hp]]].
    + destruct p; [right|left|right]; try (by_role Ha Hp; reflexivity);
        exists None, App.AdminDashboard; by_role Ha Hp; split; reflexivity.
    + destruct p; [right|right|left]; try (by_role Ha Hp; reflexivity);
        exists None, App.PharmacistDashboard; by_role Ha Hp;
        split; reflexivity.
    + destruct p; [left|right|right]; try (by_role Ha Hp; reflexivity);
        eexists _, App.Login; by_role Ha Hp; split; reflexivity.
  - destruct p; [left|right|right]; try reflexivity;
      eexists _, App.Login; split; reflexivity.
Qed.

(** X18.  The redirects of the middleware end.  Whatever the session and
    the path, each of [requireAuth], [requireAdmin], [requirePharmacist],
    [redirectIfAuthenticated], [checkRoleAndRedirect] and the home route
    either lets the request pass or redirects to the login page or to one
    of the two dashboards; and a GET of that page with the same session is
    served at once, or after one more redirect to a page that is served:
    no session is sent round in a circle. *)
Theorem redirects_end (s : Auth.session) (currentPath : string) :
  Forall (settles s)
    [ Auth.requireAuth s;
      Auth.requireAdmin s;
      Auth.requirePharmacist s;
      Auth.redirectIfAuthenticated s;
      Auth.checkRoleAndRedirect s currentPath;
      Auth.Redirect None (App.home s) ].
Proof.
  assert (Hto : forall error_msg q,
             settles s (Auth.Redirect error_msg (App.path q))).
  { intros error_msg q. right. exists error_msg, q.
    split; [reflexivity|]. apply enter_again. }
  assert (Hnext : settles s Auth.Next) by now left.
  apply List.Forall_forall. intros a Hin.
  cbn [In] in Hin.
  destruct Hin as [<-|[<-|[<-|[<-|[<-|[<-|[]]]]]]];
    (destruct s as [[u|]];
     [destruct (role_cases u) as [[Ha Hp]|[[Ha Hp]|[Ha Hp]]];
      by_role Ha Hp
     |cbn]);
    try exact Hnext;
    try apply (Hto _ App.Login);
    try apply (Hto _ App.AdminDashboard);
    try apply (Hto _ App.PharmacistDashboard);
    destruct (Js.startsWith currentPath _);
    try exact Hnext;
    try apply (Hto _ App.AdminDashboard);
    apply (Hto _ App.PharmacistDashboard).
Qed.

(** X19.  A pharmacist sees their own invoices only.  For a session that
    [requirePharmacist] lets pass, every invoice that [GET /invoices]
    lists, with a search term or without, carries the id of the session's
    user as [pharmacist_id]; [GET /invoices/:id] renders an invoice only if
    it is the one asked for and carries that id; and when the query fails
    the list is empty. *)
Theorem pharmacist_sees_own_invoices (e : env) (u : Js.object)
  (search : Js.value) (outcome : string + list invoice_data) (id : Z)
  (w : world) :
  Auth.requirePharmacist {| Auth.user := Some u |} = Auth.Next ->
  Forall (fun inv => Js.get u "id" = Js.Num (Invoice.pharmacist_id inv))
    (Pharmacist.get_invoices u search outcome)
  /\ (forall invoice,
        fst (Pharmacist.get_invoice e u id w) = Pharmacist.Rendered invoice ->
        Js.get u "id" = Js.Num (Invoice.pharmacist_id invoice)
        /\ Invoice.id invoice = id)
  /\ (forall message, Pharmacist.get_invoices u search (inl message) = []).
Proof.
  unfold Auth.requirePharmacist.
  destruct (Auth.has_role _ _) eqn:Hr; [|discriminate]. intros _.
  apply has_role_get in Hr as (u' & [= <-] & Hrole).
  assert (Hown : forall l,
             Forall
               (fun inv => Js.get u "id" = Js.Num (Invoice.pharmacist_id inv))
               (List.filter (Pharmacist.own (Js.get u "id")) l)).
  { intros l. apply List.Forall_forall. intros inv Hin.
    apply filter_In in Hin as [_ Hin]. unfold Pharmacist.own in Hin.
    apply strict_eq_eq in Hin. now symmetry. }
  split; [|split].
  - unfold Pharmacist.get_invoices. rewrite Hrole. simpl.
    destruct (Js.truthy search); apply Hown.
  - intros invoice. unfold Pharmacist.get_invoice. rewrite Hrole.
    destruct (findById_world e id w) as (w' & reads & E & _).
    rewrite E. simpl.
    destruct (refetch e id (w_committed w)) as [inv|] eqn:Hre;
      [|discriminate].
    simpl. destruct (Pharmacist.own (Js.get u "id") inv) eqn:Ho; simpl;
      [|discriminate].
    intros [= <-]. split.
    + unfold Pharmacist.own in Ho. apply strict_eq_eq in Ho. now symmetry.
    + unfold refetch, Invoice.findById, pool_execute in Hre. simpl in Hre.
      destruct (fails e FetchInvoice); [discriminate|]. simpl in Hre.
      unfold select_invoice_by_id in Hre.
      destruct (List.filter _ _) as [|r rs] eqn:Hf; [discriminate|].
      assert (Hr : In r (List.filter (fun r => inv_id r =? id)
                           (invoices (w_committed w))))
        by (rewrite Hf; now left).
      apply filter_In in Hr as [_ Hr]. apply Z.eqb_eq in Hr.
      simpl in Hre.
      destruct (fails e FetchItems); simpl in Hre;
        injection Hre as <-; exact Hr.
  - intros message. unfold Pharmacist.get_invoices.
    destruct (Js.truthy search); rewrite ?Hrole; reflexivity.
Qed.

Lemma pharmacist_sees_own_invoices_witness :
  let rows :=
    map (join_pharmacist Sample.shelf)
      [ Sample.earlier_invoice 1 "INV-20240115-001";
        invoice_row_of 2
          {| v_invoice_number := "INV-20240115-002";
             v_customer_name := None; v_customer_mobile := None;
             v_customer_address := None; v_pharmacist_id := 3;
             v_total_amount := 500; v_discount_amount := 0;
             v_final_amount := 500; v_payment_method := "cash";
             v_invoice_date := "2024-01-15" |} ] in
  Auth.requirePharmacist (Sample.signed_in Sample.pharmacist_user)
  = Auth.Next
  /\ map Invoice.id
       (Pharmacist.get_invoices Sample.pharmacist_user Js.Undefined
          (inr rows))
     = [1]
  /\ Forall
       (fun inv =>
          Js.get Sample.pharmacist_user "id"
          = Js.Num (Invoice.pharmacist_id inv))
       (Pharmacist.get_invoices Sample.pharmacist_user Js.Undefined
          (inr rows)).
Proof.
  cbv zeta.
  assert (H : Auth.requirePharmacist (Sample.signed_in Sample.pharmacist_user)
              = Auth.Next) by (vm_compute; reflexivity).
  split; [exact H|]. split; [vm_compute; reflexivity|].
  exact (proj1 (pharmacist_sees_own_invoices Sample.calm
                  Sample.pharmacist_user Js.Undefined _ 1
                  (open_world Sample.fresh) H)).
Defined.

Lemma push_if_within (allowed : list string) test text v acc :
  In text allowed ->
  Forall (fun f => In f allowed) (fst acc) ->
  Forall (fun f => In f allowed) (fst (Js.push_if test text v acc)).
Proof.
  intros Ht Hacc. unfold Js.push_if. destruct test; [|exact Hacc].
  simpl. apply Forall_app. split; [exact Hacc|]. now repeat constructor.
Qed.

(** The statement of [User.update] assigns to none but the five columns. *)
Lemma user_update_assigns hash user b outcome query values :
  snd (User.update hash user b outcome) = Some (query, values) ->
  exists fields,
    query = "UPDATE users SET " +:+ Js.join ", " fields +:+ " WHERE id = ?"
    /\ Forall (fun f => In f updatable) fields.
Proof.
  unfold User.update.
  assert (Hp : Forall (fun f => In f updatable)
                 (fst (User.update_fields b))).
  { unfold User.update_fields.
    repeat (apply push_if_within; [simpl; tauto|]). constructor. }
  destruct (Js.truthy (Js.get b "password")).
  - destruct (hash (Js.get b "password")) as [h|]; [|discriminate].
    apply (push_if_within updatable true "password = ?" (Js.Str h)) in Hp;
      [|simpl; tauto].
    destruct (Js.push_if true _ _ _) as [fields vals].
    destruct fields as [|f fields]; [discriminate|].
    cbn [length Nat.eqb snd]. intros [= <- _].
    exists (f :: fields). split; [reflexivity|exact Hp].
  - destruct (User.update_fields b) as [fields vals].
    destruct fields as [|f fields]; [discriminate|].
    cbn [length Nat.eqb snd]. intros [= <- _].
    exists (f :: fields). split; [reflexivity|exact Hp].
Qed.

Lemma user_update_sends hash user b outcome :
  fst (User.update hash user b outcome) = true ->
  exists query values,
    snd (User.update hash user b outcome) = Some (query, values).
Proof.
  unfold User.update.
  destruct (Js.truthy (Js.get b "password")).
  - destruct (hash (Js.get b "password")) as [h|]; [|discriminate].
    destruct (Js.push_if true _ _ _) as [fields vals].
    destruct (Nat.eqb (length fields) 0); [discriminate|].
    intros _. eexists _, _. reflexivity.
  - destruct (User.update_fields b) as [fields vals].
    destruct (Nat.eqb (length fields) 0); [discriminate|].
    intros _. eexists _, _. reflexivity.
Qed.

(** X20.  A profile update copies the whole request body into the session.
    When [POST /profile] succeeds, [req.session.user] holds every field of
    the body with the value of the body and keeps its other fields, while
    the UPDATE that was sent assigns to no column but [full_name], [email],
    [mobile], [address] and [password].  So a field such as [role] changes
    in the session and not in the table: after a body with [role] set to
    [admin], the session passes [requireAdmin]. *)
Theorem profile_update_overrides_session
  (hash : Js.value -> option string) (session_user b : Js.object)
  (found : string + list User.t) (outcome : string + list unit)
  (user : User.t) :
  User.findById found = Some user ->
  fst (User.update hash user b outcome) = true ->
  let after :=
    snd (Pharmacist.post_profile hash session_user b [] found outcome) in
  fst (Pharmacist.post_profile hash session_user b [] found outcome)
  = {| Pharmacist.flash_key := "success_msg";
       Pharmacist.flash_msg := "Profile updated successfully" |}
  /\ (forall k, Js.get after k
                = match b !! k with
                  | Some v => v
                  | None => Js.get session_user k
                  end)
  /\ (b !! "role" = Some (Js.Str "admin") ->
      Auth.requireAdmin {| Auth.user := Some after |} = Auth.Next)
  /\ exists query values fields,
      snd (User.update hash user b outcome) = Some (query, values)
      /\ query
         = "UPDATE users SET " +:+ Js.join ", " fields +:+ " WHERE id = ?"
      /\ Forall (fun f => In f updatable) fields.
Proof.
  intros Hfound Hok after. subst after.
  unfold Pharmacist.post_profile. rewrite Hfound, Hok. simpl.
  assert (Hget : forall k,
             Js.get (Js.spread session_user b) k
             = match b !! k with
               | Some v => v
               | None => Js.get session_user k
               end).
  { intros k. unfold Js.get, Js.spread.
    destruct (b !! k) as [v|] eqn:Hb.
    - now rewrite (lookup_union_Some_l _ _ _ _ Hb).
    - now rewrite (lookup_union_r _ _ _ Hb). }
  split; [reflexivity|]. split; [exact Hget|]. split.
  - intros Hrole. unfold Auth.requireAdmin, Auth.has_role. simpl.
    now rewrite Hget, Hrole.
  - destruct (user_update_sends hash user b outcome Hok)
      as (query & values & E).
    destruct (user_update_assigns hash user b outcome query values E)
      as (fields & Hq & Hf).
    exists query, values, fields. auto.
Qed.

Lemma profile_update_overrides_session_witness :
  let hash := fun _ : Js.value => Some "$2a$10$hash" in
  let after :=
    snd (Pharmacist.post_profile hash Sample.pharmacist_user
           Sample.profile_form [] (inr [Sample.asha]) (inr [])) in
  User.findById (inr [Sample.asha]) = Some Sample.asha
  /\ fst (User.update hash Sample.asha Sample.profile_form (inr [])) = true
  /\ Auth.requireAdmin (Sample.signed_in Sample.pharmacist_user)
     <> Auth.Next
  /\ Auth.requireAdmin {| Auth.user := Some after |} = Auth.Next
  /\ snd (User.update hash Sample.asha Sample.profile_form (inr []))
     = Some ("UPDATE users SET full_name = ?, email = ?, mobile = ?"
             +:+ " WHERE id = ?",
             [ Js.Str "Asha Rao"; Js.Str "asha@pharmacy.com";
               Js.Str "9876543210"; Js.Num 2 ]).
Proof.
  cbv zeta.
  assert (Hf : User.findById (inr [Sample.asha]) = Some Sample.asha)
    by reflexivity.
  assert (Hu : fst (User.update (fun _ : Js.value => Some "$2a$10$hash")
                      Sample.asha Sample.profile_form (inr [])) = true)
    by (vm_compute; reflexivity).
  split; [exact Hf|]. split; [exact Hu|].
  split; [vm_compute; discriminate|].
  split; [|vm_compute; reflexivity].
  destruct (profile_update_overrides_session
              (fun _ : Js.value => Some "$2a$10$hash")
              Sample.pharmacist_user Sample.profile_form
              (inr [Sample.asha]) (inr []) Sample.asha Hf Hu)
    as (_ & _ & H & _).
  apply H. vm_compute. reflexivity.
Defined.

End Sessions.
